(** * The observer core of Vue 2: a shallow embedding

    Sources embedded here:
    - [src/core/observer/dep.js]   : [Dep] (addSub, removeSub, depend, notify)
    - [src/core/observer/array.js] : the seven intercepted array mutators
    - [src/core/observer/index.js] : [Observer], [observe], [defineReactive],
      [set], [dependArray]

    JavaScript objects live in an explicit store and are referred to by
    location, so that identity and aliasing are those of the program.
    Every operation is a state transformer that may also throw. *)

From Stdlib Require Import ZArith NArith Bool String DecimalString List Lia.
From Stdlib Require Import Sorting.Sorted Sorting.Permutation.
From stdpp Require Import base list.

Set Warnings "-register-all".
Local Open Scope nat_scope.

(* ===================================================================== *)
(** ** Values *)
(* ===================================================================== *)

(** A JavaScript value.  Numbers are the integers together with the
    not-a-number value; [VFun] is a function, of which only the identity
    matters; [VRef] is a reference to an object or array of the store.  [Observer] instances are not values of user data: a container
    refers to its observer through the marker property ([PMarker] below). *)
Inductive value : Type :=
  | VUndef
  | VNull
  | VBool (b : bool)
  | VNum (z : Z)
  | VNaN
  | VStr (s : string)
  | VFun (f : nat)
  | VRef (l : nat).

(** [a === b] *)
Definition strict_eq (a b : value) : bool :=
  match a, b with
  | VUndef, VUndef => true
  | VNull, VNull => true
  | VBool x, VBool y => Bool.eqb x y
  | VNum x, VNum y => Z.eqb x y
  | VStr x, VStr y => String.eqb x y
  | VFun x, VFun y => Nat.eqb x y
  | VRef x, VRef y => Nat.eqb x y
  | _, _ => false
  end.

(** [v !== v]: true of not-a-number only *)
Definition self_unequal (v : value) : bool := negb (strict_eq v v).

(** A consumer (watcher) as the core sees it: an identity and its [id]. *)
Record watcher : Type := Watcher { w_ref : nat; w_id : Z }.

Definition watcher_eqb (a b : watcher) : bool :=
  Nat.eqb (w_ref a) (w_ref b) && Z.eqb (w_id a) (w_id b).

(* ===================================================================== *)
(** ** The store *)
(* ===================================================================== *)

(** Function values that can sit in an accessor property: a native
    getter/setter that existed before [defineReactive], or the
    [reactiveGetter]/[reactiveSetter] closures it installs.  The closure's
    constants ([getter], [setter]) are part of the function value; its
    mutable variables ([val], [childOb]) are in the store under [c]. *)
Inductive getter : Type :=
  | GNative (f : nat)
  | GReactive (c : nat) (inner : option getter).

Inductive setter : Type :=
  | SNative (f : nat)
  | SReactive (c : nat) (g : option getter) (inner : option setter).

(** [PMarker ob] is the data property that [def(value, '__ob__', this)]
    creates: its value is the Observer instance [ob]; it is writable,
    configurable and not enumerable. *)
Inductive prop : Type :=
  | PData (v : value) (enumerable writable configurable : bool)
  | PMarker (ob : nat)
  | PAccessor (g : option getter) (s : option setter)
              (enumerable configurable : bool).

Inductive okind : Type :=
  | KPlain    (* Object.prototype.toString gives [object Object] *)
  | KArray    (* Array.isArray *)
  | KVNode    (* instanceof VNode *)
  | KOther.   (* any other object: Date, RegExp, Map, ... *)

(** Where an array finds its mutating methods. *)
Inductive aproto : Type :=
  | ProtoArray           (* Array.prototype *)
  | ProtoArrayMethods.   (* arrayMethods, whose prototype is Array.prototype *)

(** An object or array of the store.  [o_props] holds the own properties
    that have a name; the elements of an array are in [o_elems].  Of the
    prototype chain only the names it provides matter here: those of
    [Object.prototype] are the same for every object, the others are in
    [o_inherited]. *)
Record jsobj : Type := JsObj {
  o_kind : okind;
  o_extensible : bool;
  o_isVue : bool;                       (* truthiness of [_isVue] *)
  o_inherited : list string;            (* names found on prototypes below
                                           Object.prototype *)
  o_proto : aproto;
  o_ownMutators : bool;                 (* copyAugment defined the mutators *)
  o_props : list (string * prop);       (* own properties, insertion order *)
  o_elems : list (option value)         (* array elements; None is a hole *)
}.

(** An [Observer] instance. *)
Record observer : Type := ObserverI {
  ob_value : nat;
  ob_dep : nat;
  ob_vmCount : nat
}.

(** The mutable variables of one [defineReactive] activation. *)
Record closure : Type := Closure {
  c_obj : nat;
  c_dep : nat;
  c_val : value;
  c_childOb : option nat;
  c_shallow : bool;
  c_custom : bool                       (* a customSetter was passed *)
}.

(** the developer warnings of [set] and [del] *)
Inductive warning : Type :=
  | WarnSetPrimitive   (* Cannot set reactive property on undefined, ... *)
  | WarnSetRoot        (* Avoid adding reactive properties to a Vue
                          instance or its root $data at runtime ... *)
  | WarnDelPrimitive   (* Cannot delete reactive property on undefined, ... *)
  | WarnDelRoot.       (* Avoid deleting properties on a Vue instance or its
                          root $data - just set it to null. *)

(** What the core does to its collaborators, in order. *)
Inductive event : Type :=
  | EvWarn (w : warning)
  | EvNotify (d : nat)                  (* Dep.notify entered on dep d *)
  | EvUpdate (w : watcher)              (* subs[i].update() *)
  | EvAddDep (w : watcher) (d : nat)    (* Dep.target.addDep(dep) *)
  | EvNativeSet (f : nat) (v : value)   (* setter.call(obj, newVal) *)
  | EvCustomSetter.                     (* customSetter() *)

Record state : Type := State {
  heap : list jsobj;
  observers : list observer;
  deps : list (list watcher);           (* subs of each Dep; the index is its id *)
  closures : list closure;
  target : option watcher;              (* Dep.target *)
  targetStack : list (option watcher);
  shouldObserve : bool;
  trace : list event                    (* most recent last *)
}.

Inductive error : Type := TypeError | RangeError.

(** [Unmodelled]: the program goes on with data this embedding has no
    value for (an Observer instance or a built-in function read as a
    value, a number that is not an integer). *)
Inductive result (A : Type) : Type :=
  | Done (a : A) (s : state)
  | Throw (e : error)
  | OutOfFuel
  | Unmodelled.
Arguments Done {A} a s.
Arguments Throw {A} e.
Arguments OutOfFuel {A}.
Arguments Unmodelled {A}.

Definition M (A : Type) : Type := state -> result A.

Definition ret {A} (a : A) : M A := fun s => Done a s.
Definition bind {A B} (m : M A) (k : A -> M B) : M B :=
  fun s => match m s with
           | Done a s' => k a s'
           | Throw e => Throw e
           | OutOfFuel => OutOfFuel
           | Unmodelled => Unmodelled
           end.
Definition throw {A} (e : error) : M A := fun _ => Throw e.
Definition out_of_fuel {A} : M A := fun _ => OutOfFuel.
Definition unmodelled {A} : M A := fun _ => Unmodelled.
Definition get_state : M state := fun s => Done s s.
Definition modify (f : state -> state) : M unit := fun s => Done tt (f s).

Notation "x <- m ;; k" := (bind m (fun x => k))
  (at level 100, m at next level, right associativity).
Notation "m ;;; k" := (bind m (fun _ => k))
  (at level 100, right associativity).

(** a [for] loop over a list *)
Fixpoint forEach {A} (f : A -> M unit) (l : list A) : M unit :=
  match l with
  | [] => ret tt
  | x :: r => f x ;;; forEach f r
  end.

Definition when (b : bool) (m : M unit) : M unit := if b then m else ret tt.

Definition set_heap (h : list jsobj) (s : state) : state :=
  State h (observers s) (deps s) (closures s) (target s) (targetStack s)
        (shouldObserve s) (trace s).
Definition set_observers (o : list observer) (s : state) : state :=
  State (heap s) o (deps s) (closures s) (target s) (targetStack s)
        (shouldObserve s) (trace s).
Definition set_deps (d : list (list watcher)) (s : state) : state :=
  State (heap s) (observers s) d (closures s) (target s) (targetStack s)
        (shouldObserve s) (trace s).
Definition set_closures (c : list closure) (s : state) : state :=
  State (heap s) (observers s) (deps s) c (target s) (targetStack s)
        (shouldObserve s) (trace s).
Definition set_trace (t : list event) (s : state) : state :=
  State (heap s) (observers s) (deps s) (closures s) (target s) (targetStack s)
        (shouldObserve s) t.

Definition emit (e : event) : M unit :=
  modify (fun s => set_trace (trace s ++ [e]) s).

(* ===================================================================== *)
(** ** The environment *)
(* ===================================================================== *)

(** Build flags, configuration and the behaviour of the collaborators.
    A consumer's [update] and [addDep] may subscribe to and unsubscribe
    from dependency nodes; a native getter is a pure function. *)
Inductive subAction : Type :=
  | SubAdd (d : nat) (w : watcher)      (* dep.addSub(w) *)
  | SubRemove (d : nat) (w : watcher).  (* dep.removeSub(w) *)

Record env : Type := Env {
  production : bool;        (* process.env.NODE_ENV === 'production' *)
  async : bool;             (* config.async *)
  serverRendering : bool;   (* isServerRendering() *)
  hasProto : bool;          (* '__proto__' in {} *)
  on_update : watcher -> list subAction;
  on_addDep : watcher -> nat -> list subAction;
  getter_value : nat -> value;
  (* Array.prototype.sort with the caller's arguments *)
  native_sort : list value -> list (option value) -> list (option value)
}.

(* ===================================================================== *)
(** ** dep.js *)
(* ===================================================================== *)

Module Dep.

(** [new Dep()]: [id = uid++], [subs = []] *)
Definition create : M nat :=
  fun s => Done (length (deps s)) (set_deps (deps s ++ [[]]) s).

(** Modelled from the spec: [remove(arr, item)] of util, which is not among
    the sources: "removes first structural match; no-op if absent". *)
Fixpoint remove (l : list watcher) (w : watcher) : list watcher :=
  match l with
  | [] => []
  | x :: r => if watcher_eqb x w then r else x :: remove r w
  end.

Definition subs_of (s : state) (d : nat) : list watcher :=
  default [] (deps s !! d).

(** [addSub (sub) { this.subs.push(sub) }] *)
Definition addSub (d : nat) (w : watcher) : M unit :=
  modify (fun s => set_deps (alter (fun l => l ++ [w]) d (deps s)) s).

(** [removeSub (sub) { remove(this.subs, sub) }] *)
Definition removeSub (d : nat) (w : watcher) : M unit :=
  modify (fun s => set_deps (alter (fun l => remove l w) d (deps s)) s).

Definition run_action (a : subAction) : M unit :=
  match a with
  | SubAdd d w => addSub d w
  | SubRemove d w => removeSub d w
  end.

(** [subs.sort((a, b) => a.id - b.id)]: the sort of an array is stable,
    so [insert_by_id] puts a consumer before the ones of the same [id]
    that were behind it. *)
Fixpoint insert_by_id (w : watcher) (l : list watcher) : list watcher :=
  match l with
  | [] => [w]
  | x :: r => if (w_id w <=? w_id x)%Z then w :: x :: r
              else x :: insert_by_id w r
  end.

Fixpoint sort_by_id (l : list watcher) : list watcher :=
  match l with
  | [] => []
  | x :: r => insert_by_id x (sort_by_id r)
  end.

Section WithEnv.
Variable E : env.

(** [depend () { if (Dep.target) Dep.target.addDep(this) }] *)
Definition depend (d : nat) : M unit :=
  s <- get_state ;;
  match target s with
  | Some w => emit (EvAddDep w d) ;;; forEach run_action (on_addDep E w d)
  | None => ret tt
  end.

(** the order in which [notify] walks its snapshot *)
Definition dispatch_order (snapshot : list watcher) : list watcher :=
  if negb (production E) && negb (async E) then sort_by_id snapshot
  else snapshot.

(** [subs[i].update()] *)
Definition update (w : watcher) : M unit :=
  emit (EvUpdate w) ;;; forEach run_action (on_update E w).

(** [notify ()] *)
Definition notify (d : nat) : M unit :=
  emit (EvNotify d) ;;;
  s <- get_state ;;
  let subs := subs_of s d in            (* this.subs.slice() *)
  forEach update (dispatch_order subs).

End WithEnv.

(** [pushTarget] / [popTarget] *)
Definition pushTarget (t : option watcher) : M unit :=
  modify (fun s => State (heap s) (observers s) (deps s) (closures s) t
                         (targetStack s ++ [t]) (shouldObserve s) (trace s)).

Definition popTarget : M unit :=
  modify (fun s =>
    let stk := removelast (targetStack s) in
    State (heap s) (observers s) (deps s) (closures s)
          (default None (last stk)) stk (shouldObserve s) (trace s)).

End Dep.

(* ===================================================================== *)
(** ** Objects and their properties *)
(* ===================================================================== *)

Module Obj.

Fixpoint lookup_prop (k : string) (ps : list (string * prop)) : option prop :=
  match ps with
  | [] => None
  | (k', p) :: r => if String.eqb k k' then Some p else lookup_prop k r
  end.

(** replace the property in place, or add it last *)
Fixpoint store_prop (k : string) (p : prop) (ps : list (string * prop))
  : list (string * prop) :=
  match ps with
  | [] => [(k, p)]
  | (k', p') :: r => if String.eqb k k' then (k, p) :: r
                     else (k', p') :: store_prop k p r
  end.

Definition configurable (p : prop) : bool :=
  match p with
  | PData _ _ _ c => c
  | PMarker _ => true
  | PAccessor _ _ _ c => c
  end.

Definition enumerable (p : prop) : bool :=
  match p with
  | PData _ e _ _ => e
  | PMarker _ => false
  | PAccessor _ _ e _ => e
  end.

Definition prop_get (p : prop) : option getter :=
  match p with PAccessor g _ _ _ => g | _ => None end.
Definition prop_set (p : prop) : option setter :=
  match p with PAccessor _ s _ _ => s | _ => None end.

Definition with_props (ps : list (string * prop)) (o : jsobj) : jsobj :=
  JsObj (o_kind o) (o_extensible o) (o_isVue o) (o_inherited o) (o_proto o)
        (o_ownMutators o) ps (o_elems o).
Definition with_elems (es : list (option value)) (o : jsobj) : jsobj :=
  JsObj (o_kind o) (o_extensible o) (o_isVue o) (o_inherited o) (o_proto o)
        (o_ownMutators o) (o_props o) es.
Definition with_proto (p : aproto) (o : jsobj) : jsobj :=
  JsObj (o_kind o) (o_extensible o) (o_isVue o) (o_inherited o) p
        (o_ownMutators o) (o_props o) (o_elems o).
Definition with_ownMutators (o : jsobj) : jsobj :=
  JsObj (o_kind o) (o_extensible o) (o_isVue o) (o_inherited o) (o_proto o)
        true (o_props o) (o_elems o).

(** [Array.isArray(o)] *)
Definition isArray (o : jsobj) : bool :=
  match o_kind o with KArray => true | _ => false end.

(** Modelled from the spec: [isPlainObject] of util is not among the
    sources; it holds of "plain map-like objects". *)
Definition isPlainObject (o : jsobj) : bool :=
  match o_kind o with KPlain => true | _ => false end.

(** Modelled from the spec: the class [VNode] is not among the sources;
    [o instanceof VNode] holds of the "internal render-node" kind. *)
Definition isVNode (o : jsobj) : bool :=
  match o_kind o with KVNode => true | _ => false end.

(** the own property names that [Object.keys] lists *)
Definition keys (o : jsobj) : list string :=
  List.filter (fun k => match lookup_prop k (o_props o) with
                        | Some p => enumerable p
                        | None => false
                        end)
              (map fst (o_props o)).

(** the names every object inherits from [Object.prototype] *)
Definition objectPrototypeKeys : list string :=
  [ "constructor"; "__defineGetter__"; "__defineSetter__"; "hasOwnProperty";
    "__lookupGetter__"; "__lookupSetter__"; "isPrototypeOf";
    "propertyIsEnumerable"; "toString"; "valueOf"; "__proto__";
    "toLocaleString" ]%string.

Definition mem (k : string) (l : list string) : bool :=
  existsb (String.eqb k) l.

(** [methodsToPatch] of array.js: the names under which [copyAugment]
    defines the intercepted methods as own properties of a list.  The
    store records that it did ([o_ownMutators]), not the seven
    properties, so their use as properties is not modelled. *)
Definition methodsToPatch : list string :=
  [ "push"; "pop"; "shift"; "unshift"; "splice"; "sort"; "reverse" ]%string.

Definition ownMutator (k : string) (o : jsobj) : bool :=
  o_ownMutators o && mem k methodsToPatch.

(** a list has these methods in any case: from [Array.prototype], from
    [arrayMethods] or as its own *)
Definition mutatorName (k : string) (o : jsobj) : bool :=
  (isArray o || o_ownMutators o) && mem k methodsToPatch.

(** [Object.getOwnPropertyDescriptor(o, k)]; an array owns [length],
    which cannot be redefined *)
Definition getOwnPropertyDescriptor (k : string) (o : jsobj) : option prop :=
  match lookup_prop k (o_props o) with
  | Some p => Some p
  | None =>
      if isArray o && String.eqb k "length"
      then Some (PData (VNum (Z.of_nat (length (o_elems o)))) false true false)
      else None
  end.

(** Modelled from the spec: [hasOwn] of util is not among the sources;
    [hasOwn(o, k)] holds of "an own property"; an array owns [length],
    and the methods that [copyAugment] defined. *)
Definition hasOwn (k : string) (o : jsobj) : bool :=
  match lookup_prop k (o_props o) with
  | Some _ => true
  | None => isArray o && String.eqb k "length" || ownMutator k o
  end.

(** [k in o] *)
Definition has (k : string) (o : jsobj) : bool :=
  hasOwn k o || mem k (o_inherited o) || mem k objectPrototypeKeys.

(** [k in Object.prototype] *)
Definition inObjectPrototype (k : string) : bool := mem k objectPrototypeKeys.

Definition truthy (v : value) : bool :=
  match v with
  | VUndef | VNull | VNaN => false
  | VBool b => b
  | VNum z => negb (Z.eqb z 0)
  | VStr s => negb (String.eqb s "")
  | VFun _ | VRef _ => true
  end.

(** What [o.__ob__] is. *)
Inductive ob_read : Type :=
  | ObFalsy                 (* absent, or a falsy value *)
  | ObObserver (ob : nat)   (* an Observer instance *)
  | ObPrimitive             (* a truthy primitive *)
  | ObOther.                (* an object that is no Observer, an accessor,
                               or what a prototype provides *)

(** [o.__ob__], which is looked up along the prototype chain; what an
    inherited [__ob__] is, the store does not tell *)
Definition read_ob (o : jsobj) : ob_read :=
  match lookup_prop "__ob__" (o_props o) with
  | None => if mem "__ob__" (o_inherited o) then ObOther else ObFalsy
  | Some (PMarker ob) => ObObserver ob
  | Some (PData (VRef _) _ _ _) => ObOther
  | Some (PData (VFun _) _ _ _) => ObOther
  | Some (PData v _ _ _) => if truthy v then ObPrimitive else ObFalsy
  | Some (PAccessor _ _ _ _) => ObOther
  end.

(** [hasOwn(value, '__ob__') && value.__ob__ instanceof Observer] *)
Definition marker (o : jsobj) : option nat :=
  match lookup_prop "__ob__" (o_props o) with
  | Some (PMarker ob) => Some ob
  | _ => None
  end.

Definition get (l : nat) : M jsobj :=
  fun s => match heap s !! l with
           | Some o => Done o s
           | None => Throw TypeError
           end.

Definition put (l : nat) (o : jsobj) : M unit :=
  modify (fun s => set_heap (<[l := o]> (heap s)) s).

(** [Object.defineProperty(obj, key, desc)] with a full descriptor; the
    methods that [copyAugment] defined are not in [o_props], and
    redefining one is not modelled *)
Definition defineProperty (l : nat) (k : string) (p : prop) : M unit :=
  o <- get l ;;
  match lookup_prop k (o_props o) with
  | Some old =>
      if configurable old then put l (with_props (store_prop k p (o_props o)) o)
      else throw TypeError
  | None =>
      if isArray o && String.eqb k "length" then throw TypeError
      else if ownMutator k o then unmodelled
      else if o_extensible o
      then put l (with_props (store_prop k p (o_props o)) o)
      else throw TypeError
  end.

(** Modelled from the spec: [def] of util is not among the sources;
    [def(value, '__ob__', observer)] attaches the "hidden marker field", a
    property that is writable, configurable and not enumerable. *)
Definition def_marker (l : nat) (ob : nat) : M unit :=
  defineProperty l "__ob__" (PMarker ob).

End Obj.

(* ===================================================================== *)
(** ** index.js: Observer, observe, defineReactive *)
(* ===================================================================== *)

Module Observer.
Import Obj.

(** how [defineReactive] was called *)
Inductive dr_args : Type :=
  | Args2                                        (* defineReactive(obj, key) *)
  | ArgsVal (val : value) (customSetter shallow : bool).

Definition get_observer (ob : nat) : M observer :=
  fun s => match observers s !! ob with
           | Some x => Done x s
           | None => Throw TypeError
           end.

Definition get_closure (c : nat) : M closure :=
  fun s => match closures s !! c with
           | Some x => Done x s
           | None => Throw TypeError
           end.

Definition new_observer (l d : nat) : M nat :=
  fun s => Done (length (observers s))
                (set_observers (observers s ++ [ObserverI l d 0]) s).

Definition new_closure (c : closure) : M nat :=
  fun s => Done (length (closures s)) (set_closures (closures s ++ [c]) s).

Definition set_val (c : nat) (v : value) : M unit :=
  modify (fun s => set_closures
    (alter (fun x => Closure (c_obj x) (c_dep x) v (c_childOb x)
                             (c_shallow x) (c_custom x)) c (closures s)) s).

Definition set_childOb (c : nat) (ob : option nat) : M unit :=
  modify (fun s => set_closures
    (alter (fun x => Closure (c_obj x) (c_dep x) (c_val x) ob
                             (c_shallow x) (c_custom x)) c (closures s)) s).

(** [ob.vmCount++] *)
Definition incr_vmCount (ob : nat) : M unit :=
  modify (fun s => set_observers
    (alter (fun x => ObserverI (ob_value x) (ob_dep x) (S (ob_vmCount x)))
           ob (observers s)) s).

(** [protoAugment(target, arrayMethods)] *)
Definition protoAugment (l : nat) : M unit :=
  o <- get l ;; put l (with_proto ProtoArrayMethods o).

(** [copyAugment(target, arrayMethods, arrayKeys)] *)
Definition copyAugment (l : nat) : M unit :=
  o <- get l ;; put l (with_ownMutators o).

(** the array's mutating methods are the intercepted ones *)
Definition intercepted (o : jsobj) : bool :=
  match o_proto o with ProtoArrayMethods => true | ProtoArray => false end
  || o_ownMutators o.

Section WithEnv.
Variable E : env.

(** [e && e.__ob__ && e.__ob__.dep.depend()] for an object [o] *)
Definition depend_on_ob (o : jsobj) : M unit :=
  match read_ob o with
  | ObFalsy => ret tt
  | ObObserver ob => x <- get_observer ob ;; Dep.depend E (ob_dep x)
  | ObPrimitive => throw TypeError
  | ObOther => unmodelled
  end.

(** [dependArray(value)]; the fuel bounds the depth of the recursion *)
Fixpoint dependArray (fuel : nat) (l : nat) : M unit :=
  match fuel with
  | O => out_of_fuel
  | S f =>
      o <- get l ;;
      forEach (fun e =>
        match e with
        | Some (VRef l') =>
            o' <- get l' ;;
            depend_on_ob o' ;;;
            if isArray o' then dependArray f l' else ret tt
        | _ => ret tt
        end) (o_elems o)
  end.

Definition isArrayValue (v : value) : M bool :=
  match v with
  | VRef l => o <- get l ;; ret (isArray o)
  | _ => ret false
  end.

(** the dependency collection of [reactiveGetter], once [value] is known *)
Definition collect (fuel : nat) (c : nat) (value : value) : M unit :=
  s <- get_state ;;
  match target s with
  | None => ret tt
  | Some _ =>
      cl <- get_closure c ;;
      Dep.depend E (c_dep cl) ;;;
      match c_childOb cl with
      | None => ret tt
      | Some ob =>
          x <- get_observer ob ;;
          Dep.depend E (ob_dep x) ;;;
          match value with
          | VRef l =>
              o <- get l ;;
              if isArray o then dependArray fuel l else ret tt
          | _ => ret tt
          end
      end
  end.

(** calling a getter function; [GReactive] is [reactiveGetter] *)
Fixpoint call_getter (fuel : nat) (g : getter) : M value :=
  match g with
  | GNative f => ret (getter_value E f)
  | GReactive c inner =>
      value <- match inner with
               | Some g' => call_getter fuel g'
               | None => cl <- get_closure c ;; ret (c_val cl)
               end ;;
      collect fuel c value ;;;
      ret value
  end.

(** [obj[key]] *)
Definition read_prop (fuel : nat) (l : nat) (k : string) : M value :=
  o <- get l ;;
  match lookup_prop k (o_props o) with
  | Some (PData v _ _ _) => ret v
  | Some (PMarker _) => unmodelled
  | Some (PAccessor (Some g) _ _ _) => call_getter fuel g
  | Some (PAccessor None _ _ _) => ret VUndef
  | None =>
      if isArray o && String.eqb k "length"
      then ret (VNum (Z.of_nat (length (o_elems o))))
      else if mem k (o_inherited o) || mem k objectPrototypeKeys
              || mutatorName k o
      then unmodelled
      else ret VUndef
  end.

(** [defineReactive], given the [observe] it calls *)
Definition defineReactive_with (obs : value -> M (option nat)) (fuel : nat)
    (obj : nat) (key : string) (args : dr_args) : M unit :=
  dep <- Dep.create ;;
  o <- get obj ;;
  let property := getOwnPropertyDescriptor key o in
  if match property with Some p => negb (configurable p) | None => false end
  then ret tt
  else
    let getter := match property with Some p => prop_get p | None => None end in
    let setter := match property with Some p => prop_set p | None => None end in
    val <- match args with
           | Args2 =>
               if negb (bool_decide (is_Some getter))
                  || bool_decide (is_Some setter)
               then read_prop fuel obj key
               else ret VUndef
           | ArgsVal v _ _ => ret v
           end ;;
    let shallow := match args with ArgsVal _ _ sh => sh | Args2 => false end in
    let custom := match args with ArgsVal _ cs _ => cs | Args2 => false end in
    childOb <- (if shallow then ret None else obs val) ;;
    c <- new_closure (Closure obj dep val childOb shallow custom) ;;
    defineProperty obj key
      (PAccessor (Some (GReactive c getter)) (Some (SReactive c getter setter))
                 true true).

(** [walk(obj)] *)
Definition walk_with (obs : value -> M (option nat)) (fuel : nat) (obj : nat)
  : M unit :=
  o <- get obj ;;
  forEach (fun k => defineReactive_with obs fuel obj k Args2) (keys o).

(** [observeArray(items)] *)
Definition observeArray_with (obs : value -> M (option nat))
    (items : list (option value)) : M unit :=
  forEach (fun e => obs (default VUndef e) ;;; ret tt) items.

(** [new Observer(value)] *)
Definition construct_with (obs : value -> M (option nat)) (fuel : nat)
    (l : nat) : M nat :=
  dep <- Dep.create ;;
  ob <- new_observer l dep ;;
  def_marker l ob ;;;
  o <- get l ;;
  (if isArray o
   then (if hasProto E then protoAugment l else copyAugment l) ;;;
        observeArray_with obs (o_elems o)
   else walk_with obs fuel l) ;;;
  ret ob.

(** [observe(value, asRootData)] *)
Fixpoint observe (fuel : nat) (asRootData : bool) (v : value)
  : M (option nat) :=
  match fuel with
  | O => out_of_fuel
  | S f =>
      match v with
      | VRef l =>
          o <- get l ;;
          if isVNode o then ret None
          else
            s <- get_state ;;
            ob <- match marker o with
                  | Some ob => ret (Some ob)
                  | None =>
                      if shouldObserve s
                         && negb (serverRendering E)
                         && (isArray o || isPlainObject o)
                         && o_extensible o
                         && negb (o_isVue o)
                      then ob <- construct_with (observe f false) f l ;;
                           ret (Some ob)
                      else ret None
                  end ;;
            match ob with
            | Some i => when asRootData (incr_vmCount i) ;;; ret ob
            | None => ret None
            end
      | _ => ret None
      end
  end.

(** [defineReactive(obj, key, val, customSetter, shallow)] *)
Definition defineReactive (fuel : nat) (obj : nat) (key : string)
    (args : dr_args) : M unit :=
  defineReactive_with (observe fuel false) fuel obj key args.

(** [ob.observeArray(items)] *)
Definition observeArray (fuel : nat) (items : list (option value)) : M unit :=
  observeArray_with (observe fuel false) items.

(** [getter ? getter.call(obj) : val] in the closure [c] *)
Definition current_value (fuel : nat) (c : nat) (g : option getter) : M value :=
  match g with
  | Some g' => call_getter fuel g'
  | None => cl <- get_closure c ;; ret (c_val cl)
  end.

(** calling a setter function; [SReactive] is [reactiveSetter] *)
Fixpoint call_setter (obs : value -> M (option nat)) (fuel : nat)
    (st : setter) (newVal : value) : M unit :=
  match st with
  | SNative f => emit (EvNativeSet f newVal)
  | SReactive c g inner =>
      value <- current_value fuel c g ;;
      if strict_eq newVal value || (self_unequal newVal && self_unequal value)
      then ret tt
      else
        cl <- get_closure c ;;
        when (negb (production E) && c_custom cl) (emit EvCustomSetter) ;;;
        if bool_decide (is_Some g) && negb (bool_decide (is_Some inner))
        then ret tt
        else
          match inner with
          | Some s' => call_setter obs fuel s' newVal
          | None => set_val c newVal
          end ;;;
          childOb <- (if c_shallow cl then ret None else obs newVal) ;;
          set_childOb c childOb ;;;
          Dep.notify E (c_dep cl)
  end.

End WithEnv.
End Observer.

(* ===================================================================== *)
(** ** array.js: the intercepted mutators *)
(* ===================================================================== *)

Module ArrayMethods.
Import Obj.

(** [methodsToPatch] *)
Inductive method : Type :=
  | Push | Pop | Shift | Unshift | Splice | Sort | Reverse.

(** an array's length is below 2^32 *)
Definition length_ok (n : nat) : bool := (N.of_nat n <=? 4294967295)%N.

(** ToIntegerOrInfinity, for the argument values that convert without
    running user code *)
Definition toInteger (v : value) : option Z :=
  match v with
  | VNum z => Some z
  | VUndef | VNull | VNaN => Some 0%Z
  | VBool b => Some (if b then 1 else 0)%Z
  | VStr _ | VFun _ | VRef _ => None
  end.

Definition clamp_start (len : nat) (rel : Z) : nat :=
  if (rel <? 0)%Z then Z.to_nat (Z.max (Z.of_nat len + rel) 0)
  else Z.to_nat (Z.min rel (Z.of_nat len)).

(** [Array.prototype.splice]: the new elements and the removed ones *)
Definition splice_elems (es : list (option value)) (args : list value)
  : option (list (option value) * list (option value)) :=
  let len := length es in
  match match args with [] => Some 0%Z | a :: _ => toInteger a end with
  | None => None
  | Some rel =>
      let start := clamp_start len rel in
      match match args with
            | [] => Some 0
            | [_] => Some (len - start)
            | _ :: d :: _ =>
                match toInteger d with
                | Some z => Some (Z.to_nat (Z.min (Z.max z 0)
                                                  (Z.of_nat (len - start))))
                | None => None
                end
            end with
      | None => None
      | Some dc =>
          Some (take start es ++ map Some (drop 2 args) ++ drop (start + dc) es,
                take dc (drop start es))
      end
  end.

Definition resize (n : nat) (es : list (option value)) : list (option value) :=
  take n es ++ replicate (n - length es) None.

(** [arr.length = n].  The elements of a list are ordinary data
    properties (writable, enumerable, configurable) or holes, and its
    [length] is writable.  Of a list that is not extensible the store does
    not tell whether it is also sealed or frozen: there an operation that
    has to create an index property throws a TypeError, as it does in
    each of these cases, and any other write to the elements or the
    length is not modelled. *)
Definition set_length (l n : nat) : M unit :=
  o <- get l ;;
  if o_extensible o then
    if length_ok n
    then put l (with_elems (resize n (o_elems o)) o)
    else throw RangeError
  else unmodelled.

Definition alloc (o : jsobj) : M nat :=
  fun s => Done (length (heap s)) (set_heap (heap s ++ [o]) s).

(** [es'] has a value at an index where [es] has none: a property that
    has to be created *)
Definition adds_index (es es' : list (option value)) : bool :=
  existsb (fun i => match es' !! i, es !! i with
                    | Some (Some _), Some (Some _) => false
                    | Some (Some _), _ => true
                    | _, _ => false
                    end)
          (seq 0 (length es')).

(** the array [l] gets the elements [es], by writes to its indices and
    its [length] *)
Definition put_elems (l : nat) (es : list (option value)) : M unit :=
  o <- get l ;;
  if o_extensible o then
    if length_ok (length es)
    then put l (with_elems es o)
    else throw RangeError
  else if adds_index (o_elems o) es then throw TypeError
  else unmodelled.

Section WithEnv.
Variable E : env.

(** [original.apply(this, args)] *)
Definition original (m : method) (l : nat) (args : list value) : M value :=
  o <- get l ;;
  let es := o_elems o in
  match m with
  | Push =>
      let es' := es ++ map Some args in
      put_elems l es' ;;; ret (VNum (Z.of_nat (length es')))
  | Pop =>
      put_elems l (removelast es) ;;;
      ret (default VUndef (mjoin (last es)))
  | Shift =>
      put_elems l (tail es) ;;;
      ret (default VUndef (mjoin (head es)))
  | Unshift =>
      let es' := map Some args ++ es in
      put_elems l es' ;;; ret (VNum (Z.of_nat (length es')))
  | Splice =>
      match splice_elems es args with
      | None => unmodelled
      | Some (es', removed) =>
          put_elems l es' ;;;
          a <- alloc (JsObj KArray true false (o_inherited o) ProtoArray false
                            [] removed) ;;
          ret (VRef a)
      end
  | Sort =>
      match args with
      | [] | VUndef :: _ | VFun _ :: _ =>
          put_elems l (native_sort E args es) ;;; ret (VRef l)
      | _ => throw TypeError
      end
  | Reverse =>
      put_elems l (rev es) ;;; ret (VRef l)
  end.

(** the arguments that are new elements *)
Definition inserted (m : method) (args : list value) : option (list value) :=
  match m with
  | Push | Unshift => Some args
  | Splice => Some (drop 2 args)
  | Pop | Shift | Sort | Reverse => None
  end.

(** [function mutator (...args)] for [method], called on the array [l] *)
Definition mutator (fuel : nat) (m : method) (l : nat) (args : list value)
  : M value :=
  result <- original m l args ;;
  o <- get l ;;
  match read_ob o with
  | ObObserver ob =>
      match inserted m args with
      | Some ins =>
          Observer.observeArray E fuel (map Some ins)
      | None => ret tt
      end ;;;
      x <- Observer.get_observer ob ;;
      Dep.notify E (ob_dep x) ;;;
      ret result
  | ObFalsy | ObPrimitive => throw TypeError
  | ObOther => unmodelled
  end.

(** [arr[method](...args)] *)
Definition call_method (fuel : nat) (m : method) (l : nat) (args : list value)
  : M value :=
  o <- get l ;;
  if Observer.intercepted o then mutator fuel m l args
  else original m l args.

End WithEnv.
End ArrayMethods.

(* ===================================================================== *)
(** ** index.js: set *)
(* ===================================================================== *)

Module Api.
Import Obj.

(** A property key as [set] receives it: [KIndex n] is a key that denotes
    the index [n] of a list, [KName s] any other key, naming the property
    [s]. *)
Inductive key : Type :=
  | KIndex (n : nat)
  | KName (s : string).

(** Modelled from the spec: [isValidArrayIndex] of util is not among the
    sources; "a valid index" is a key that denotes a list index. *)
Definition isValidArrayIndex (k : key) : bool :=
  match k with KIndex _ => true | KName _ => false end.

(** the number that a valid index denotes *)
Definition index_of (k : key) : nat :=
  match k with KIndex n => n | KName _ => 0 end.

Definition key_name (k : key) : string :=
  match k with
  | KIndex n => NilZero.string_of_uint (Nat.to_uint n)
  | KName s => s
  end.

(** Modelled from the spec: [isUndef] and [isPrimitive] of util are not
    among the sources; [isUndef(v) || isPrimitive(v)] holds of "an
    undefined/null/primitive target". *)
Definition undef_or_primitive (v : value) : bool :=
  match v with
  | VUndef | VNull | VBool _ | VNum _ | VNaN | VStr _ => true
  | VFun _ | VRef _ => false
  end.

Section WithEnv.
Variable E : env.

(** [target[key] = val] in strict code.  Whether [target._isVue] holds is
    kept in [o_isVue]: a write that gives a data property [_isVue] a value
    is not modelled. *)
Definition assign (fuel : nat) (l : nat) (k : string) (v : value) : M unit :=
  o <- get l ;;
  match lookup_prop k (o_props o) with
  | Some (PData _ e w c) =>
      if negb w then throw TypeError
      else if String.eqb k "_isVue" then unmodelled
      else put l (with_props (store_prop k (PData v e w c) (o_props o)) o)
  | Some (PMarker _) =>
      put l (with_props (store_prop k (PData v false true true) (o_props o)) o)
  | Some (PAccessor _ (Some st) _ _) =>
      Observer.call_setter E (Observer.observe E fuel false) fuel st v
  | Some (PAccessor _ None _ _) => throw TypeError
  | None =>
      if isArray o && String.eqb k "length" then
        match v with
        | VNum z =>
            if (0 <=? z)%Z then ArrayMethods.set_length l (Z.to_nat z)
            else throw RangeError
        | _ => unmodelled
        end
      else if String.eqb k "__proto__" || String.eqb k "_isVue"
              || mem k (o_inherited o) || mutatorName k o
      then unmodelled  (* what a prototype provides decides, or the
                          property is kept outside [o_props] *)
      else if o_extensible o
      then put l (with_props (store_prop k (PData v true true true) (o_props o)) o)
      else throw TypeError
  end.

(** Modelled from the spec: [warn] of util is not among the sources; a
    developer warning is "delivered via a side-channel log and never
    interrupts control flow". *)
Definition warn (w : warning) : M unit := emit (EvWarn w).

(** [set(target, key, val)] *)
Definition set (fuel : nat) (target : value) (k : key) (val : value)
  : M value :=
  when (negb (production E) && undef_or_primitive target)
       (warn WarnSetPrimitive) ;;;
  match target with
  | VRef l =>
      o <- get l ;;
      if isArray o && isValidArrayIndex k then
        let n := index_of k in
        ArrayMethods.set_length l (Nat.max (length (o_elems o)) n) ;;;
        ArrayMethods.call_method E fuel ArrayMethods.Splice l
          [VNum (Z.of_nat n); VNum 1; val] ;;;
        ret val
      else
        let name := key_name k in
        if has name o && negb (inObjectPrototype name) then
          assign fuel l name val ;;; ret val
        else
          (* target._isVue || (ob && ob.vmCount) *)
          if o_isVue o then
            when (negb (production E)) (warn WarnSetRoot) ;;; ret val
          else
            match read_ob o with
            | ObOther => unmodelled
            | ObObserver ob =>
                x <- Observer.get_observer ob ;;
                if negb (Nat.eqb (ob_vmCount x) 0) then
                  when (negb (production E)) (warn WarnSetRoot) ;;; ret val
                else
                  Observer.defineReactive E fuel (ob_value x) name
                    (Observer.ArgsVal val false false) ;;;
                  Dep.notify E (ob_dep x) ;;;
                  ret val
            | ObFalsy => assign fuel l name val ;;; ret val
            | ObPrimitive => throw TypeError
            end
  | VFun _ => unmodelled
  | _ => throw TypeError
  end.

End WithEnv.
End Api.

(* ===================================================================== *)
(** ** Reading the trace *)
(* ===================================================================== *)

(** the consumers whose [update] was called, in order *)
Fixpoint updates_of (t : list event) : list watcher :=
  match t with
  | [] => []
  | EvUpdate w :: r => w :: updates_of r
  | _ :: r => updates_of r
  end.

(** how many times [notify] was entered on dep [d] *)
Fixpoint notifies_of (d : nat) (t : list event) : nat :=
  match t with
  | [] => 0
  | EvNotify d' :: r => (if Nat.eqb d d' then 1 else 0) + notifies_of d r
  | _ :: r => notifies_of d r
  end.

(** the developer warnings, in order *)
Fixpoint warnings_of (t : list event) : list warning :=
  match t with
  | [] => []
  | EvWarn w :: r => w :: warnings_of r
  | _ :: r => warnings_of r
  end.

(** the dependency nodes handed to [addDep] of consumer [w] *)
Fixpoint addDeps_of (w : watcher) (t : list event) : list nat :=
  match t with
  | [] => []
  | EvAddDep w' d :: r =>
      if watcher_eqb w w' then d :: addDeps_of w r else addDeps_of w r
  | _ :: r => addDeps_of w r
  end.

(** what one operation added to the trace *)
Definition since (before after : state) : list event :=
  drop (length (trace before)) (trace after).

(** the subscription changes of the consumers, as a function on the
    subscriber lists *)
Definition apply_action (a : subAction) (ds : list (list watcher))
  : list (list watcher) :=
  match a with
  | SubAdd d w => alter (fun l => l ++ [w]) d ds
  | SubRemove d w => alter (fun l => Dep.remove l w) d ds
  end.

Definition apply_actions (l : list subAction) (ds : list (list watcher))
  : list (list watcher) :=
  fold_left (fun acc a => apply_action a acc) l ds.

Definition id_le (a b : watcher) : Prop := (w_id a <= w_id b)%Z.

(* ===================================================================== *)
(** ** Concrete collaborators and stores for the examples *)
(* ===================================================================== *)

(** A consumer whose [addDep] subscribes it and whose [update] does
    nothing to the subscriber lists. *)
Definition plain_env (prod asy : bool) : env :=
  Env prod asy false true
      (fun _ => []) (fun w d => [SubAdd d w]) (fun _ => VUndef) (fun _ es => es).

Definition w1 : watcher := Watcher 1 1.
Definition w2 : watcher := Watcher 2 2.
Definition w3 : watcher := Watcher 3 3.

Definition empty_state : state := State [] [] [] [] None [] true [].

(** one dependency node whose subscribers are [w2] then [w1] *)
Definition two_subs : state := set_deps [[w2; w1]] empty_state.

(** a consumer [w2] that, when updated, subscribes [w3] to dep 0 and
    unsubscribes [w1] from it *)
Definition busy_env : env :=
  Env false false false true
      (fun w => if watcher_eqb w w2 then [SubAdd 0 w3; SubRemove 0 w1] else [])
      (fun w d => [SubAdd d w]) (fun _ => VUndef) (fun _ es => es).

Definition mk_obj (k : okind) (ps : list (string * prop)) : jsobj :=
  JsObj k true false [] ProtoArray false ps [].

Definition mk_array (ps : list (string * prop)) (es : list (option value))
  : jsobj :=
  JsObj KArray true false [] ProtoArray false ps es.

(** a render node on which [new Observer(vnode)] was run *)
Definition vnode_marked : state :=
  State [mk_obj KVNode [("__ob__"%string, PMarker 0)]]
        [ObserverI 0 0 0] [[]] [] None [] true [].

(** [{}] observed as root data: [observe({}, true)] *)
Definition root_obj : state :=
  State [mk_obj KPlain [("__ob__"%string, PMarker 0)]]
        [ObserverI 0 0 1] [[]] [] None [] true [].

(** server rendering on *)
Definition ssr_env : env :=
  Env false false true true
      (fun _ => []) (fun w d => [SubAdd d w]) (fun _ => VUndef) (fun _ es => es).

(** an observed empty array, with observation switched off afterwards *)
Definition marked_array_off : state :=
  State [mk_array [("__ob__"%string, PMarker 0)] []] [ObserverI 0 0 0] [[]]
        [] None [] false [].

(** the accessor that [defineReactive] installs for closure [c] *)
Definition reactive_prop (c : nat) (g : option getter) (st : option setter)
  : prop :=
  PAccessor (Some (GReactive c g)) (Some (SReactive c g st)) true true.

(** [{ x: NaN }] after [defineReactive(obj, 'x')], with [w1] subscribed to
    the property *)
Definition nan_prop : state :=
  State [mk_obj KPlain [("x"%string, reactive_prop 0 None None)]]
        [] [[w1]] [Closure 0 0 VNaN None false false] None [] true [].

(** [{ a: 1, b: [] }] and the array, not yet observed *)
Definition fresh_data : state :=
  State [mk_obj KPlain [("a"%string, PData (VNum 1) true true true);
                        ("b"%string, PData (VRef 1) true true true)];
         mk_array [] []]
        [] [] [] None [] true [].

(** the same after [observe(data, true)] *)
Definition observed_data : state :=
  State [mk_obj KPlain [("a"%string, reactive_prop 0 None None);
                        ("b"%string, reactive_prop 1 None None);
                        ("__ob__"%string, PMarker 0)];
         JsObj KArray true false [] ProtoArrayMethods false
               [("__ob__"%string, PMarker 1)] []]
        [ObserverI 0 0 1; ObserverI 1 3 0] [[]; []; []; []]
        [Closure 0 1 (VNum 1) None false false;
         Closure 0 2 (VRef 1) (Some 1) false false]
        None [] true [].

(** [data.k = [[item]]] after [observe(data)], read by the consumer [w1]:
    object 0 is [data], 1 the outer list, 2 the inner list, 3 [item] *)
Definition nested_deep : state :=
  State [mk_obj KPlain [("k"%string, reactive_prop 0 None None);
                        ("__ob__"%string, PMarker 0)];
         JsObj KArray true false [] ProtoArrayMethods false
               [("__ob__"%string, PMarker 1)] [Some (VRef 2)];
         JsObj KArray true false [] ProtoArrayMethods false
               [("__ob__"%string, PMarker 2)] [Some (VRef 3)];
         mk_obj KPlain [("__ob__"%string, PMarker 3)]]
        [ObserverI 0 0 0; ObserverI 1 2 0; ObserverI 2 3 0; ObserverI 3 4 0]
        [[]; []; []; []; []]
        [Closure 0 1 (VRef 1) (Some 1) false false]
        (Some w1) [Some w1] true [].

(** the same lists, observed on their own, under a property defined with
    [defineReactive(data, 'k', outer, null, true)] (shallow) *)
Definition nested_shallow : state :=
  State [mk_obj KPlain [("k"%string, reactive_prop 0 None None)];
         JsObj KArray true false [] ProtoArrayMethods false
               [("__ob__"%string, PMarker 0)] [Some (VRef 2)];
         JsObj KArray true false [] ProtoArrayMethods false
               [("__ob__"%string, PMarker 1)] [Some (VRef 3)];
         mk_obj KPlain [("__ob__"%string, PMarker 2)]]
        [ObserverI 1 0 0; ObserverI 2 1 0; ObserverI 3 2 0]
        [[]; []; []; []]
        [Closure 0 3 (VRef 1) None true false]
        (Some w1) [Some w1] true [].

(** an observed empty list whose dependency node [w1] subscribes to, and
    two plain objects *)
Definition list_and_two : state :=
  State [JsObj KArray true false [] ProtoArrayMethods false
               [("__ob__"%string, PMarker 0)] [];
         mk_obj KPlain []; mk_obj KPlain []]
        [ObserverI 0 0 0] [[w1]] [] None [] true [].

(** the same once the original [push] has appended the two objects *)
Definition list_and_two_pushed : state :=
  State [JsObj KArray true false [] ProtoArrayMethods false
               [("__ob__"%string, PMarker 0)]
               [Some (VRef 1); Some (VRef 2)];
         mk_obj KPlain []; mk_obj KPlain []]
        [ObserverI 0 0 0] [[w1]] [] None [] true [].

(** an observed empty list that was made non-extensible afterwards
    ([Object.preventExtensions(list)]) *)
Definition list_not_extensible : state :=
  State [JsObj KArray false false [] ProtoArrayMethods false
               [("__ob__"%string, PMarker 0)] []]
        [ObserverI 0 0 0] [[w1]] [] None [] true [].



(** [{ a: 1 }] observed, with [w1] subscribed to the property and [w2] to
    the object *)
Definition observed_a : state :=
  State [mk_obj KPlain [("a"%string, reactive_prop 0 None None);
                        ("__ob__"%string, PMarker 0)]]
        [ObserverI 0 0 0] [[w2]; [w1]]
        [Closure 0 1 (VNum 1) None false false] None [] true [].

(** the state after [ob.vmCount++] *)
Definition after_root (asRootData : bool) (ob : nat) (s : state) : state :=
  if asRootData
  then set_observers
         (alter (fun x => ObserverI (ob_value x) (ob_dep x) (S (ob_vmCount x)))
                ob (observers s)) s
  else s.

(** [target._isVue || (ob && ob.vmCount)] for a target with an Observer or
    with none *)
Definition root_tracked (s : state) (o : jsobj) : Prop :=
  o_isVue o = true \/
  exists ob x, Obj.marker o = Some ob /\ observers s !! ob = Some x /\
               ob_vmCount x <> 0.

(** the state after one developer warning, which only a build that is not
    the production build emits *)
Definition warned (E : env) (w : warning) (s : state) : state :=
  if production E then s else set_trace (trace s ++ [EvWarn w]) s.

(* ===================================================================== *)
(** ** Relations between the store before and after *)
(* ===================================================================== *)

(** a computation whose normal outcomes are all related by [R] *)
Definition respects {A} (R : state -> state -> Prop) (m : M A) : Prop :=
  forall s a s', m s = Done a s' -> R s s'.

(** a computation that returns, with a result and store satisfying [Q] *)
Definition returns {A} (m : M A) (s : state) (Q : A -> state -> Prop) : Prop :=
  match m s with
  | Done a s' => Q a s'
  | _ => False
  end.

Definition is_addDep (e : event) : Prop :=
  match e with EvAddDep _ _ => True | _ => False end.

(** Only dependency collection happened: subscriber lists and [addDep]
    events aside, the store is the same. *)
Definition dep_only (s s' : state) : Prop :=
  exists D t,
    s' = State (heap s) (observers s) D (closures s) (target s)
               (targetStack s) (shouldObserve s) (trace s ++ t) /\
    length D = length (deps s) /\
    Forall is_addDep t.

(** What observation keeps of an object: its kind, flags and elements, its
    marker, the names of its properties and that they can be redefined. *)
Definition same_shape (o o' : jsobj) : Prop :=
  o_kind o' = o_kind o /\
  o_extensible o' = o_extensible o /\
  o_isVue o' = o_isVue o /\
  o_inherited o' = o_inherited o /\
  o_elems o' = o_elems o /\
  (forall ob, Obj.marker o = Some ob -> Obj.marker o' = Some ob) /\
  (forall k p, Obj.lookup_prop k (o_props o) = Some p ->
     exists p', Obj.lookup_prop k (o_props o') = Some p' /\
                (Obj.configurable p = true -> Obj.configurable p' = true)).

(** What [observe(value)] may do to the store: objects keep their shape,
    Observers and closures are only added, and nothing is notified. *)
Definition grows (s s' : state) : Prop :=
  Forall2 same_shape (heap s) (heap s') /\
  observers s `prefix_of` observers s' /\
  closures s `prefix_of` closures s' /\
  target s' = target s /\
  targetStack s' = targetStack s /\
  shouldObserve s' = shouldObserve s /\
  length (deps s) <= length (deps s') /\
  exists t, trace s' = trace s ++ t /\ Forall is_addDep t.

(* ===================================================================== *)
(** ** Well-formed stores *)
(* ===================================================================== *)

Module Wf.

(** a reference is to an object of the store *)
Definition val_ok (nh : nat) (v : value) : bool :=
  match v with VRef l => l <? nh | _ => true end.

Section WithEnv.
Variable E : env.
Variables nh no nc : nat.   (* how many objects, Observers and closures *)

Fixpoint getter_ok (g : getter) : bool :=
  match g with
  | GNative f => val_ok nh (getter_value E f)
  | GReactive c inner =>
      (c <? nc) && match inner with Some g' => getter_ok g' | None => true end
  end.

Fixpoint setter_ok (st : setter) : bool :=
  match st with
  | SNative _ => true
  | SReactive c g inner =>
      (c <? nc)
      && match g with Some g' => getter_ok g' | None => true end
      && match inner with Some s' => setter_ok s' | None => true end
  end.

(** the marker is under [__ob__] and nothing else is *)
Definition prop_ok (kp : string * prop) : bool :=
  match snd kp with
  | PData v _ _ _ => val_ok nh v && negb (String.eqb (fst kp) "__ob__")
  | PMarker ob => (ob <? no) && String.eqb (fst kp) "__ob__"
  | PAccessor g st _ _ =>
      match g with Some g' => getter_ok g' | None => true end
      && match st with Some s' => setter_ok s' | None => true end
      && negb (String.eqb (fst kp) "__ob__")
  end.

Definition obj_ok (o : jsobj) : bool :=
  forallb (fun e => val_ok nh (default VUndef e)) (o_elems o)
  && forallb prop_ok (o_props o)
  && negb (Obj.mem "__ob__" (o_inherited o)).

Definition closure_ok (cl : closure) : bool :=
  val_ok nh (c_val cl)
  && match c_childOb cl with Some ob => ob <? no | None => true end.

Definition observer_ok (x : observer) : bool := ob_value x <? nh.

End WithEnv.

(** [dependArray] started on [l] goes no deeper than [d] *)
Fixpoint nest_ok (d : nat) (h : list jsobj) (l : nat) : bool :=
  match d with
  | O => false
  | S d' =>
      match h !! l with
      | None => true
      | Some o =>
          forallb (fun e =>
            match e with
            | Some (VRef l') =>
                match h !! l' with
                | Some o' => if Obj.isArray o' then nest_ok d' h l' else true
                | None => true
                end
            | _ => true
            end) (o_elems o)
      end
  end.

(** The store is well formed: references, Observers and closures exist,
    the marker is the only use of [__ob__] (no object inherits one), and
    lists nest no deeper than [D]. *)
Definition wfb (E : env) (D : nat) (s : state) : bool :=
  let nh := length (heap s) in
  let no := length (observers s) in
  let nc := length (closures s) in
  forallb (obj_ok E nh no nc) (heap s)
  && forallb (closure_ok nh no) (closures s)
  && forallb (observer_ok nh) (observers s)
  && forallb (nest_ok D (heap s)) (seq 0 nh).

Definition wf (E : env) (D : nat) (s : state) : Prop := wfb E D s = true.

(** how many objects carry no marker *)
Definition is_unmarked (o : jsobj) : bool :=
  match Obj.marker o with Some _ => false | None => true end.

Definition unmarked (h : list jsobj) : nat :=
  length (List.filter is_unmarked h).

End Wf.

(** [reach_dep h obs l d]: [d] is the dependency node of the Container
    Observer of an element of the list [l], or of an element of a list
    nested in it at any depth. *)
Inductive reach_dep (h : list jsobj) (obs : list observer) : nat -> nat -> Prop :=
  | reach_elem l o e o' ob x :
      h !! l = Some o -> In (Some (VRef e)) (o_elems o) ->
      h !! e = Some o' -> Obj.marker o' = Some ob -> obs !! ob = Some x ->
      reach_dep h obs l (ob_dep x)
  | reach_nested l o e o' d :
      h !! l = Some o -> In (Some (VRef e)) (o_elems o) ->
      h !! e = Some o' -> Obj.isArray o' = true ->
      reach_dep h obs e d ->
      reach_dep h obs l d.

(** [observe(value)] gives this object an Observer, the one it has or a
    new one *)
Definition observable (E : env) (s : state) (o : jsobj) : bool :=
  negb (Obj.isVNode o)
  && (negb (Wf.is_unmarked o)
      || (shouldObserve s
          && negb (serverRendering E)
          && (Obj.isArray o || Obj.isPlainObject o)
          && o_extensible o
          && negb (o_isVue o))).


(** What observation leaves alone: an object that carries the marker
    already, the ones listed in [L] aside. *)
Definition keeps_marked (L : list nat) (s s' : state) : Prop :=
  forall l o, heap s !! l = Some o -> Wf.is_unmarked o = false ->
              ~ In l L -> heap s' !! l = Some o.

(** what [observe(value)] establishes on a well-formed store *)
Definition obs_post (E : env) (D : nat) (s : state) (r : option nat)
    (s' : state) : Prop :=
  Wf.wf E D s' /\ grows s s' /\
  forall ob, r = Some ob -> ob < length (observers s').

(* ===================================================================== *)
(** ** index.js: toggleObserving, del *)
(* ===================================================================== *)

Module Index.
Import Obj.

(** [toggleObserving(value)] *)
Definition toggleObserving (value : bool) : M unit :=
  modify (fun s => State (heap s) (observers s) (deps s) (closures s)
                         (target s) (targetStack s) value (trace s)).

(** the own properties without the one named [k] *)
Definition remove_prop (k : string) (ps : list (string * prop))
  : list (string * prop) :=
  List.filter (fun kp => negb (String.eqb k (fst kp))) ps.

(** [delete target[key]] in strict code, on a property the target owns *)
Definition delete (l : nat) (k : string) : M unit :=
  o <- get l ;;
  match lookup_prop k (o_props o) with
  | Some p =>
      if configurable p
      then put l (with_props (remove_prop k (o_props o)) o)
      else throw TypeError
  | None =>
      (* the [length] of an array *)
      if isArray o && String.eqb k "length" then throw TypeError
      else if ownMutator k o then unmodelled
      else ret tt
  end.

Section WithEnv.
Variable E : env.

(** the end of [del]: [if (!hasOwn(target, key)) return], then
    [delete target[key]], then [ob.dep.notify()] when there is an [ob] *)
Definition del_own (l : nat) (name : string) (ob : option observer) : M unit :=
  o <- get l ;;
  if negb (hasOwn name o) then ret tt
  else
    delete l name ;;;
    match ob with
    | None => ret tt
    | Some x => Dep.notify E (ob_dep x)
    end.

(** [del(target, key)] *)
Definition del (fuel : nat) (target : value) (k : Api.key) : M unit :=
  when (negb (production E) && Api.undef_or_primitive target)
       (Api.warn WarnDelPrimitive) ;;;
  match target with
  | VRef l =>
      o <- get l ;;
      if isArray o && Api.isValidArrayIndex k then
        ArrayMethods.call_method E fuel ArrayMethods.Splice l
          [VNum (Z.of_nat (Api.index_of k)); VNum 1] ;;;
        ret tt
      else
        let name := Api.key_name k in
        (* target._isVue || (ob && ob.vmCount) *)
        if o_isVue o then
          when (negb (production E)) (Api.warn WarnDelRoot) ;;; ret tt
        else
          match read_ob o with
          | ObOther => unmodelled
          | ObObserver ob =>
              x <- Observer.get_observer ob ;;
              if negb (Nat.eqb (ob_vmCount x) 0) then
                when (negb (production E)) (Api.warn WarnDelRoot) ;;; ret tt
              else del_own l name (Some x)
          | ObFalsy => del_own l name None
          | ObPrimitive =>
              (* [ob.dep] is undefined *)
              if negb (hasOwn name o) then ret tt
              else delete l name ;;; throw TypeError
          end
  | VUndef | VNull => throw TypeError       (* undefined.__ob__ *)
  | VBool _ | VNum _ | VNaN => ret tt       (* owns no property *)
  | VStr _ | VFun _ => unmodelled
  end.

End WithEnv.
End Index.

(* ===================================================================== *)
(** ** global-api: Vue.observable *)
(* ===================================================================== *)

Module GlobalApi.

(** [Vue.observable = obj => { observe(obj); return obj }] *)
Definition observable (E : env) (fuel : nat) (obj : value) : M value :=
  Observer.observe E fuel false obj ;;; ret obj.

End GlobalApi.

(** [Dep.target] is the top of [targetStack], or nothing when the stack is
    empty *)
Definition stack_ok (s : state) : Prop :=
  target s = default None (last (targetStack s)).



(** the store after [notify] on [d] *)
Definition notified (E : env) (d : nat) (s : state) : state :=
  let ws := Dep.dispatch_order E (Dep.subs_of s d) in
  set_deps (apply_actions (concat (map (on_update E) ws)) (deps s))
           (set_trace (trace s ++ EvNotify d :: map EvUpdate ws) s).

(** ** What a property reads as *)

(** the value a getter returns, its dependency collection aside *)
Fixpoint peek_getter (E : env) (cs : list closure) (g : getter)
  : option value :=
  match g with
  | GNative f => Some (getter_value E f)
  | GReactive c inner =>
      match inner with
      | Some g' => peek_getter E cs g'
      | None => c_val <$> cs !! c
      end
  end.

(** the value [o[key]] evaluates to, as [Observer.read_prop] finds it *)
Definition peek_obj (E : env) (cs : list closure) (o : jsobj) (k : string)
  : option value :=
  match Obj.lookup_prop k (o_props o) with
  | Some (PData v _ _ _) => Some v
  | Some (PMarker _) => None
  | Some (PAccessor (Some g) _ _ _) => peek_getter E cs g
  | Some (PAccessor None _ _ _) => Some VUndef
  | None =>
      if Obj.isArray o && String.eqb k "length"
      then Some (VNum (Z.of_nat (length (o_elems o))))
      else if Obj.mem k (o_inherited o) || Obj.mem k Obj.objectPrototypeKeys
              || Obj.mutatorName k o
      then None
      else Some VUndef
  end.

Definition peek (E : env) (s : state) (l : nat) (k : string) : option value :=
  match heap s !! l with
  | None => None
  | Some o => peek_obj E (closures s) o k
  end.

(** What observation keeps of the values: closures are only added, and a
    property other than the marker that had a value still has it. *)
Definition transparent (E : env) (s s' : state) : Prop :=
  closures s `prefix_of` closures s' /\
  forall l k v, k <> "__ob__"%string ->
    peek E s l k = Some v -> peek E s' l k = Some v.

(** the store with [shouldObserve] set to [b] *)
Definition toggled (b : bool) (s : state) : state :=
  State (heap s) (observers s) (deps s) (closures s) (target s)
        (targetStack s) b (trace s).

(** What observation does to the Observers: the ones there are stay as
    they are, and a new one is not counted as root data. *)
Definition counts_kept (s s' : state) : Prop :=
  observers s `prefix_of` observers s' /\
  forall i x, length (observers s) <= i ->
    observers s' !! i = Some x -> ob_vmCount x = 0.





(** a consumer's [addDep] or [update] that only subscribes *)
Definition only_adds (l : list subAction) : bool :=
  forallb (fun a => match a with SubAdd _ _ => true | SubRemove _ _ => false end)
          l.

(** no consumer is unsubscribed *)
Definition subs_kept (s s' : state) : Prop :=
  forall d w, In w (Dep.subs_of s d) -> In w (Dep.subs_of s' d).

(* ===================================================================== *)
(** * Theorems *)
(* ===================================================================== *)

(** ** The monad *)

Lemma bind_done {A B} (m : M A) (k : A -> M B) s a s' :
  m s = Done a s' -> bind m k s = k a s'.
Proof. unfold bind. intros ->. reflexivity. Qed.

Lemma bind_inv {A B} (m : M A) (k : A -> M B) s b s'' :
  bind m k s = Done b s'' ->
  exists a s', m s = Done a s' /\ k a s' = Done b s''.
Proof.
  unfold bind. destruct (m s) as [a s'| | |]; try discriminate.
  intros H. exists a, s'. split; [reflexivity|exact H].
Qed.

Section Respects.
Context (R : state -> state -> Prop) `{!PreOrder R}.

Lemma respects_ret {A} (a : A) : respects R (ret a).
Proof. intros s a' s' H. inversion H; subst. reflexivity. Qed.

Lemma respects_fail {A} (m : M A) :
  (forall s a s', m s <> Done a s') -> respects R m.
Proof. intros H s a s' Hm. destruct (H _ _ _ Hm). Qed.

Lemma respects_throw {A} e : respects R (@throw A e).
Proof. apply respects_fail. discriminate. Qed.

Lemma respects_unmodelled {A} : respects R (@unmodelled A).
Proof. apply respects_fail. discriminate. Qed.

Lemma respects_out_of_fuel {A} : respects R (@out_of_fuel A).
Proof. apply respects_fail. discriminate. Qed.

Lemma respects_bind {A B} (m : M A) (k : A -> M B) :
  respects R m -> (forall a, respects R (k a)) -> respects R (bind m k).
Proof.
  intros Hm Hk s b s'' H. apply bind_inv in H as (a & s' & H1 & H2).
  etransitivity; [eapply Hm; exact H1|eapply Hk; exact H2].
Qed.

Lemma respects_forEach {A} (f : A -> M unit) l :
  (forall x, respects R (f x)) -> respects R (forEach f l).
Proof.
  intros Hf. induction l as [|x l IH]; simpl.
  - apply respects_ret.
  - apply respects_bind; [apply Hf|intros _; exact IH].
Qed.

Lemma respects_when b (m : M unit) : respects R m -> respects R (when b m).
Proof. intros H. destruct b; simpl; [exact H|apply respects_ret]. Qed.

Lemma respects_get_state : respects R get_state.
Proof. intros s a s' H. inversion H; subst. reflexivity. Qed.

Lemma respects_get l : respects R (Obj.get l).
Proof.
  intros s a s' H. unfold Obj.get in H.
  destruct (heap s !! l); inversion H; subst. reflexivity.
Qed.

Lemma respects_get_observer ob : respects R (Observer.get_observer ob).
Proof.
  intros s a s' H. unfold Observer.get_observer in H.
  destruct (observers s !! ob); inversion H; subst. reflexivity.
Qed.

Lemma respects_get_closure c : respects R (Observer.get_closure c).
Proof.
  intros s a s' H. unfold Observer.get_closure in H.
  destruct (closures s !! c); inversion H; subst. reflexivity.
Qed.

End Respects.

(** the steps that change nothing *)
Ltac respects_pure := apply respects_ret; apply _.
Ltac respects_read :=
  first [apply respects_get | apply respects_get_observer
        | apply respects_get_closure | apply respects_get_state]; apply _.

Lemma respects_weaken {A} (R R' : state -> state -> Prop) (m : M A) :
  (forall s s', R s s' -> R' s s') -> respects R m -> respects R' m.
Proof. intros HR Hm s a s' H. apply HR. eapply Hm. exact H. Qed.

Lemma set_deps_set_deps d1 d2 s : set_deps d2 (set_deps d1 s) = set_deps d2 s.
Proof. reflexivity. Qed.

Lemma set_deps_same s : set_deps (deps s) s = s.
Proof. destruct s; reflexivity. Qed.

Lemma since_app s s' t : trace s' = trace s ++ t -> since s s' = t.
Proof. unfold since. intros ->. apply drop_app_length. Qed.

Lemma updates_of_app t1 t2 :
  updates_of (t1 ++ t2) = updates_of t1 ++ updates_of t2.
Proof.
  induction t1 as [|e t1 IH]; simpl; [reflexivity|].
  destruct e; simpl; rewrite IH; reflexivity.
Qed.

Lemma updates_of_map ws : updates_of (map EvUpdate ws) = ws.
Proof. induction ws as [|w ws IH]; simpl; congruence. Qed.

Lemma notifies_of_app d t1 t2 :
  notifies_of d (t1 ++ t2) = notifies_of d t1 + notifies_of d t2.
Proof.
  induction t1 as [|e t1 IH]; simpl; [reflexivity|].
  destruct e; simpl; rewrite IH; lia.
Qed.

Lemma notifies_of_updates d ws : notifies_of d (map EvUpdate ws) = 0.
Proof. induction ws as [|w ws IH]; simpl; auto. Qed.

Lemma warnings_of_app t1 t2 :
  warnings_of (t1 ++ t2) = warnings_of t1 ++ warnings_of t2.
Proof.
  induction t1 as [|e t1 IH]; simpl; [reflexivity|].
  destruct e; simpl; rewrite IH; reflexivity.
Qed.

(** ** dep.js *)

Lemma run_action_eq a s :
  Dep.run_action a s = Done tt (set_deps (apply_action a (deps s)) s).
Proof. destruct a; reflexivity. Qed.

Lemma run_actions_eq l s :
  forEach Dep.run_action l s = Done tt (set_deps (apply_actions l (deps s)) s).
Proof.
  revert s. induction l as [|a l IH]; intros s; simpl.
  - unfold ret. rewrite set_deps_same. reflexivity.
  - erewrite bind_done by apply run_action_eq.
    rewrite IH. reflexivity.
Qed.

Lemma apply_actions_app l1 l2 ds :
  apply_actions (l1 ++ l2) ds = apply_actions l2 (apply_actions l1 ds).
Proof. unfold apply_actions. apply fold_left_app. Qed.

Lemma update_eq E w s :
  Dep.update E w s =
  Done tt (set_deps (apply_actions (on_update E w) (deps s))
                    (set_trace (trace s ++ [EvUpdate w]) s)).
Proof.
  unfold Dep.update. erewrite bind_done by reflexivity.
  rewrite run_actions_eq. reflexivity.
Qed.

(** The loop of [notify] calls [update] on each element of the list it was
    given, whatever the consumers do to the subscriber lists meanwhile. *)
Lemma dispatch_eq E ws s :
  forEach (Dep.update E) ws s =
  Done tt (set_deps (apply_actions (concat (map (on_update E) ws)) (deps s))
                    (set_trace (trace s ++ map EvUpdate ws) s)).
Proof.
  revert s. induction ws as [|w ws IH]; intros s; simpl.
  - unfold ret. rewrite app_nil_r. destruct s; reflexivity.
  - erewrite bind_done by apply update_eq.
    rewrite IH. simpl. rewrite apply_actions_app, <- app_assoc. reflexivity.
Qed.

Lemma notify_eq E d s :
  Dep.notify E d s =
  let ws := Dep.dispatch_order E (Dep.subs_of s d) in
  Done tt (set_deps (apply_actions (concat (map (on_update E) ws)) (deps s))
                    (set_trace (trace s ++ EvNotify d :: map EvUpdate ws) s)).
Proof.
  unfold Dep.notify. erewrite bind_done by reflexivity.
  erewrite bind_done by reflexivity.
  rewrite dispatch_eq. simpl. rewrite <- app_assoc. reflexivity.
Qed.

Lemma insert_by_id_perm w l : Permutation (Dep.insert_by_id w l) (w :: l).
Proof.
  induction l as [|x l IH]; simpl; [reflexivity|].
  destruct (w_id w <=? w_id x)%Z; [reflexivity|].
  rewrite IH. apply perm_swap.
Qed.

Lemma sort_by_id_perm l : Permutation (Dep.sort_by_id l) l.
Proof.
  induction l as [|x l IH]; simpl; [reflexivity|].
  rewrite insert_by_id_perm. constructor. exact IH.
Qed.

Lemma insert_by_id_hd a w l :
  id_le a w -> HdRel id_le a l -> HdRel id_le a (Dep.insert_by_id w l).
Proof.
  intros Haw Hal. destruct l as [|x l]; simpl.
  - constructor. exact Haw.
  - destruct (w_id w <=? w_id x)%Z; constructor; [exact Haw|].
    inversion Hal; assumption.
Qed.

Lemma insert_by_id_sorted w l :
  Sorted id_le l -> Sorted id_le (Dep.insert_by_id w l).
Proof.
  induction 1 as [|x l Hs IH Hhd]; simpl.
  - repeat constructor.
  - destruct (w_id w <=? w_id x)%Z eqn:Hlt.
    + constructor; [constructor; assumption|].
      constructor. unfold id_le. apply Z.leb_le in Hlt. lia.
    + constructor; [exact IH|].
      apply insert_by_id_hd; [|exact Hhd].
      unfold id_le. apply Z.leb_gt in Hlt. lia.
Qed.

Lemma sort_by_id_sorted l : Sorted id_le (Dep.sort_by_id l).
Proof.
  induction l as [|x l IH]; simpl; [constructor|].
  apply insert_by_id_sorted. exact IH.
Qed.

Lemma sorted_lookup_le l :
  Sorted id_le l ->
  forall i j a b, i < j -> l !! i = Some a -> l !! j = Some b -> id_le a b.
Proof.
  intros Hs. apply Sorted_StronglySorted in Hs.
  2:{ intros x y z Hxy Hyz. unfold id_le in *. lia. }
  induction Hs as [|x l _ IH Hall]; intros i j a b Hij Hi Hj.
  - discriminate.
  - destruct j as [|j]; [lia|]. destruct i as [|i]; simpl in *.
    + inversion Hi; subst. rewrite Forall_forall in Hall. apply Hall.
      eapply list_elem_of_lookup_2. exact Hj.
    + eapply (IH i j); eauto. lia.
Qed.

(** C2, as stated, fails: in a production build [notify] does not sort,
    also when [config.async] is off; the subscribers [w2; w1] are updated
    in that order. *)
Lemma notify_production_unsorted :
  async (plain_env true false) = false /\
  exists s',
    Dep.notify (plain_env true false) 0 two_subs = Done tt s' /\
    updates_of (since two_subs s') = [w2; w1] /\
    ~ Sorted id_le (updates_of (since two_subs s')).
Proof.
  split; [reflexivity|]. eexists. split; [vm_compute; reflexivity|].
  split; [reflexivity|].
  intros H.
  match type of H with Sorted _ ?l => change l with [w2; w1] in H end.
  inversion H as [|? ? _ Hhd]; subst.
  inversion Hhd as [|? ? Hle]; subst. unfold id_le in Hle. simpl in Hle. lia.
Qed.

(** the sort is stable: the consumers of one [id] stay in the order they
    had *)
Lemma insert_by_id_stable z w l :
  List.filter (fun x => Z.eqb (w_id x) z) (Dep.insert_by_id w l)
  = List.filter (fun x => Z.eqb (w_id x) z) (w :: l).
Proof.
  induction l as [|x l IH]; [reflexivity|]. cbn [Dep.insert_by_id].
  destruct (Z.leb_spec (w_id w) (w_id x)) as [_|Hgt]; [reflexivity|].
  cbn [List.filter] in *. rewrite IH.
  destruct (Z.eqb_spec (w_id w) z), (Z.eqb_spec (w_id x) z);
    try reflexivity. lia.
Qed.

Lemma sort_by_id_stable z l :
  List.filter (fun x => Z.eqb (w_id x) z) (Dep.sort_by_id l)
  = List.filter (fun x => Z.eqb (w_id x) z) l.
Proof.
  induction l as [|x l IH]; [reflexivity|]. cbn [Dep.sort_by_id].
  rewrite insert_by_id_stable. cbn [List.filter]. rewrite IH. reflexivity.
Qed.

(** C2 (amended): [notify] returns, and the consumers it updates are the
    subscribers at call time, each as often as it is subscribed (a
    permutation of the snapshot).  In a build that is not the production
    build and with [config.async] off they are updated in ascending order
    of [id] (a consumer updated earlier in the pass never has the larger
    [id]), consumers of the same [id] in the order of their subscription.
    In the production build, and whenever [config.async] is on, they are
    updated in the order of their subscription. *)
Theorem notify_sync_sorted (E : env) (s : state) (d : nat) :
  exists s',
    Dep.notify E d s = Done tt s' /\
    Permutation (updates_of (since s s')) (Dep.subs_of s d) /\
    (production E = false -> async E = false ->
     updates_of (since s s') = Dep.sort_by_id (Dep.subs_of s d) /\
     Sorted id_le (updates_of (since s s')) /\
     (forall i j a b, i < j ->
        updates_of (since s s') !! i = Some a ->
        updates_of (since s s') !! j = Some b ->
        (w_id a <= w_id b)%Z) /\
     (forall z,
        List.filter (fun w => Z.eqb (w_id w) z) (updates_of (since s s'))
        = List.filter (fun w => Z.eqb (w_id w) z) (Dep.subs_of s d))) /\
    (production E = true \/ async E = true ->
     updates_of (since s s') = Dep.subs_of s d).
Proof.
  rewrite notify_eq. cbv zeta. eexists. split; [reflexivity|].
  assert (Hu : updates_of (since s
             (set_deps (apply_actions (concat (map (on_update E)
                  (Dep.dispatch_order E (Dep.subs_of s d)))) (deps s))
               (set_trace (trace s ++ EvNotify d ::
                  map EvUpdate (Dep.dispatch_order E (Dep.subs_of s d))) s)))
           = Dep.dispatch_order E (Dep.subs_of s d)).
  { erewrite since_app by reflexivity. simpl. apply updates_of_map. }
  rewrite Hu. unfold Dep.dispatch_order. split; [|split].
  - destruct (negb (production E) && negb (async E));
      [apply sort_by_id_perm|reflexivity].
  - intros -> ->. simpl. split; [reflexivity|]. split; [|split].
    + apply sort_by_id_sorted.
    + apply sorted_lookup_le. apply sort_by_id_sorted.
    + intros z. apply sort_by_id_stable.
  - intros [-> | ->]; [reflexivity|]. rewrite andb_false_r. reflexivity.
Qed.

(** the subscribers [w2; w1]: sorted in a development build without
    [config.async], as subscribed in the production build *)
Lemma notify_sync_sorted_witness :
  (exists s',
     Dep.notify (plain_env false false) 0 two_subs = Done tt s' /\
     updates_of (since two_subs s') = [w1; w2]) /\
  (exists s',
     Dep.notify (plain_env true false) 0 two_subs = Done tt s' /\
     updates_of (since two_subs s') = [w2; w1]).
Proof.
  split.
  - destruct (notify_sync_sorted (plain_env false false) two_subs 0)
      as (s' & Hn & _ & Hs & _).
    destruct (Hs eq_refl eq_refl) as (Hu & _).
    exists s'. split; [exact Hn|]. rewrite Hu. reflexivity.
  - destruct (notify_sync_sorted (plain_env true false) two_subs 0)
      as (s' & Hn & _ & _ & Hp).
    exists s'. split; [exact Hn|]. rewrite (Hp (or_introl eq_refl)).
    reflexivity.
Defined.

(** C8: [notify] returns, and the consumers updated in the pass are exactly
    the subscribers at call time, each as often as it was subscribed then
    (a permutation of that snapshot, namely the snapshot in dispatch
    order), whatever subscriptions and unsubscriptions the updated
    consumers make meanwhile; those changes are all in the subscriber
    lists when the pass ends, and the next [notify] updates exactly the
    subscribers there are then. *)
Theorem notify_snapshot (E : env) (s : state) (d : nat) :
  exists s',
    Dep.notify E d s = Done tt s' /\
    Permutation (updates_of (since s s')) (Dep.subs_of s d) /\
    updates_of (since s s') = Dep.dispatch_order E (Dep.subs_of s d) /\
    deps s' = apply_actions
                (concat (map (on_update E)
                             (Dep.dispatch_order E (Dep.subs_of s d))))
                (deps s) /\
    exists s'',
      Dep.notify E d s' = Done tt s'' /\
      Permutation (updates_of (since s' s'')) (Dep.subs_of s' d) /\
      updates_of (since s' s'') = Dep.dispatch_order E (Dep.subs_of s' d).
Proof.
  assert (Hu : forall s0,
    updates_of (since s0
      (set_deps (apply_actions (concat (map (on_update E)
           (Dep.dispatch_order E (Dep.subs_of s0 d)))) (deps s0))
        (set_trace (trace s0 ++ EvNotify d ::
           map EvUpdate (Dep.dispatch_order E (Dep.subs_of s0 d))) s0)))
    = Dep.dispatch_order E (Dep.subs_of s0 d)).
  { intros s0. erewrite since_app by reflexivity. simpl.
    apply updates_of_map. }
  assert (Hp : forall l, Permutation (Dep.dispatch_order E l) l).
  { intros l. unfold Dep.dispatch_order.
    destruct (negb (production E) && negb (async E));
      [apply sort_by_id_perm|reflexivity]. }
  rewrite notify_eq. cbv zeta. eexists. split; [reflexivity|].
  rewrite Hu. split; [apply Hp|]. split; [reflexivity|].
  split; [reflexivity|].
  rewrite notify_eq. cbv zeta. eexists. split; [reflexivity|].
  rewrite Hu. split; [apply Hp|reflexivity].
Qed.

(** An instance: [w2] subscribes [w3] and unsubscribes [w1] while it is
    updated; [w1] is still updated in this pass and [w3] is not; in the
    next pass it is the other way round. *)
Example notify_snapshot_busy :
  exists s' s'',
    Dep.notify busy_env 0 two_subs = Done tt s' /\
    updates_of (since two_subs s') = [w1; w2] /\
    Dep.notify busy_env 0 s' = Done tt s'' /\
    updates_of (since s' s'') = [w2; w3].
Proof.
  do 2 eexists. split; [vm_compute; reflexivity|].
  split; [reflexivity|]. split; [vm_compute; reflexivity|]. reflexivity.
Qed.

(** ** observe on a value that carries the marker *)

Lemma marker_read_ob o ob : Obj.marker o = Some ob -> Obj.read_ob o = Obj.ObObserver ob.
Proof.
  unfold Obj.marker, Obj.read_ob.
  destruct (Obj.lookup_prop "__ob__" (o_props o)) as [[| |]|]; congruence.
Qed.

Lemma get_eq l o s : heap s !! l = Some o -> Obj.get l s = Done o s.
Proof. unfold Obj.get. intros ->. reflexivity. Qed.

Lemma observe_marked_eq E fuel asRootData s l o ob :
  heap s !! l = Some o ->
  Obj.isVNode o = false ->
  Obj.marker o = Some ob ->
  Observer.observe E (S fuel) asRootData (VRef l) s
  = Done (Some ob) (after_root asRootData ob s).
Proof.
  intros Hl Hv Hm. simpl.
  erewrite bind_done by (apply get_eq; exact Hl).
  rewrite Hv. erewrite bind_done by reflexivity. rewrite Hm.
  erewrite bind_done by reflexivity.
  destruct asRootData; reflexivity.
Qed.

(** C10, as stated, fails: a render node that carries the marker is turned
    away by the first test of [observe], before the marker is looked at. *)
Lemma observe_marked_vnode :
  exists o,
    heap vnode_marked !! 0 = Some o /\ Obj.marker o = Some 0 /\
    Observer.observe (plain_env false false) 3 false (VRef 0) vnode_marked
    = Done None vnode_marked.
Proof. eexists. split; [reflexivity|]. split; reflexivity. Qed.

(** C10 (amended): for every object that is not a render node ([VNode]
    instance) and carries the marker, [observe] returns the Observer of the
    marker, whatever [shouldObserve] and [isServerRendering()] are; nothing
    changes but [vmCount] when [asRootData] is set. *)
Theorem observe_marked (E : env) (fuel : nat) (asRootData : bool)
    (s : state) (l : nat) (o : jsobj) (ob : nat) :
  heap s !! l = Some o ->
  Obj.isVNode o = false ->
  Obj.marker o = Some ob ->
  Observer.observe E (S fuel) asRootData (VRef l) s
  = Done (Some ob) (after_root asRootData ob s).
Proof. apply observe_marked_eq. Qed.

(** a marked array, with observation switched off and server rendering on *)
Lemma observe_marked_witness :
  Observer.observe ssr_env 1 false (VRef 0) marked_array_off
  = Done (Some 0) marked_array_off.
Proof.
  exact (observe_marked ssr_env 0 false marked_array_off 0
           (mk_array [("__ob__"%string, PMarker 0)] []) 0
           eq_refl eq_refl eq_refl).
Defined.

(** ** set on a root-tracked target *)




(** ** Dependency collection leaves the rest of the store alone *)

#[export] Instance dep_only_preorder : PreOrder dep_only.
Proof.
  split.
  - intros s. exists (deps s), []. split; [|split; [reflexivity|constructor]].
    rewrite app_nil_r. destruct s; reflexivity.
  - intros s1 s2 s3 (D1 & t1 & -> & HD1 & Ht1) (D2 & t2 & -> & HD2 & Ht2).
    simpl in *. exists D2, (t1 ++ t2). split; [|split].
    + rewrite app_assoc. reflexivity.
    + congruence.
    + apply Forall_app. split; assumption.
Qed.

Lemma apply_action_length a ds : length (apply_action a ds) = length ds.
Proof. destruct a; simpl; apply length_alter. Qed.

Lemma apply_actions_length l ds : length (apply_actions l ds) = length ds.
Proof.
  revert ds. induction l as [|a l IH]; intros ds; simpl; [reflexivity|].
  unfold apply_actions in *. simpl. rewrite IH. apply apply_action_length.
Qed.

Lemma depend_eq E d s :
  Dep.depend E d s =
  Done tt match target s with
          | Some w => set_deps (apply_actions (on_addDep E w d) (deps s))
                               (set_trace (trace s ++ [EvAddDep w d]) s)
          | None => s
          end.
Proof.
  unfold Dep.depend. erewrite bind_done by reflexivity.
  destruct (target s) as [w|]; [|reflexivity].
  erewrite bind_done by reflexivity. rewrite run_actions_eq. reflexivity.
Qed.

Lemma depend_dep_only E d : respects dep_only (Dep.depend E d).
Proof.
  intros s a s' H. rewrite depend_eq in H. inversion H; subst; clear H.
  destruct (target s) as [w|]; [|reflexivity].
  eexists _, _. split; [reflexivity|]. split.
  - apply apply_actions_length.
  - repeat constructor.
Qed.

Lemma depend_on_ob_dep_only E o : respects dep_only (Observer.depend_on_ob E o).
Proof.
  unfold Observer.depend_on_ob. destruct (Obj.read_ob o).
  - respects_pure.
  - apply respects_bind; [apply _|respects_read|].
    intros x. apply depend_dep_only.
  - apply respects_throw.
  - apply respects_unmodelled.
Qed.

Lemma dependArray_dep_only E fuel l :
  respects dep_only (Observer.dependArray E fuel l).
Proof.
  revert l. induction fuel as [|f IH]; intros l; simpl.
  - apply respects_out_of_fuel.
  - apply respects_bind; [apply _|respects_read|].
    intros o. apply respects_forEach; [apply _|].
    intros [[| | | | | | |l']|]; try (respects_pure).
    apply respects_bind; [apply _|respects_read|].
    intros o'. apply respects_bind; [apply _|apply depend_on_ob_dep_only|].
    intros _. destruct (Obj.isArray o'); [apply IH|respects_pure].
Qed.

Lemma collect_dep_only E fuel c v : respects dep_only (Observer.collect E fuel c v).
Proof.
  unfold Observer.collect.
  apply respects_bind; [apply _|respects_read|].
  intros s0. destruct (target s0); [|respects_pure].
  apply respects_bind; [apply _|respects_read|].
  intros cl. apply respects_bind; [apply _|apply depend_dep_only|].
  intros _. destruct (c_childOb cl); [|respects_pure].
  apply respects_bind; [apply _|respects_read|].
  intros x. apply respects_bind; [apply _|apply depend_dep_only|].
  intros _. destruct v; try (respects_pure).
  apply respects_bind; [apply _|respects_read|].
  intros o. destruct (Obj.isArray o);
    [apply dependArray_dep_only|respects_pure].
Qed.

Lemma getter_ind' (P : getter -> Prop) :
  (forall f, P (GNative f)) ->
  (forall c, P (GReactive c None)) ->
  (forall c g, P g -> P (GReactive c (Some g))) ->
  forall g, P g.
Proof.
  intros H1 H2 H3. fix IH 1. intros [f|c [g|]].
  - apply H1.
  - apply H3. apply IH.
  - apply H2.
Qed.

Lemma call_getter_dep_only E fuel g : respects dep_only (Observer.call_getter E fuel g).
Proof.
  induction g as [f|c|c g IH] using getter_ind'; simpl.
  - respects_pure.
  - apply respects_bind; [apply _| |].
    + apply respects_bind; [apply _|respects_read|].
      intros cl. respects_pure.
    + intros v. apply respects_bind; [apply _|apply collect_dep_only|].
      intros _. respects_pure.
  - apply respects_bind; [apply _|exact IH|].
    intros v. apply respects_bind; [apply _|apply collect_dep_only|].
    intros _. respects_pure.
Qed.

Lemma current_value_dep_only E fuel c g :
  respects dep_only (Observer.current_value E fuel c g).
Proof.
  destruct g as [g|]; simpl.
  - apply call_getter_dep_only.
  - apply respects_bind; [apply _|respects_read|].
    intros cl. respects_pure.
Qed.

Lemma dep_only_notifies s s' d : dep_only s s' -> notifies_of d (since s s') = 0.
Proof.
  intros (D & t & -> & _ & Ht). erewrite since_app by reflexivity.
  induction Ht as [|e t He _ IH]; simpl; [reflexivity|].
  destruct e; simpl in *; try contradiction. exact IH.
Qed.

Lemma dep_only_updates s s' : dep_only s s' -> updates_of (since s s') = [].
Proof.
  intros (D & t & -> & _ & Ht). erewrite since_app by reflexivity.
  induction Ht as [|e t He _ IH]; simpl; [reflexivity|].
  destruct e; simpl in *; try contradiction. exact IH.
Qed.

(** ** Writing the current value *)

(** C3: let a property be the accessor that [defineReactive] installed and
    [value] its current value as the setter reads it
    ([getter ? getter.call(obj) : val]).  Writing a [newVal] that is
    identical to [value], or is self-unequal (not-a-number) when [value] is
    too, returns at once: the closure variables and the objects are
    unchanged and no [notify] and no [update] happens; without a custom
    getter, the store is exactly the same. *)
Theorem equal_write_noop (E : env) (fuel : nat) (s : state) (l : nat)
    (o : jsobj) (k : string) (c : nat) (g : option getter)
    (inner : option setter) (newVal value : value) (s1 : state) :
  heap s !! l = Some o ->
  Obj.lookup_prop k (o_props o) = Some (reactive_prop c g inner) ->
  Observer.current_value E fuel c g s = Done value s1 ->
  strict_eq newVal value = true \/
    (self_unequal newVal = true /\ self_unequal value = true) ->
  Api.assign E fuel l k newVal s = Done tt s1 /\
  closures s1 = closures s /\
  heap s1 = heap s /\
  (forall d, notifies_of d (since s s1) = 0) /\
  updates_of (since s s1) = [] /\
  (g = None -> s1 = s).
Proof.
  intros Hl Hk Hv Heq.
  pose proof (current_value_dep_only E fuel c g s value s1 Hv) as Hd.
  split; [|split; [|split; [|split; [|split]]]].
  - unfold Api.assign. erewrite bind_done by (apply get_eq; exact Hl).
    rewrite Hk. unfold reactive_prop. simpl.
    erewrite bind_done by exact Hv.
    destruct Heq as [->|[-> ->]]; [reflexivity|].
    rewrite orb_true_r. reflexivity.
  - destruct Hd as (D & t & -> & _). reflexivity.
  - destruct Hd as (D & t & -> & _). reflexivity.
  - intros d. apply dep_only_notifies. exact Hd.
  - apply dep_only_updates. exact Hd.
  - intros ->. simpl in Hv. apply bind_inv in Hv as (cl & s0 & H1 & H2).
    unfold Observer.get_closure in H1.
    destruct (closures s !! c); inversion H1; subst.
    inversion H2; subst. reflexivity.
Qed.

(** not-a-number written over not-a-number *)
Lemma equal_write_noop_witness :
  Api.assign (plain_env false false) 1 0 "x" VNaN nan_prop = Done tt nan_prop /\
  forall d, notifies_of d (since nan_prop nan_prop) = 0.
Proof.
  pose proof (equal_write_noop (plain_env false false) 1 nan_prop 0
                (mk_obj KPlain [("x"%string, reactive_prop 0 None None)])
                "x" 0 None None VNaN VNaN nan_prop
                eq_refl eq_refl eq_refl (or_intror (conj eq_refl eq_refl)))
    as (H1 & _ & _ & H2 & _).
  split; [exact H1|exact H2].
Defined.

(** ** What observation keeps *)

#[export] Instance same_shape_preorder : PreOrder same_shape.
Proof.
  split.
  - intros o. repeat split; auto. intros k p H. exists p. auto.
  - intros o1 o2 o3 (A1 & A2 & A3 & A4 & A5 & A6 & A7)
                    (B1 & B2 & B3 & B4 & B5 & B6 & B7).
    repeat split; try congruence; auto.
    intros k p H. destruct (A7 k p H) as (p' & H' & Hc).
    destruct (B7 k p' H') as (p'' & H'' & Hc').
    exists p''. auto.
Qed.

#[export] Instance grows_preorder : PreOrder grows.
Proof.
  split.
  - intros s. repeat split; auto.
    + apply Forall2_same_length_lookup. split; [reflexivity|].
      intros i x y Hx Hy. assert (x = y) as -> by congruence. reflexivity.
    + exists []. rewrite app_nil_r. split; [reflexivity|constructor].
  - intros s1 s2 s3 (A1 & A2 & A3 & A4 & A5 & A6 & A7 & t1 & A8 & A9)
                    (B1 & B2 & B3 & B4 & B5 & B6 & B7 & t2 & B8 & B9).
    repeat split; try congruence; try (etransitivity; eassumption).
    exists (t1 ++ t2). split.
    + rewrite B8, A8, app_assoc. reflexivity.
    + apply Forall_app. split; assumption.
Qed.

Lemma dep_only_grows s s' : dep_only s s' -> grows s s'.
Proof.
  intros (D & t & -> & HD & Ht). repeat split; simpl; auto.
  - apply Forall2_same_length_lookup. split; [reflexivity|].
    intros i x y Hx Hy. assert (x = y) as -> by congruence. reflexivity.
  - lia.
  - exists t. auto.
Qed.

Lemma create_grows : respects grows Dep.create.
Proof.
  intros s a s' H. inversion H; subst; clear H. repeat split; simpl; auto.
  - reflexivity.
  - rewrite length_app. lia.
  - exists []. rewrite app_nil_r. split; [reflexivity|constructor].
Qed.

Lemma new_observer_grows l d : respects grows (Observer.new_observer l d).
Proof.
  intros s a s' H. inversion H; subst; clear H. repeat split; simpl; auto.
  - reflexivity.
  - apply prefix_app_r. reflexivity.
  - exists []. rewrite app_nil_r. split; [reflexivity|constructor].
Qed.

Lemma new_closure_grows c : respects grows (Observer.new_closure c).
Proof.
  intros s a s' H. inversion H; subst; clear H. repeat split; simpl; auto.
  - reflexivity.
  - apply prefix_app_r. reflexivity.
  - exists []. rewrite app_nil_r. split; [reflexivity|constructor].
Qed.

(** replacing an object by one of the same shape *)
Lemma put_grows l o o' s :
  heap s !! l = Some o -> same_shape o o' ->
  grows s (set_heap (<[l := o']> (heap s)) s).
Proof.
  intros Hl Hs. repeat split; simpl; auto.
  - apply Forall2_same_length_lookup. split; [rewrite length_insert; reflexivity|].
    intros i x y Hx Hy. destruct (decide (i = l)) as [->|Hne].
    + rewrite list_lookup_insert_eq in Hy by (eapply lookup_lt_Some; eauto).
      congruence.
    + rewrite list_lookup_insert_ne in Hy by auto.
      assert (x = y) as -> by congruence. reflexivity.
  - exists []. rewrite app_nil_r. split; [reflexivity|constructor].
Qed.

Lemma put_inv l o s a s' :
  Obj.put l o s = Done a s' -> s' = set_heap (<[l := o]> (heap s)) s.
Proof. intros H. inversion H. reflexivity. Qed.

Lemma get_inv l s o s' :
  Obj.get l s = Done o s' -> s' = s /\ heap s !! l = Some o.
Proof.
  unfold Obj.get. destruct (heap s !! l); intros H; inversion H; auto.
Qed.

Lemma descriptor_own k o p :
  Obj.lookup_prop k (o_props o) = Some p ->
  Obj.getOwnPropertyDescriptor k o = Some p.
Proof. unfold Obj.getOwnPropertyDescriptor. intros ->. reflexivity. Qed.

Lemma lookup_store_eq k p ps : Obj.lookup_prop k (Obj.store_prop k p ps) = Some p.
Proof.
  induction ps as [|[k' p'] ps IH]; simpl.
  - rewrite String.eqb_refl. reflexivity.
  - destruct (String.eqb k k') eqn:He; simpl.
    + rewrite String.eqb_refl. reflexivity.
    + rewrite He. exact IH.
Qed.

Lemma lookup_store_ne k k' p ps :
  k' <> k -> Obj.lookup_prop k' (Obj.store_prop k p ps) = Obj.lookup_prop k' ps.
Proof.
  intros Hne. induction ps as [|[k0 p0] ps IH]; simpl.
  - destruct (String.eqb_spec k' k); [contradiction|reflexivity].
  - destruct (String.eqb_spec k k0) as [->|Hk]; simpl.
    + destruct (String.eqb_spec k' k0); [contradiction|reflexivity].
    + destruct (String.eqb k' k0); [reflexivity|exact IH].
Qed.

(** redefining a property that may be redefined, other than the marker *)
Lemma same_shape_store o k p :
  Obj.configurable p = true ->
  (Obj.marker o = None \/ k <> "__ob__"%string) ->
  same_shape o (Obj.with_props (Obj.store_prop k p (o_props o)) o).
Proof.
  intros Hc Hk. repeat split; simpl; auto.
  - intros ob Hm. unfold Obj.marker in *. simpl.
    destruct Hk as [Hk|Hk]; [congruence|].
    rewrite lookup_store_ne by auto. exact Hm.
  - intros k' p' H'. destruct (String.eqb_spec k' k) as [->|Hne].
    + exists p. rewrite lookup_store_eq. auto.
    + exists p'. rewrite lookup_store_ne by auto. auto.
Qed.

Lemma ownMutator_marker o : Obj.ownMutator "__ob__" o = false.
Proof. unfold Obj.ownMutator. exact (andb_false_r _). Qed.

Lemma defineProperty_inv l k p s a s' :
  Obj.defineProperty l k p s = Done a s' ->
  exists o, heap s !! l = Some o /\
    s' = set_heap (<[l := Obj.with_props (Obj.store_prop k p (o_props o)) o]>
                     (heap s)) s.
Proof.
  unfold Obj.defineProperty. intros H.
  apply bind_inv in H as (o & s0 & H1 & H2).
  apply get_inv in H1 as [-> Hl]. exists o. split; [exact Hl|].
  destruct (Obj.lookup_prop k (o_props o)) as [old|].
  - destruct (Obj.configurable old); [|discriminate].
    apply put_inv in H2. exact H2.
  - destruct (Obj.isArray o && String.eqb k "length"); [discriminate|].
    destruct (Obj.ownMutator k o); [discriminate|].
    destruct (o_extensible o); [|discriminate].
    apply put_inv in H2. exact H2.
Qed.

Lemma defineProperty_grows l k p :
  Obj.configurable p = true -> k <> "__ob__"%string ->
  respects grows (Obj.defineProperty l k p).
Proof.
  intros Hc Hk s a s' H. apply defineProperty_inv in H as (o & Hl & ->).
  eapply put_grows; [exact Hl|]. apply same_shape_store; auto.
Qed.

Lemma read_prop_dep_only E fuel l k : respects dep_only (Observer.read_prop E fuel l k).
Proof.
  unfold Observer.read_prop.
  apply respects_bind; [apply _|respects_read|].
  intros o. destruct (Obj.lookup_prop k (o_props o)) as [[v ? ? ?|ob|[g|] st ? ?]|].
  - respects_pure.
  - apply respects_unmodelled.
  - apply call_getter_dep_only.
  - respects_pure.
  - destruct (Obj.isArray o && String.eqb k "length");
      [respects_pure|].
    destruct (Obj.mem k (o_inherited o) || Obj.mem k Obj.objectPrototypeKeys
              || Obj.mutatorName k o);
      [apply respects_unmodelled|respects_pure].
Qed.

Section ObserveGrows.
Variable E : env.
Variable obs : value -> M (option nat).
Hypothesis obs_grows : forall v, respects grows (obs v).

Lemma defineReactive_grows fuel obj key args :
  key <> "__ob__"%string ->
  respects grows (Observer.defineReactive_with E obs fuel obj key args).
Proof.
  intros Hk. unfold Observer.defineReactive_with.
  apply respects_bind; [apply _|apply create_grows|]. intros dep.
  apply respects_bind; [apply _|respects_read|]. intros o.
  match goal with |- respects _ (if ?b then _ else _) => destruct b end;
    [respects_pure|].
  apply respects_bind; [apply _| |]. 
  { destruct args; [|respects_pure].
    match goal with |- respects _ (if ?b then _ else _) => destruct b end;
      [|respects_pure].
    eapply respects_weaken; [apply dep_only_grows|apply read_prop_dep_only]. }
  intros val. apply respects_bind; [apply _| |].
  { match goal with |- respects _ (if ?b then _ else _) => destruct b end;
      [respects_pure|apply obs_grows]. }
  intros childOb. apply respects_bind; [apply _|apply new_closure_grows|].
  intros c. apply defineProperty_grows; auto.
Qed.

Lemma walk_keys_grows fuel obj ks :
  ~ In "__ob__"%string ks ->
  respects grows
    (forEach (fun k => Observer.defineReactive_with E obs fuel obj k Observer.Args2) ks).
Proof.
  induction ks as [|k ks IH]; intros Hin; simpl.
  - respects_pure.
  - apply respects_bind; [apply _| |intros _; apply IH].
    + apply defineReactive_grows. intros ->. apply Hin. left. reflexivity.
    + intros H. apply Hin. right. exact H.
Qed.

Lemma observeArray_grows items :
  respects grows (Observer.observeArray_with obs items).
Proof.
  unfold Observer.observeArray_with. apply respects_forEach; [apply _|].
  intros e. apply respects_bind; [apply _|apply obs_grows|].
  intros _. respects_pure.
Qed.

End ObserveGrows.

Lemma marker_not_key o ob : Obj.marker o = Some ob -> ~ In "__ob__"%string (Obj.keys o).
Proof.
  unfold Obj.marker, Obj.keys. intros Hm Hin.
  apply filter_In in Hin as [_ Hin].
  destruct (Obj.lookup_prop "__ob__" (o_props o)) as [[| |]|]; try discriminate.
Qed.

Lemma augment_grows (hp : bool) l :
  respects grows (if hp then Observer.protoAugment l else Observer.copyAugment l).
Proof.
  assert (Hs1 : forall o, same_shape o (Obj.with_proto ProtoArrayMethods o)).
  { intros o. repeat split; auto. intros k p H. exists p. auto. }
  assert (Hs2 : forall o, same_shape o (Obj.with_ownMutators o)).
  { intros o. repeat split; auto. intros k p H. exists p. auto. }
  destruct hp; intros s a s' H; apply bind_inv in H as (o & s0 & H1 & H2);
    apply get_inv in H1 as [-> Hl]; apply put_inv in H2 as ->;
    eapply put_grows; eauto.
Qed.

(** [new Observer(value)] on an object that has no marker yet *)
Lemma construct_grows E obs fuel l s ob s' :
  (forall v, respects grows (obs v)) ->
  (forall o, heap s !! l = Some o -> Obj.marker o = None) ->
  Observer.construct_with E obs fuel l s = Done ob s' ->
  grows s s' /\ ob = length (observers s) /\
  exists o', heap s' !! l = Some o' /\ Obj.marker o' = Some ob.
Proof.
  intros Hobs Hnone H. unfold Observer.construct_with in H.
  apply bind_inv in H as (dep & s1 & H1 & H). 
  pose proof (create_grows _ _ _ H1) as G1.
  assert (Hh1 : heap s1 = heap s) by (inversion H1; reflexivity).
  assert (Ho1 : observers s1 = observers s) by (inversion H1; reflexivity).
  apply bind_inv in H as (ob' & s2 & H2 & H).
  pose proof (new_observer_grows _ _ _ _ _ H2) as G2.
  assert (Hh2 : heap s2 = heap s) by (inversion H2; subst; exact Hh1).
  assert (Hob : ob' = length (observers s)) by (inversion H2; congruence).
  apply bind_inv in H as ([] & s3 & H3 & H).
  unfold Obj.def_marker in H3.
  apply defineProperty_inv in H3 as (o & Hl & Hs3).
  rewrite Hh2 in Hl. pose proof (Hnone _ Hl) as Hm.
  assert (G3 : grows s2 s3).
  { subst s3. eapply put_grows; [rewrite Hh2; exact Hl|].
    apply same_shape_store; auto. }
  assert (Hl3 : exists o3, heap s3 !! l = Some o3 /\ Obj.marker o3 = Some ob').
  { subst s3. simpl. eexists. split.
    - apply list_lookup_insert_eq. rewrite Hh2. eapply lookup_lt_Some; eauto.
    - unfold Obj.marker. simpl. rewrite lookup_store_eq. reflexivity. }
  apply bind_inv in H as (o3 & s3' & H4 & H).
  apply get_inv in H4 as [-> Hl3'].
  destruct Hl3 as (o3' & Hl3 & Hm3).
  assert (o3' = o3) as -> by congruence.
  apply bind_inv in H as ([] & s4 & H5 & H).
  inversion H; subst ob s'; clear H.
  assert (G4 : grows s3 s4).
  { destruct (Obj.isArray o3).
    - apply bind_inv in H5 as ([] & s3a & Ha & Hb).
      etransitivity; [eapply augment_grows; exact Ha|].
      eapply observeArray_grows; eauto.
    - unfold Observer.walk_with in H5.
      apply bind_inv in H5 as (o3'' & s3a & Ha & Hb).
      apply get_inv in Ha as [-> Hl3''].
      assert (o3'' = o3) as -> by congruence.
      eapply walk_keys_grows; eauto. eapply marker_not_key; eauto. }
  split; [|split; [exact Hob|]].
  - etransitivity; [exact G1|]. etransitivity; [exact G2|].
    etransitivity; [exact G3|exact G4].
  - destruct G4 as (F & _).
    destruct (Forall2_lookup_l _ _ _ _ _ F Hl3) as (o4 & Hl4 & Hs4).
    exists o4. split; [exact Hl4|]. apply Hs4. exact Hm3.
Qed.

Lemma observe_grows E fuel v : respects grows (Observer.observe E fuel false v).
Proof.
  revert v. induction fuel as [|f IH]; intros v; simpl.
  - apply respects_out_of_fuel.
  - destruct v; try (respects_pure).
    intros s a s' H. apply bind_inv in H as (o & s0 & H1 & H).
    apply get_inv in H1 as [-> Hl].
    destruct (Obj.isVNode o); [inversion H; subst; reflexivity|].
    apply bind_inv in H as (s0 & s0' & H1 & H). inversion H1; subst s0 s0'.
    apply bind_inv in H as (ob & s1 & H2 & H).
    assert (G : grows s s1).
    { destruct (Obj.marker o) eqn:Hm.
      - inversion H2; subst. reflexivity.
      - match type of H2 with (if ?b then _ else _) _ = _ => destruct b end;
          [|inversion H2; subst; reflexivity].
        apply bind_inv in H2 as (ob' & s2 & H3 & H4). inversion H4; subst.
        eapply construct_grows in H3 as (G & _); [exact G|exact IH|].
        intros o' Hl'. congruence. }
    destruct ob; [|inversion H; subst; exact G].
    apply bind_inv in H as ([] & s2 & H3 & H4). inversion H3; subst.
    inversion H4; subst. exact G.
Qed.

Lemma after_root_heap r ob s : heap (after_root r ob s) = heap s.
Proof. destruct r; reflexivity. Qed.

(** C4: when [observe(c)] returns an Observer, a second call
    [observe(c)] returns the same one; the store is unchanged by the second
    call, but for [vmCount] when [asRootData] is set. *)
Theorem observe_idempotent (E : env) (fuel fuel' : nat) (r r' : bool)
    (v : value) (s s' : state) (ob : nat) :
  Observer.observe E fuel r v s = Done (Some ob) s' ->
  Observer.observe E (S fuel') r' v s' = Done (Some ob) (after_root r' ob s').
Proof.
  intros H. destruct fuel as [|f]; [discriminate|]. simpl in H.
  destruct v; try discriminate.
  apply bind_inv in H as (o & s0 & H1 & H).
  apply get_inv in H1 as [-> Hl].
  destruct (Obj.isVNode o) eqn:Hv; [discriminate|].
  apply bind_inv in H as (s0 & s0' & H1 & H). inversion H1; subst s0 s0'.
  apply bind_inv in H as (ob1 & s1 & H2 & H).
  assert (Hs' : ob1 = Some ob /\ heap s' = heap s1).
  { destruct ob1 as [i|]; [|discriminate].
    apply bind_inv in H as ([] & s2 & H3 & H4). inversion H4; subst.
    split; [reflexivity|]. destruct r; inversion H3; reflexivity. }
  destruct Hs' as [-> Hh]. clear H.
  assert (Hm : exists o1, heap s1 !! l = Some o1 /\ Obj.isVNode o1 = false /\
                          Obj.marker o1 = Some ob).
  { destruct (Obj.marker o) eqn:Hm.
    - inversion H2; subst. exists o. auto.
    - match type of H2 with (if ?b then _ else _) _ = _ => destruct b end;
        [|discriminate].
      apply bind_inv in H2 as (ob' & s2 & H3 & H4). inversion H4; subst.
      eapply construct_grows in H3 as (G & _ & o1 & Hl1 & Hm1).
      + exists o1. split; [exact Hl1|]. split; [|exact Hm1].
        destruct G as (F & _).
        destruct (Forall2_lookup_l _ _ _ _ _ F Hl) as (o1' & Hl1' & Hsh).
        assert (o1' = o1) as -> by congruence.
        destruct Hsh as (Hk & _). unfold Obj.isVNode in *. rewrite Hk. exact Hv.
      + intros v. apply observe_grows.
      + intros o' Hl'. congruence. }
  destruct Hm as (o1 & Hl1 & Hv1 & Hm1). rewrite <- Hh in Hl1.
  eapply observe_marked_eq; eauto.
Qed.

(** [observe(data, true)] twice on [{ a: 1, b: [] }] *)
Lemma observe_idempotent_witness :
  Observer.observe (plain_env false false) 3 true (VRef 0) fresh_data
  = Done (Some 0) observed_data /\
  Observer.observe (plain_env false false) 1 false (VRef 0) observed_data
  = Done (Some 0) observed_data.
Proof.
  assert (H : Observer.observe (plain_env false false) 3 true (VRef 0) fresh_data
              = Done (Some 0) observed_data) by (vm_compute; reflexivity).
  split; [exact H|].
  exact (observe_idempotent (plain_env false false) 3 0 true false (VRef 0)
           fresh_data observed_data 0 H).
Defined.

(** ** Computations that return *)

Lemma returns_ret {A} (a : A) s (Q : A -> state -> Prop) :
  Q a s -> returns (ret a) s Q.
Proof. intros H. exact H. Qed.

Lemma returns_bind {A B} (m : M A) (k : A -> M B) s Q :
  returns m s (fun a s' => returns (k a) s' Q) -> returns (bind m k) s Q.
Proof. unfold returns, bind. destruct (m s); auto. Qed.

Lemma returns_mono {A} (m : M A) s (Q Q' : A -> state -> Prop) :
  (forall a s', Q a s' -> Q' a s') -> returns m s Q -> returns m s Q'.
Proof. unfold returns. intros H. destruct (m s); auto. Qed.

Lemma returns_inv {A} (m : M A) s Q :
  returns m s Q -> exists a s', m s = Done a s' /\ Q a s'.
Proof. unfold returns. destruct (m s) as [a s'| | |]; try tauto. eauto. Qed.

Lemma returns_done {A} (m : M A) s a s' (Q : A -> state -> Prop) :
  m s = Done a s' -> Q a s' -> returns m s Q.
Proof. unfold returns. intros ->. auto. Qed.

Lemma returns_respects {A} R (m : M A) s Q :
  respects R m -> returns m s Q -> returns m s (fun a s' => Q a s' /\ R s s').
Proof.
  intros HR H. apply returns_inv in H as (a & s' & Hm & HQ).
  eapply returns_done; eauto.
Qed.

(** a loop that keeps an invariant *)
Lemma returns_forEach {A} (f : A -> M unit) (I : state -> Prop) l s :
  I s ->
  (forall x s0, In x l -> I s0 -> returns (f x) s0 (fun _ s1 => I s1)) ->
  returns (forEach f l) s (fun _ s' => I s').
Proof.
  revert s. induction l as [|x l IH]; intros s HI Hf; simpl.
  - exact HI.
  - apply returns_bind. eapply returns_mono; [|apply Hf; [left; reflexivity|exact HI]].
    intros [] s' HI'. apply IH; [exact HI'|].
    intros y s0 Hy. apply Hf. right. exact Hy.
Qed.

Lemma returns_get l o s (Q : jsobj -> state -> Prop) :
  heap s !! l = Some o -> Q o s -> returns (Obj.get l) s Q.
Proof. intros Hl HQ. eapply returns_done; [apply get_eq; exact Hl|exact HQ]. Qed.

(** ** Well-formed stores *)

Lemma forallb_lookup {A} (f : A -> bool) (l : list A) i x :
  forallb f l = true -> l !! i = Some x -> f x = true.
Proof.
  intros H Hi. rewrite forallb_forall in H. apply H.
  apply list_elem_of_In. eapply list_elem_of_lookup_2. exact Hi.
Qed.

Lemma wfb_ext E D s s' :
  heap s' = heap s -> observers s' = observers s -> closures s' = closures s ->
  Wf.wfb E D s' = Wf.wfb E D s.
Proof. unfold Wf.wfb. intros -> -> ->. reflexivity. Qed.

Lemma dep_only_wf E D s s' : dep_only s s' -> Wf.wf E D s -> Wf.wf E D s'.
Proof.
  intros (D0 & t & -> & _) H. unfold Wf.wf. erewrite wfb_ext; eauto.
Qed.

Lemma wf_parts E D s :
  Wf.wf E D s ->
  forallb (Wf.obj_ok E (length (heap s)) (length (observers s))
                     (length (closures s))) (heap s) = true /\
  forallb (Wf.closure_ok (length (heap s)) (length (observers s)))
          (closures s) = true /\
  forallb (Wf.observer_ok (length (heap s))) (observers s) = true /\
  forallb (Wf.nest_ok D (heap s)) (seq 0 (length (heap s))) = true.
Proof.
  unfold Wf.wf, Wf.wfb. intros H.
  repeat (apply andb_prop in H as [H ?]). auto.
Qed.

Lemma wf_obj E D s l o :
  Wf.wf E D s -> heap s !! l = Some o ->
  Wf.obj_ok E (length (heap s)) (length (observers s)) (length (closures s)) o
  = true.
Proof. intros H Hl. apply wf_parts in H as (H & _). eapply forallb_lookup; eauto. Qed.

Lemma wf_closure E D s c cl :
  Wf.wf E D s -> closures s !! c = Some cl ->
  Wf.closure_ok (length (heap s)) (length (observers s)) cl = true.
Proof.
  intros H Hl. apply wf_parts in H as (_ & H & _). eapply forallb_lookup; eauto.
Qed.

Lemma wf_nest E D s l :
  Wf.wf E D s -> l < length (heap s) -> Wf.nest_ok D (heap s) l = true.
Proof.
  intros H Hl. apply wf_parts in H as (_ & _ & _ & H).
  rewrite forallb_forall in H. apply H. apply in_seq. lia.
Qed.

Lemma lookup_prop_In k p ps : Obj.lookup_prop k ps = Some p -> In (k, p) ps.
Proof.
  induction ps as [|[k' p'] ps IH]; simpl; [discriminate|].
  destruct (String.eqb_spec k k') as [->|_].
  - intros H. inversion H; subst. left. reflexivity.
  - intros H. right. apply IH. exact H.
Qed.

Lemma obj_ok_parts E nh no nc o :
  Wf.obj_ok E nh no nc o = true <->
  forallb (fun e => Wf.val_ok nh (default VUndef e)) (o_elems o) = true /\
  forallb (Wf.prop_ok E nh no nc) (o_props o) = true /\
  Obj.mem "__ob__" (o_inherited o) = false.
Proof.
  unfold Wf.obj_ok. rewrite !andb_true_iff, negb_true_iff. tauto.
Qed.

Lemma obj_ok_prop E nh no nc o k p :
  Wf.obj_ok E nh no nc o = true -> Obj.lookup_prop k (o_props o) = Some p ->
  Wf.prop_ok E nh no nc (k, p) = true.
Proof.
  intros H Hk. apply obj_ok_parts in H as (_ & H & _).
  rewrite forallb_forall in H. apply H. apply lookup_prop_In. exact Hk.
Qed.

Lemma obj_ok_elem E nh no nc o i e :
  Wf.obj_ok E nh no nc o = true -> o_elems o !! i = Some e ->
  Wf.val_ok nh (default VUndef e) = true.
Proof.
  intros H Hk. apply obj_ok_parts in H as (H & _ & _).
  eapply forallb_lookup in H; eauto.
Qed.

(** under [__ob__] there is the marker or nothing *)
Lemma obj_ok_read_ob E nh no nc o :
  Wf.obj_ok E nh no nc o = true ->
  (Obj.lookup_prop "__ob__" (o_props o) = None /\ Obj.marker o = None /\
   Obj.read_ob o = Obj.ObFalsy) \/
  (exists ob, Obj.lookup_prop "__ob__" (o_props o) = Some (PMarker ob) /\
              Obj.marker o = Some ob /\ Obj.read_ob o = Obj.ObObserver ob /\
              ob < no).
Proof.
  intros H. pose proof (proj1 (obj_ok_parts _ _ _ _ _) H) as (_ & _ & Hinh).
  unfold Obj.marker, Obj.read_ob. rewrite Hinh.
  destruct (Obj.lookup_prop "__ob__" (o_props o)) as [p|] eqn:Hk; [|left; auto].
  pose proof (obj_ok_prop _ _ _ _ _ _ _ H Hk) as Hp. unfold Wf.prop_ok in Hp.
  simpl in Hp. destruct p as [v ? ? ?|ob|g st ? ?].
  - rewrite andb_false_r in Hp. discriminate.
  - right. exists ob. apply andb_prop in Hp as [Hp _].
    apply Nat.ltb_lt in Hp. auto.
  - rewrite andb_false_r in Hp. discriminate.
Qed.

Lemma val_ok_lookup nh (h : list jsobj) l :
  length h = nh -> Wf.val_ok nh (VRef l) = true -> exists o, h !! l = Some o.
Proof.
  intros <- H. simpl in H. apply Nat.ltb_lt in H.
  apply lookup_lt_is_Some_2 in H. destruct H as [o Ho]. eauto.
Qed.

Lemma depend_returns E d s : returns (Dep.depend E d) s (fun _ s' => dep_only s s').
Proof.
  eapply returns_done; [apply depend_eq|].
  eapply depend_dep_only. apply depend_eq.
Qed.

Lemma returns_get_observer ob s (Q : observer -> state -> Prop) :
  ob < length (observers s) ->
  (forall x, observers s !! ob = Some x -> Q x s) ->
  returns (Observer.get_observer ob) s Q.
Proof.
  intros Hlt HQ. apply lookup_lt_is_Some_2 in Hlt as [x Hx].
  eapply returns_done; [unfold Observer.get_observer; rewrite Hx; reflexivity|].
  apply HQ. exact Hx.
Qed.

Lemma returns_get_closure c s (Q : closure -> state -> Prop) :
  c < length (closures s) ->
  (forall x, closures s !! c = Some x -> Q x s) ->
  returns (Observer.get_closure c) s Q.
Proof.
  intros Hlt HQ. apply lookup_lt_is_Some_2 in Hlt as [x Hx].
  eapply returns_done; [unfold Observer.get_closure; rewrite Hx; reflexivity|].
  apply HQ. exact Hx.
Qed.

Section Collect.
Variable E : env.
Variable D : nat.

Lemma depend_on_ob_returns s l o :
  Wf.wf E D s -> heap s !! l = Some o ->
  returns (Observer.depend_on_ob E o) s (fun _ s' => dep_only s s').
Proof.
  intros Hwf Hl. unfold Observer.depend_on_ob.
  destruct (obj_ok_read_ob _ _ _ _ _ (wf_obj _ _ _ _ _ Hwf Hl))
    as [(_ & _ & ->)|(ob & _ & _ & -> & Hlt)].
  - apply returns_ret. reflexivity.
  - apply returns_bind. apply returns_get_observer; [exact Hlt|].
    intros x _. apply depend_returns.
Qed.

Lemma dependArray_returns d : forall fuel l s o,
  Wf.wf E D s -> heap s !! l = Some o ->
  Wf.nest_ok d (heap s) l = true -> d <= fuel ->
  returns (Observer.dependArray E fuel l) s (fun _ s' => dep_only s s').
Proof.
  induction d as [|d IH]; intros fuel l s o Hwf Hl Hn Hle; [discriminate|].
  destruct fuel as [|f]; [lia|]. simpl.
  apply returns_bind. eapply returns_get; [exact Hl|].
  simpl in Hn. rewrite Hl in Hn. rewrite forallb_forall in Hn.
  pose proof (wf_obj _ _ _ _ _ Hwf Hl) as Hok.
  apply obj_ok_parts in Hok as (Hel & _ & _).
  rewrite forallb_forall in Hel.
  apply returns_forEach with (I := fun s' => dep_only s s'); [reflexivity|].
  intros e s0 He Hd0.
  assert (Hh0 : heap s0 = heap s) by (destruct Hd0 as (? & ? & -> & _); reflexivity).
  pose proof (dep_only_wf _ _ _ _ Hd0 Hwf) as Hwf0.
  specialize (Hn _ He). specialize (Hel _ He).
  destruct e as [[| | | | | | |l']|]; try (apply returns_ret; exact Hd0).
  simpl in Hel.
  destruct (val_ok_lookup _ (heap s) l' eq_refl Hel) as [o' Hl'].
  rewrite Hl' in Hn. rewrite <- Hh0 in Hl'.
  apply returns_bind. eapply returns_get; [exact Hl'|].
  apply returns_bind.
  eapply returns_mono; [|eapply depend_on_ob_returns; eauto].
  intros [] s1 Hd1. simpl.
  assert (Hd01 : dep_only s s1) by (etransitivity; eauto).
  destruct (Obj.isArray o'); [|apply returns_ret; exact Hd01].
  assert (Hh1 : heap s1 = heap s0) by (destruct Hd1 as (? & ? & -> & _); reflexivity).
  eapply returns_mono; [|eapply (IH f l' s1 o')].
  - intros [] s2 Hd2. simpl. etransitivity; eauto.
  - eapply dep_only_wf; eauto.
  - rewrite Hh1. exact Hl'.
  - rewrite Hh1, Hh0. exact Hn.
  - lia.
Qed.

Lemma collect_returns fuel c v s :
  Wf.wf E D s -> c < length (closures s) ->
  Wf.val_ok (length (heap s)) v = true -> D <= fuel ->
  returns (Observer.collect E fuel c v) s (fun _ s' => dep_only s s').
Proof.
  intros Hwf Hc Hv Hle. unfold Observer.collect.
  apply returns_bind. unfold get_state, returns.
  destruct (target s); [|apply returns_ret; reflexivity].
  apply returns_bind. apply returns_get_closure; [exact Hc|]. intros cl Hcl.
  apply returns_bind. eapply returns_mono; [|apply depend_returns].
  intros [] s1 Hd1. simpl.
  destruct (c_childOb cl) as [ob|] eqn:Hch; [|apply returns_ret; exact Hd1].
  pose proof (wf_closure _ _ _ _ _ Hwf Hcl) as Hok. unfold Wf.closure_ok in Hok.
  rewrite Hch in Hok. apply andb_prop in Hok as [_ Hob]. apply Nat.ltb_lt in Hob.
  assert (Ho1 : observers s1 = observers s)
    by (destruct Hd1 as (? & ? & -> & _); reflexivity).
  assert (Hh1 : heap s1 = heap s)
    by (destruct Hd1 as (? & ? & -> & _); reflexivity).
  apply returns_bind. apply returns_get_observer; [rewrite Ho1; exact Hob|].
  intros x _. apply returns_bind. eapply returns_mono; [|apply depend_returns].
  intros [] s2 Hd2. simpl.
  assert (Hd02 : dep_only s s2) by (etransitivity; eauto).
  assert (Hh2 : heap s2 = heap s)
    by (destruct Hd02 as (? & ? & -> & _); reflexivity).
  destruct v as [| | | | | | |l]; try (apply returns_ret; exact Hd02).
  destruct (val_ok_lookup _ (heap s) l eq_refl Hv) as [o Hl].
  apply returns_bind. eapply returns_get; [rewrite Hh2; exact Hl|].
  destruct (Obj.isArray o); [|apply returns_ret; exact Hd02].
  eapply returns_mono; [|eapply (dependArray_returns D fuel l s2 o)].
  - intros [] s3 Hd3. simpl. etransitivity; eauto.
  - eapply dep_only_wf; eauto.
  - rewrite Hh2. exact Hl.
  - rewrite Hh2. eapply wf_nest; eauto. eapply lookup_lt_Some; eauto.
  - exact Hle.
Qed.

Lemma call_getter_returns fuel g : forall s,
  Wf.wf E D s ->
  Wf.getter_ok E (length (heap s)) (length (closures s)) g = true ->
  D <= fuel ->
  returns (Observer.call_getter E fuel g) s
          (fun v s' => dep_only s s' /\ Wf.val_ok (length (heap s)) v = true).
Proof.
  induction g as [f|c|c g IH] using getter_ind'; intros s Hwf Hg Hle; simpl.
  - apply returns_ret. split; [reflexivity|exact Hg].
  - simpl in Hg. rewrite andb_true_r in Hg. apply Nat.ltb_lt in Hg.
    apply returns_bind. apply returns_bind.
    apply returns_get_closure; [exact Hg|]. intros cl Hcl.
    apply returns_ret.
    pose proof (wf_closure _ _ _ _ _ Hwf Hcl) as Hok. unfold Wf.closure_ok in Hok.
    apply andb_prop in Hok as [Hv _].
    apply returns_bind. eapply returns_mono; [|apply collect_returns; eauto].
    intros [] s1 Hd1. simpl. apply returns_ret. split; assumption.
  - simpl in Hg. apply andb_prop in Hg as [Hc Hg]. apply Nat.ltb_lt in Hc.
    apply returns_bind. eapply returns_mono; [|apply IH; eauto].
    intros v s1 [Hd1 Hv]. simpl.
    assert (Hh1 : heap s1 = heap s)
      by (destruct Hd1 as (? & ? & -> & _); reflexivity).
    assert (Hc1 : closures s1 = closures s)
      by (destruct Hd1 as (? & ? & -> & _); reflexivity).
    apply returns_bind. eapply returns_mono; [|apply collect_returns].
    + intros [] s2 Hd2. simpl. apply returns_ret.
      split; [etransitivity; eauto|exact Hv].
    + eapply dep_only_wf; eauto.
    + rewrite Hc1. exact Hc.
    + rewrite Hh1. exact Hv.
    + exact Hle.
Qed.

End Collect.

(** ** Well-formedness is kept *)

Lemma setter_ind' (P : setter -> Prop) :
  (forall f, P (SNative f)) ->
  (forall c g, P (SReactive c g None)) ->
  (forall c g st, P st -> P (SReactive c g (Some st))) ->
  forall st, P st.
Proof.
  intros H1 H2 H3. fix IH 1. intros [f|c g [st|]].
  - apply H1.
  - apply H3. apply IH.
  - apply H2.
Qed.

Section Mono.
Variable E : env.
Variables nh no nc no' nc' : nat.
Hypothesis Hno : no <= no'.
Hypothesis Hnc : nc <= nc'.

Lemma getter_ok_mono g :
  Wf.getter_ok E nh nc g = true -> Wf.getter_ok E nh nc' g = true.
Proof.
  induction g as [f|c|c g IH] using getter_ind'; simpl; auto.
  - rewrite !andb_true_r, !Nat.ltb_lt. lia.
  - intros H. apply andb_prop in H as [H1 H2]. apply andb_true_intro.
    split; [|auto]. apply Nat.ltb_lt. apply Nat.ltb_lt in H1. lia.
Qed.

Lemma opt_getter_ok_mono (g : option getter) :
  match g with Some g' => Wf.getter_ok E nh nc g' | None => true end = true ->
  match g with Some g' => Wf.getter_ok E nh nc' g' | None => true end = true.
Proof. destruct g; [apply getter_ok_mono|auto]. Qed.

Lemma setter_ok_mono st :
  Wf.setter_ok E nh nc st = true -> Wf.setter_ok E nh nc' st = true.
Proof.
  induction st as [f|c g|c g st IH] using setter_ind'; simpl; auto.
  - intros H. apply andb_prop in H as [H _]. apply andb_prop in H as [H1 H2].
    rewrite andb_true_r. apply andb_true_intro. split.
    + apply Nat.ltb_lt. apply Nat.ltb_lt in H1. lia.
    + apply opt_getter_ok_mono. exact H2.
  - intros H. apply andb_prop in H as [H H3]. apply andb_prop in H as [H1 H2].
    apply andb_true_intro. split; [apply andb_true_intro; split|auto].
    + apply Nat.ltb_lt. apply Nat.ltb_lt in H1. lia.
    + apply opt_getter_ok_mono. exact H2.
Qed.

Lemma opt_setter_ok_mono (st : option setter) :
  match st with Some s' => Wf.setter_ok E nh nc s' | None => true end = true ->
  match st with Some s' => Wf.setter_ok E nh nc' s' | None => true end = true.
Proof. destruct st; [apply setter_ok_mono|auto]. Qed.

Lemma prop_ok_mono kp :
  Wf.prop_ok E nh no nc kp = true -> Wf.prop_ok E nh no' nc' kp = true.
Proof.
  unfold Wf.prop_ok. destruct (snd kp) as [v ? ? ?|ob|g st ? ?]; auto.
  - intros H. apply andb_prop in H as [H1 H2]. apply andb_true_intro.
    split; [|exact H2]. apply Nat.ltb_lt. apply Nat.ltb_lt in H1. lia.
  - intros H. apply andb_prop in H as [H H3]. apply andb_prop in H as [H1 H2].
    rewrite opt_getter_ok_mono, opt_setter_ok_mono by assumption. exact H3.
Qed.

Lemma obj_ok_mono o :
  Wf.obj_ok E nh no nc o = true -> Wf.obj_ok E nh no' nc' o = true.
Proof.
  rewrite !obj_ok_parts. intros (H1 & H2 & H3).
  split; [exact H1|]. split; [|exact H3]. rewrite forallb_forall in *.
  intros kp Hin. apply prop_ok_mono. apply H2. exact Hin.
Qed.

Lemma closure_ok_mono cl :
  Wf.closure_ok nh no cl = true -> Wf.closure_ok nh no' cl = true.
Proof.
  unfold Wf.closure_ok. intros H. apply andb_prop in H as [H1 H2].
  rewrite H1. simpl. destruct (c_childOb cl); auto.
  apply Nat.ltb_lt. apply Nat.ltb_lt in H2. lia.
Qed.

End Mono.

Lemma forallb_mono {A} (f g : A -> bool) l :
  (forall x, f x = true -> g x = true) -> forallb f l = true -> forallb g l = true.
Proof.
  intros H. rewrite !forallb_forall. intros Hf x Hx. apply H, Hf, Hx.
Qed.

Lemma forallb_insert {A} (f : A -> bool) l i x :
  forallb f l = true -> f x = true -> forallb f (<[i := x]> l) = true.
Proof.
  revert i. induction l as [|y l IH]; intros i; simpl; [auto|].
  intros H Hx. apply andb_prop in H as [H1 H2].
  destruct i; simpl; [rewrite Hx, H2|rewrite H1, IH]; auto.
Qed.

Lemma forallb_eq {A} (f g : A -> bool) l :
  (forall x, In x l -> f x = g x) -> forallb f l = forallb g l.
Proof.
  induction l as [|x l IH]; intros H; simpl; [reflexivity|].
  rewrite H by (left; reflexivity). rewrite IH; [reflexivity|].
  intros y Hy. apply H. right. exact Hy.
Qed.

Lemma same_shape_isArray o o' : same_shape o o' -> Obj.isArray o' = Obj.isArray o.
Proof. intros (Hk & _). unfold Obj.isArray. rewrite Hk. reflexivity. Qed.

Lemma nest_ok_shape d h h' :
  Forall2 same_shape h h' -> forall l, Wf.nest_ok d h' l = Wf.nest_ok d h l.
Proof.
  intros F. induction d as [|d IH]; intros l; simpl; [reflexivity|].
  destruct (h !! l) as [o|] eqn:Hl.
  - destruct (Forall2_lookup_l _ _ _ _ _ F Hl) as (o' & Hl' & Hs).
    rewrite Hl'. destruct Hs as (_ & _ & _ & _ & He & _). rewrite He.
    apply forallb_eq. intros e _. destruct e as [[| | | | | | |l']|]; auto.
    destruct (h !! l') as [o1|] eqn:Hl1.
    + destruct (Forall2_lookup_l _ _ _ _ _ F Hl1) as (o1' & Hl1' & Hs1).
      rewrite Hl1'. rewrite (same_shape_isArray _ _ Hs1), IH. reflexivity.
    + apply lookup_ge_None in Hl1. rewrite (Forall2_length _ _ _ F) in Hl1.
      apply lookup_ge_None in Hl1. rewrite Hl1. reflexivity.
  - apply lookup_ge_None in Hl. rewrite (Forall2_length _ _ _ F) in Hl.
    apply lookup_ge_None in Hl. rewrite Hl. reflexivity.
Qed.

Lemma grows_wf_nest D s s' :
  Forall2 same_shape (heap s) (heap s') ->
  forallb (Wf.nest_ok D (heap s)) (seq 0 (length (heap s))) = true ->
  forallb (Wf.nest_ok D (heap s')) (seq 0 (length (heap s'))) = true.
Proof.
  intros F H. rewrite <- (Forall2_length _ _ _ F).
  erewrite forallb_eq; [exact H|]. intros l _. apply nest_ok_shape. exact F.
Qed.

Lemma wf_create E D s a s' : Dep.create s = Done a s' -> Wf.wf E D s -> Wf.wf E D s'.
Proof.
  intros H. inversion H; subst. unfold Wf.wf. erewrite wfb_ext; eauto.
Qed.

Lemma wf_new_observer E D l d s a s' :
  Observer.new_observer l d s = Done a s' -> l < length (heap s) ->
  Wf.wf E D s -> Wf.wf E D s'.
Proof.
  intros H Hl Hwf. inversion H; subst; clear H.
  apply wf_parts in Hwf as (H1 & H2 & H3 & H4).
  unfold Wf.wf, Wf.wfb. simpl. rewrite length_app. simpl.
  rewrite forallb_app. simpl. rewrite H3, H4.
  unfold Wf.observer_ok at 1. simpl. apply Nat.ltb_lt in Hl. rewrite Hl.
  rewrite (forallb_mono _ _ _
    (obj_ok_mono E (length (heap s)) (length (observers s))
       (length (closures s)) (length (observers s) + 1) (length (closures s))
       ltac:(lia) ltac:(lia)) H1).
  rewrite (forallb_mono _ _ _
    (closure_ok_mono (length (heap s)) (length (observers s)) 0
       (length (observers s) + 1) 0 ltac:(lia) ltac:(lia)) H2).
  reflexivity.
Qed.

Lemma wf_new_closure E D cl s a s' :
  Observer.new_closure cl s = Done a s' ->
  Wf.closure_ok (length (heap s)) (length (observers s)) cl = true ->
  Wf.wf E D s -> Wf.wf E D s'.
Proof.
  intros H Hcl Hwf. inversion H; subst; clear H.
  apply wf_parts in Hwf as (H1 & H2 & H3 & H4).
  unfold Wf.wf, Wf.wfb. simpl. rewrite length_app. simpl.
  rewrite forallb_app. simpl. rewrite H2, H3, H4, Hcl.
  rewrite (forallb_mono _ _ _
    (obj_ok_mono E (length (heap s)) (length (observers s))
       (length (closures s)) (length (observers s)) (length (closures s) + 1)
       ltac:(lia) ltac:(lia)) H1).
  reflexivity.
Qed.

Lemma wf_put E D s l o o' :
  Wf.wf E D s -> heap s !! l = Some o -> same_shape o o' ->
  Wf.obj_ok E (length (heap s)) (length (observers s)) (length (closures s)) o'
  = true ->
  Wf.wf E D (set_heap (<[l := o']> (heap s)) s).
Proof.
  intros Hwf Hl Hs Hok.
  pose proof (put_grows l o o' s Hl Hs) as (F & _).
  apply wf_parts in Hwf as (H1 & H2 & H3 & H4).
  unfold Wf.wf, Wf.wfb.
  rewrite (grows_wf_nest D _ _ F H4). simpl. rewrite length_insert.
  rewrite forallb_insert, H2, H3 by assumption. reflexivity.
Qed.

Lemma store_prop_ok E nh no nc k p ps :
  forallb (Wf.prop_ok E nh no nc) ps = true ->
  Wf.prop_ok E nh no nc (k, p) = true ->
  forallb (Wf.prop_ok E nh no nc) (Obj.store_prop k p ps) = true.
Proof.
  intros H Hp. induction ps as [|[k' p'] ps IH]; simpl in *.
  - rewrite Hp. reflexivity.
  - apply andb_prop in H as [H1 H2].
    destruct (String.eqb k k'); simpl; [rewrite Hp, H2|rewrite H1, IH]; auto.
Qed.

Lemma obj_ok_store E nh no nc o k p :
  Wf.obj_ok E nh no nc o = true ->
  Wf.prop_ok E nh no nc (k, p) = true ->
  Wf.obj_ok E nh no nc (Obj.with_props (Obj.store_prop k p (o_props o)) o) = true.
Proof.
  rewrite !obj_ok_parts. simpl. intros (H1 & H2 & H3) Hp.
  rewrite store_prop_ok by assumption. auto.
Qed.

Lemma unmarked_shape h h' :
  Forall2 same_shape h h' -> Wf.unmarked h' <= Wf.unmarked h.
Proof.
  unfold Wf.unmarked. induction 1 as [|o o' h h' Hs _ IH]; simpl; [lia|].
  destruct Hs as (_ & _ & _ & _ & _ & Hm & _).
  assert (Hu : Wf.is_unmarked o' = true -> Wf.is_unmarked o = true).
  { unfold Wf.is_unmarked.
    destruct (Obj.marker o) as [ob|]; [rewrite (Hm ob eq_refl)|]; auto. }
  destruct (Wf.is_unmarked o') eqn:H1;
    [rewrite Hu by auto|destruct (Wf.is_unmarked o)]; simpl; lia.
Qed.

Lemma unmarked_insert h l o o' ob :
  h !! l = Some o -> Obj.marker o = None -> Obj.marker o' = Some ob ->
  Wf.unmarked (<[l := o']> h) + 1 = Wf.unmarked h.
Proof.
  unfold Wf.unmarked. revert l. induction h as [|x h IH]; intros l Hl Hm Hm'.
  - discriminate.
  - destruct l as [|l]; simpl in *.
    + inversion Hl; subst. unfold Wf.is_unmarked. rewrite Hm, Hm'. simpl. lia.
    + destruct (Wf.is_unmarked x); simpl; rewrite <- (IH l Hl Hm Hm'); lia.
Qed.

Lemma grows_unmarked s s' :
  grows s s' -> Wf.unmarked (heap s') <= Wf.unmarked (heap s).
Proof. intros (F & _). apply unmarked_shape. exact F. Qed.

Lemma grows_length s s' : grows s s' -> length (heap s') = length (heap s).
Proof. intros (F & _). symmetry. eapply Forall2_length. exact F. Qed.

Lemma grows_lookup s s' l o :
  grows s s' -> heap s !! l = Some o ->
  exists o', heap s' !! l = Some o' /\ same_shape o o'.
Proof. intros (F & _) Hl. eapply Forall2_lookup_l; eauto. Qed.

Section ReadProp.
Variable E : env.
Variable D : nat.

Lemma read_prop_returns fuel l k s o p :
  Wf.wf E D s -> heap s !! l = Some o ->
  Obj.lookup_prop k (o_props o) = Some p -> k <> "__ob__"%string ->
  D <= fuel ->
  returns (Observer.read_prop E fuel l k) s
          (fun v s' => dep_only s s' /\ Wf.val_ok (length (heap s)) v = true).
Proof.
  intros Hwf Hl Hk Hne Hle. unfold Observer.read_prop.
  apply returns_bind. eapply returns_get; [exact Hl|]. rewrite Hk.
  pose proof (obj_ok_prop _ _ _ _ _ _ _ (wf_obj _ _ _ _ _ Hwf Hl) Hk) as Hp.
  unfold Wf.prop_ok in Hp. simpl in Hp.
  destruct p as [v ? ? ?|ob|[g|] st ? ?].
  - apply andb_prop in Hp as [Hv _]. apply returns_ret.
    split; [reflexivity|exact Hv].
  - apply andb_prop in Hp as [_ Hp]. apply String.eqb_eq in Hp. contradiction.
  - apply andb_prop in Hp as [Hp _]. apply andb_prop in Hp as [Hg _].
    eapply call_getter_returns; eauto.
  - apply returns_ret. split; reflexivity.
Qed.

End ReadProp.

(** ** observe returns *)

Lemma prop_ok_accessors E nh no nc k p :
  Wf.prop_ok E nh no nc (k, p) = true ->
  match Obj.prop_get p with Some g => Wf.getter_ok E nh nc g | None => true end
  = true /\
  match Obj.prop_set p with Some st => Wf.setter_ok E nh nc st | None => true end
  = true.
Proof.
  unfold Wf.prop_ok. simpl. destruct p as [v ? ? ?|ob|g st ? ?]; simpl; auto.
  intros H. apply andb_prop in H as [H _]. apply andb_prop in H as [H1 H2]. auto.
Qed.

Lemma reactive_prop_ok E nh no nc k c g st :
  k <> "__ob__"%string -> c < nc ->
  match g with Some g' => Wf.getter_ok E nh nc g' | None => true end = true ->
  match st with Some s' => Wf.setter_ok E nh nc s' | None => true end = true ->
  Wf.prop_ok E nh no nc
    (k, PAccessor (Some (GReactive c g)) (Some (SReactive c g st)) true true)
  = true.
Proof.
  intros Hk Hc Hg Hs. unfold Wf.prop_ok. simpl.
  apply Nat.ltb_lt in Hc. rewrite Hc, Hg, Hs. simpl.
  destruct (String.eqb_spec k "__ob__"); [contradiction|reflexivity].
Qed.

Lemma defineProperty_returns E D l k p s o old :
  Wf.wf E D s -> heap s !! l = Some o ->
  Obj.lookup_prop k (o_props o) = Some old -> Obj.configurable old = true ->
  Obj.configurable p = true -> k <> "__ob__"%string ->
  Wf.prop_ok E (length (heap s)) (length (observers s)) (length (closures s))
             (k, p) = true ->
  returns (Obj.defineProperty l k p) s (fun _ s' => Wf.wf E D s').
Proof.
  intros Hwf Hl Hk Hc Hcp Hne Hp. unfold Obj.defineProperty.
  apply returns_bind. eapply returns_get; [exact Hl|]. rewrite Hk, Hc.
  eapply returns_done; [reflexivity|].
  eapply wf_put; eauto.
  - apply same_shape_store; auto.
  - apply obj_ok_store; [eapply wf_obj; eauto|exact Hp].
Qed.

Lemma grows_closures_length s s' :
  grows s s' -> length (closures s) <= length (closures s').
Proof. intros (_ & _ & H & _). apply prefix_length. exact H. Qed.

Lemma grows_observers_length s s' :
  grows s s' -> length (observers s) <= length (observers s').
Proof. intros (_ & H & _). apply prefix_length. exact H. Qed.

Section ObserveReturns.
Variable E : env.
Variables D f : nat.
Variable obs : value -> M (option nat).

Hypothesis obs_grows : forall v, respects grows (obs v).
Hypothesis obs_returns : forall v s,
  Wf.wf E D s -> Wf.val_ok (length (heap s)) v = true ->
  Wf.unmarked (heap s) + D < f ->
  returns (obs v) s (obs_post E D s).

Lemma defineReactive_wf fuel obj key s o p :
  Wf.wf E D s -> heap s !! obj = Some o ->
  Obj.lookup_prop key (o_props o) = Some p -> key <> "__ob__"%string ->
  Wf.unmarked (heap s) + D < f -> D <= fuel ->
  returns (Observer.defineReactive_with E obs fuel obj key Observer.Args2) s
          (fun _ s' => Wf.wf E D s').
Proof.
  intros Hwf Hl Hk Hne Hu Hle. unfold Observer.defineReactive_with.
  apply returns_bind. eapply returns_done; [reflexivity|].
  set (s1 := set_deps (deps s ++ [[]]) s).
  assert (Hwf1 : Wf.wf E D s1) by (eapply wf_create; [reflexivity|exact Hwf]).
  apply returns_bind. eapply returns_get; [exact Hl|].
  rewrite (descriptor_own _ _ _ Hk).
  destruct (Obj.configurable p) eqn:Hc; simpl; [|exact Hwf1].
  pose proof (obj_ok_prop _ _ _ _ _ _ _ (wf_obj _ _ _ _ _ Hwf Hl) Hk) as Hp.
  apply returns_bind.
  apply returns_mono with
    (Q := fun v s2 => dep_only s1 s2 /\ Wf.val_ok (length (heap s)) v = true).
  2:{ match goal with |- returns (if ?b then _ else _) _ _ => destruct b end.
      - eapply (read_prop_returns E D fuel obj key s1 o p); eauto.
      - apply returns_ret. split; reflexivity. }
  intros v s2 [Hd2 Hv].
  assert (Hh2 : heap s2 = heap s)
    by (destruct Hd2 as (? & ? & -> & _); reflexivity).
  assert (Hc2 : closures s2 = closures s)
    by (destruct Hd2 as (? & ? & -> & _); reflexivity).
  pose proof (dep_only_wf _ _ _ _ Hd2 Hwf1) as Hwf2.
  apply returns_bind.
  eapply returns_mono; [|apply obs_returns; [exact Hwf2|rewrite Hh2; exact Hv|rewrite Hh2; exact Hu]].
  intros childOb s3 (Hwf3 & G3 & Hch).
  apply returns_bind. eapply returns_done; [reflexivity|].
  set (cl := Closure obj (length (deps s)) v childOb false false).
  set (s4 := set_closures (closures s3 ++ [cl]) s3).
  assert (G13 : grows s s3).
  { etransitivity; [apply (create_grows s (length (deps s)) s1 eq_refl)|].
    etransitivity; [apply dep_only_grows; exact Hd2|exact G3]. }
  assert (Hwf4 : Wf.wf E D s4).
  { eapply wf_new_closure; [reflexivity| |exact Hwf3].
    unfold Wf.closure_ok. simpl. rewrite (grows_length _ _ G13), Hv. simpl.
    destruct childOb as [ob|]; [|reflexivity].
    apply Nat.ltb_lt. apply Hch. reflexivity. }
  destruct (grows_lookup _ _ _ _ G13 Hl) as (o3 & Hl3 & Hs3).
  destruct Hs3 as (_ & _ & _ & _ & _ & _ & Hnames).
  destruct (Hnames _ _ Hk) as (p3 & Hk3 & Hc3).
  eapply (defineProperty_returns E D obj key _ s4 o3 p3); auto.
  unfold s4. simpl. rewrite length_app. simpl.
  apply prop_ok_accessors in Hp as [Hg Hs].
  pose proof (grows_closures_length _ _ G13) as Hcl.
  rewrite (grows_length _ _ G13).
  apply reactive_prop_ok; [exact Hne|lia| |].
  - apply (opt_getter_ok_mono E _ 0 (length (closures s)) 0 _ (le_n 0));
      [lia|exact Hg].
  - apply (opt_setter_ok_mono E _ 0 (length (closures s)) 0 _ (le_n 0));
      [lia|exact Hs].
Qed.

Lemma defineReactive_returns fuel obj key s o p :
  Wf.wf E D s -> heap s !! obj = Some o ->
  Obj.lookup_prop key (o_props o) = Some p -> key <> "__ob__"%string ->
  Wf.unmarked (heap s) + D < f -> D <= fuel ->
  returns (Observer.defineReactive_with E obs fuel obj key Observer.Args2) s
          (fun _ s' => Wf.wf E D s' /\ grows s s').
Proof.
  intros. apply returns_respects.
  - apply defineReactive_grows; auto.
  - eapply defineReactive_wf; eauto.
Qed.

Lemma keys_lookup o k :
  In k (Obj.keys o) -> exists p, Obj.lookup_prop k (o_props o) = Some p.
Proof.
  unfold Obj.keys. intros H. apply filter_In in H as [_ H].
  destruct (Obj.lookup_prop k (o_props o)) as [p|]; [eauto|discriminate].
Qed.

Lemma walk_returns fuel l s o ob :
  Wf.wf E D s -> heap s !! l = Some o -> Obj.marker o = Some ob ->
  Wf.unmarked (heap s) + D < f -> D <= fuel ->
  returns (Observer.walk_with E obs fuel l) s
          (fun _ s' => Wf.wf E D s' /\ grows s s').
Proof.
  intros Hwf Hl Hm Hu Hle. unfold Observer.walk_with.
  apply returns_bind. eapply returns_get; [exact Hl|].
  apply returns_forEach with (I := fun s' => Wf.wf E D s' /\ grows s s').
  { split; [exact Hwf|reflexivity]. }
  intros k s0 Hin [Hwf0 G0].
  destruct (keys_lookup _ _ Hin) as [p Hk].
  destruct (grows_lookup _ _ _ _ G0 Hl) as (o0 & Hl0 & Hs0).
  destruct Hs0 as (_ & _ & _ & _ & _ & _ & Hnames).
  destruct (Hnames _ _ Hk) as (p0 & Hk0 & _).
  eapply returns_mono; [|eapply (defineReactive_returns fuel l k s0 o0 p0); eauto].
  - intros [] s1 [Hwf1 G1]. split; [exact Hwf1|etransitivity; eauto].
  - intros ->. eapply marker_not_key; eauto.
  - pose proof (grows_unmarked _ _ G0). lia.
Qed.

Lemma observeArray_returns items s :
  Wf.wf E D s ->
  (forall e, In e items -> Wf.val_ok (length (heap s)) (default VUndef e) = true) ->
  Wf.unmarked (heap s) + D < f ->
  returns (Observer.observeArray_with obs items) s
          (fun _ s' => Wf.wf E D s' /\ grows s s').
Proof.
  intros Hwf Hit Hu. unfold Observer.observeArray_with.
  apply returns_forEach with (I := fun s' => Wf.wf E D s' /\ grows s s').
  { split; [exact Hwf|reflexivity]. }
  intros e s0 Hin [Hwf0 G0]. apply returns_bind.
  eapply returns_mono; [|apply obs_returns; [exact Hwf0| |]].
  - intros r s1 (Hwf1 & G1 & _). apply returns_ret.
    split; [exact Hwf1|etransitivity; eauto].
  - rewrite (grows_length _ _ G0). apply Hit. exact Hin.
  - pose proof (grows_unmarked _ _ G0). lia.
Qed.

Lemma construct_returns fuel l s o :
  Wf.wf E D s -> heap s !! l = Some o -> Obj.marker o = None ->
  o_extensible o = true ->
  Wf.unmarked (heap s) + D <= f -> D <= fuel ->
  returns (Observer.construct_with E obs fuel l) s
          (fun ob s' => Wf.wf E D s' /\ ob < length (observers s')).
Proof.
  intros Hwf Hl Hm Hext Hu Hle. unfold Observer.construct_with.
  apply returns_bind. eapply returns_done; [reflexivity|].
  set (s1 := set_deps (deps s ++ [[]]) s).
  assert (Hwf1 : Wf.wf E D s1) by (eapply wf_create; [reflexivity|exact Hwf]).
  apply returns_bind. eapply returns_done; [reflexivity|].
  set (ob := length (observers s1)).
  set (s2 := set_observers (observers s1 ++ [ObserverI l (length (deps s)) 0]) s1).
  assert (Hwf2 : Wf.wf E D s2).
  { eapply wf_new_observer; [reflexivity| |exact Hwf1].
    eapply lookup_lt_Some. exact Hl. }
  pose proof (wf_obj _ _ _ _ _ Hwf2 Hl) as Hok.
  destruct (obj_ok_read_ob _ _ _ _ _ Hok) as [(Hno & _)|(ob' & _ & Hm' & _)];
    [|congruence].
  apply returns_bind. unfold Obj.def_marker, Obj.defineProperty.
  apply returns_bind. eapply returns_get; [exact Hl|]. rewrite Hno.
  replace (Obj.isArray o && String.eqb "__ob__" "length") with false
    by (rewrite andb_false_r; reflexivity).
  rewrite ownMutator_marker, Hext. eapply returns_done; [reflexivity|].
  set (o3 := Obj.with_props (Obj.store_prop "__ob__" (PMarker ob) (o_props o)) o).
  set (s3 := set_heap (<[l := o3]> (heap s2)) s2).
  assert (Hs3 : same_shape o o3) by (apply same_shape_store; auto).
  assert (Hwf3 : Wf.wf E D s3).
  { eapply wf_put; [exact Hwf2|exact Hl|exact Hs3|].
    apply obj_ok_store; [exact Hok|]. unfold Wf.prop_ok. simpl.
    rewrite length_app. simpl. apply andb_true_intro. split; [|reflexivity].
    apply Nat.ltb_lt. unfold ob. simpl. lia. }
  assert (Hl3 : heap s3 !! l = Some o3).
  { simpl. apply list_lookup_insert_eq. eapply lookup_lt_Some. exact Hl. }
  assert (Hm3 : Obj.marker o3 = Some ob).
  { unfold Obj.marker, o3. simpl. rewrite lookup_store_eq. reflexivity. }
  assert (Hu3 : Wf.unmarked (heap s3) + 1 = Wf.unmarked (heap s)).
  { simpl. eapply unmarked_insert; eauto. }
  assert (Hob3 : ob < length (observers s3)).
  { simpl. rewrite length_app. simpl. unfold ob. simpl. lia. }
  apply returns_bind. eapply returns_get; [exact Hl3|].
  apply returns_bind.
  apply returns_mono with (Q := fun _ s' => Wf.wf E D s' /\ grows s3 s').
  { intros [] s' [Hwf' G']. apply returns_ret. split; [exact Hwf'|].
    pose proof (grows_observers_length _ _ G'). lia. }
  destruct (Obj.isArray o3) eqn:Harr.
  - apply returns_bind.
    apply returns_mono with (Q := fun _ s' => Wf.wf E D s' /\ grows s3 s' /\
       exists o4, s' = set_heap (<[l := o4]> (heap s3)) s3 /\ same_shape o3 o4).
    2:{ destruct (hasProto E).
        - unfold Observer.protoAugment. apply returns_bind.
          eapply returns_get; [exact Hl3|]. eapply returns_done; [reflexivity|].
          assert (Hs : same_shape o3 (Obj.with_proto ProtoArrayMethods o3)).
          { repeat split; auto. intros k p H. exists p. auto. }
          split; [|split; [eapply put_grows; eauto|eauto]].
          eapply wf_put; eauto. exact (wf_obj _ _ _ _ _ Hwf3 Hl3).
        - unfold Observer.copyAugment. apply returns_bind.
          eapply returns_get; [exact Hl3|]. eapply returns_done; [reflexivity|].
          assert (Hs : same_shape o3 (Obj.with_ownMutators o3)).
          { repeat split; auto. intros k p H. exists p. auto. }
          split; [|split; [eapply put_grows; eauto|eauto]].
          eapply wf_put; eauto. eapply (wf_obj _ _ _ _ _ Hwf3 Hl3). }
    intros [] s4 (Hwf4 & G4 & _).
    eapply returns_mono; [|apply observeArray_returns; [exact Hwf4| |]].
    + intros [] s5 [Hwf5 G5]. split; [exact Hwf5|etransitivity; eauto].
    + intros e Hin. rewrite (grows_length _ _ G4).
      pose proof (wf_obj _ _ _ _ _ Hwf3 Hl3) as Hok3.
      apply obj_ok_parts in Hok3 as (Hel & _ & _).
      rewrite forallb_forall in Hel. apply Hel. exact Hin.
    + pose proof (grows_unmarked _ _ G4). lia.
  - eapply walk_returns; eauto. lia.
Qed.

End ObserveReturns.

(** With fuel beyond the number of unmarked objects and the nesting
    bound, [observe] returns on a well-formed store. *)
Lemma observe_returns E D : forall f v s,
  Wf.wf E D s -> Wf.val_ok (length (heap s)) v = true ->
  Wf.unmarked (heap s) + D < f ->
  returns (Observer.observe E f false v) s (obs_post E D s).
Proof.
  induction f as [|f IH]; intros v s Hwf Hv Hu; [lia|]. simpl.
  assert (Hnone : obs_post E D s None s).
  { split; [exact Hwf|]. split; [reflexivity|discriminate]. }
  destruct v as [| | | | | | |l]; try exact Hnone.
  destruct (val_ok_lookup _ (heap s) l eq_refl Hv) as [o Hl].
  apply returns_bind. eapply returns_get; [exact Hl|].
  destruct (Obj.isVNode o); [exact Hnone|].
  apply returns_bind. unfold get_state, returns.
  apply returns_bind.
  apply returns_mono with (Q := fun r s' =>
    Wf.wf E D s' /\ grows s s' /\
    forall ob, r = Some ob -> ob < length (observers s')).
  { intros [ob|] s' (Hwf' & G' & Hob); unfold returns; simpl;
      (split; [exact Hwf'|split; [exact G'|exact Hob]]). }
  destruct (obj_ok_read_ob _ _ _ _ _ (wf_obj _ _ _ _ _ Hwf Hl))
    as [(_ & Hm & _)|(ob & _ & Hm & _ & Hlt)]; rewrite Hm.
  2:{ apply returns_ret. split; [exact Hwf|]. split; [reflexivity|].
      intros ob' H. inversion H; subst. exact Hlt. }
  match goal with |- returns (if ?b then _ else _) _ _ => destruct b eqn:Hgate end;
    [|exact Hnone].
  apply andb_prop in Hgate as [Hgate _]. apply andb_prop in Hgate as [_ Hext].
  apply returns_bind.
  assert (Hc : returns
     (Observer.construct_with E (Observer.observe E f false) f l) s
     (fun ob s' => Wf.wf E D s' /\ ob < length (observers s'))).
  { eapply (construct_returns E D f); eauto; try lia.
    intros v. apply observe_grows. }
  apply returns_inv in Hc as (ob & s' & Hc & Hwf' & Hob).
  eapply returns_done; [exact Hc|]. apply returns_ret.
  split; [exact Hwf'|]. split.
  - eapply construct_grows in Hc as (G & _); [exact G| |].
    + intros v. apply observe_grows.
    + intros o' Hl'. congruence.
  - intros ob' H. inversion H; subst. exact Hob.
Qed.


(** ** Reading a list registers its elements *)

(** a loop whose steps each leave a lasting fact *)
Lemma returns_forEach_acc {A} (R : state -> state -> Prop) `{!PreOrder R}
    (P : A -> state -> Prop) (f : A -> M unit) l s :
  (forall x s1 s2, R s s1 -> P x s1 -> R s1 s2 -> P x s2) ->
  (forall x s0, In x l -> R s s0 ->
     returns (f x) s0 (fun _ s1 => R s0 s1 /\ P x s1)) ->
  returns (forEach f l) s (fun _ s' => R s s' /\ forall x, In x l -> P x s').
Proof.
  intros Hst Hf.
  assert (H : forall s0, R s s0 ->
            returns (forEach f l) s0
              (fun _ s' => R s0 s' /\ forall x, In x l -> P x s')).
  { induction l as [|x l IH]; intros s0 HR; simpl.
    - split; [reflexivity|]. intros x [].
    - apply returns_bind.
      eapply returns_mono; [|apply Hf; [left; reflexivity|exact HR]].
      intros [] s1 [HR1 HP1]. simpl.
      assert (HR01 : R s s1) by (etransitivity; eauto).
      eapply returns_mono; [|apply IH; [|exact HR01]].
      + intros [] s' [HR' HP']. simpl. split; [etransitivity; eauto|].
        intros y [<-|Hy]; [|apply HP'; exact Hy].
        eapply Hst; eauto.
      + intros y s2 Hy. apply Hf. right. exact Hy. }
  apply H. reflexivity.
Qed.

Lemma dep_only_since s s' :
  dep_only s s' -> trace s' = trace s ++ since s s'.
Proof.
  intros (D & t & -> & _). simpl. erewrite since_app by reflexivity. reflexivity.
Qed.

Lemma since_trans s s1 s2 :
  dep_only s s1 -> dep_only s1 s2 -> since s s2 = since s s1 ++ since s1 s2.
Proof.
  intros H1 H2. apply dep_only_since in H1, H2.
  apply since_app. rewrite H2, H1, app_assoc. reflexivity.
Qed.

Lemma depend_event E d s w :
  target s = Some w ->
  returns (Dep.depend E d) s
          (fun _ s' => dep_only s s' /\ In (EvAddDep w d) (since s s')).
Proof.
  intros Ht. eapply returns_done; [apply depend_eq|]. split.
  - eapply depend_dep_only. apply depend_eq.
  - rewrite Ht. erewrite since_app by reflexivity. left. reflexivity.
Qed.

Lemma dep_only_target s s' : dep_only s s' -> target s' = target s.
Proof. intros (D & t & -> & _). reflexivity. Qed.

Lemma dep_only_heap s s' : dep_only s s' -> heap s' = heap s.
Proof. intros (D & t & -> & _). reflexivity. Qed.

Lemma dep_only_observers s s' : dep_only s s' -> observers s' = observers s.
Proof. intros (D & t & -> & _). reflexivity. Qed.

Lemma since_earlier ev s s1 s2 :
  dep_only s s1 -> dep_only s1 s2 -> In ev (since s s1) -> In ev (since s s2).
Proof.
  intros H1 H2 Hin. rewrite (since_trans _ _ _ H1 H2). apply in_or_app. auto.
Qed.

Lemma since_later ev s s1 s2 :
  dep_only s s1 -> dep_only s1 s2 -> In ev (since s1 s2) -> In ev (since s s2).
Proof.
  intros H1 H2 Hin. rewrite (since_trans _ _ _ H1 H2). apply in_or_app. auto.
Qed.

Section Reach.
Variable E : env.
Variable D : nat.
Variable w : watcher.

(** [dependArray] hands to the active consumer the dependency node of the
    Observer of every element, at every depth. *)
Lemma dependArray_reaches d : forall fuel l s o,
  Wf.wf E D s -> heap s !! l = Some o ->
  Wf.nest_ok d (heap s) l = true -> d <= fuel ->
  target s = Some w ->
  returns (Observer.dependArray E fuel l) s
    (fun _ s' => dep_only s s' /\
       forall dp, reach_dep (heap s) (observers s) l dp ->
                  In (EvAddDep w dp) (since s s')).
Proof.
  induction d as [|d IH]; intros fuel l s o Hwf Hl Hn Hle Ht; [discriminate|].
  destruct fuel as [|f]; [lia|]. simpl.
  apply returns_bind. eapply returns_get; [exact Hl|].
  simpl in Hn. rewrite Hl in Hn. rewrite forallb_forall in Hn.
  pose proof (wf_obj _ _ _ _ _ Hwf Hl) as Hok.
  apply obj_ok_parts in Hok as (Hel & _ & _).
  rewrite forallb_forall in Hel.
  set (P := fun (e : option value) (s1 : state) =>
    forall l' o', e = Some (VRef l') -> heap s !! l' = Some o' ->
      (forall ob x, Obj.marker o' = Some ob -> observers s !! ob = Some x ->
                    In (EvAddDep w (ob_dep x)) (since s s1)) /\
      (Obj.isArray o' = true ->
       forall dp, reach_dep (heap s) (observers s) l' dp ->
                  In (EvAddDep w dp) (since s s1))).
  eapply returns_mono;
    [|apply (returns_forEach_acc dep_only P)].
  - intros [] s' [Hd HP]. split; [exact Hd|].
    intros dp Hr. inversion Hr as [l0 o0 e o' ob x H1 H2 H3 H4 H5
                                  |l0 o0 e o' dp0 H1 H2 H3 H4 H5]; subst.
    + assert (o0 = o) as -> by congruence.
      destruct (HP _ H2 e o' eq_refl H3) as [Ha _]. eapply Ha; eauto.
    + assert (o0 = o) as -> by congruence.
      destruct (HP _ H2 e o' eq_refl H3) as [_ Hb]. eapply Hb; eauto.
  - intros e s1 s2 Hd1 HP Hd2 l' o' He Hl'.
    destruct (HP l' o' He Hl') as [Ha Hb]. split.
    + intros ob x Hm Hx. eapply since_earlier; eauto.
    + intros Harr dp Hr. eapply since_earlier; eauto.
  - intros e s0 He Hd0.
    pose proof (dep_only_heap _ _ Hd0) as Hh0.
    pose proof (dep_only_observers _ _ Hd0) as Ho0.
    pose proof (dep_only_wf _ _ _ _ Hd0 Hwf) as Hwf0.
    assert (Ht0 : target s0 = Some w) by (rewrite (dep_only_target _ _ Hd0); exact Ht).
    specialize (Hn _ He). specialize (Hel _ He).
    destruct e as [[| | | | | | |l']|];
      try (apply returns_ret; split; [reflexivity|];
           intros ? ? Heq; discriminate).
    simpl in Hel.
    destruct (val_ok_lookup _ (heap s) l' eq_refl Hel) as [o' Hl'].
    rewrite Hl' in Hn.
    apply returns_bind. eapply returns_get; [rewrite Hh0; exact Hl'|].
    apply returns_bind.
    (* e.__ob__ && e.__ob__.dep.depend() *)
    apply returns_mono with (Q := fun _ s1 => dep_only s0 s1 /\
      forall ob x, Obj.marker o' = Some ob -> observers s !! ob = Some x ->
                   In (EvAddDep w (ob_dep x)) (since s0 s1)).
    2:{ unfold Observer.depend_on_ob.
        assert (Hl0' : heap s0 !! l' = Some o') by (rewrite Hh0; exact Hl').
        destruct (obj_ok_read_ob _ _ _ _ _ (wf_obj _ _ _ _ _ Hwf0 Hl0'))
          as [(_ & Hm & ->)|(ob & _ & Hm & -> & Hlt)].
        - apply returns_ret. split; [reflexivity|]. intros; congruence.
        - apply returns_bind. apply returns_get_observer; [exact Hlt|].
          intros x Hx. eapply returns_mono; [|apply depend_event; exact Ht0].
          intros [] s1 [Hd1 Hin]. split; [exact Hd1|].
          intros ob' x' Hm' Hx'. rewrite Ho0 in Hx.
          assert (ob' = ob) as -> by congruence.
          assert (x' = x) as -> by congruence. exact Hin. }
    intros [] s1 [Hd1 Hmark]. simpl.
    assert (Hd01 : dep_only s s1) by (etransitivity; eauto).
    destruct (Obj.isArray o') eqn:Harr.
    + pose proof (dep_only_heap _ _ Hd01) as Hh1.
      pose proof (dep_only_observers _ _ Hd01) as Ho1.
      eapply returns_mono; [|eapply (IH f l' s1 o')].
      * intros [] s2 [Hd2 Hreach]. simpl. split; [etransitivity; eauto|].
        intros l'' o'' Heq Hl''. inversion Heq; subst l''.
        assert (o'' = o') as -> by congruence. split.
        -- intros ob x Hm Hx. eapply since_later; [exact Hd0| |].
           ++ etransitivity; eauto.
           ++ eapply since_earlier; eauto.
        -- intros _ dp Hr. eapply since_later; [exact Hd01|exact Hd2|].
           apply Hreach. rewrite Hh1, Ho1. exact Hr.
      * eapply dep_only_wf; eauto.
      * rewrite Hh1. exact Hl'.
      * rewrite Hh1. exact Hn.
      * lia.
      * rewrite (dep_only_target _ _ Hd01). exact Ht.
    + apply returns_ret. split; [exact Hd1|].
      intros l'' o'' Heq Hl''. inversion Heq; subst l''.
      assert (o'' = o') as -> by congruence. split.
      * intros ob x Hm Hx. eapply since_later; [exact Hd0|exact Hd1|].
        eapply Hmark; eauto.
      * congruence.
Qed.

End Reach.

(** C9, as stated, fails: under a property that holds no child observer
    (here one defined shallow), reading the list registers the property's
    own dependency node only; the observed item inside the nested list is
    not reached. *)
Lemma read_shallow_list_no_dependArray :
  exists s',
    Observer.read_prop (plain_env false false) 5 0 "k" nested_shallow
    = Done (VRef 1) s' /\
    reach_dep (heap nested_shallow) (observers nested_shallow) 1 2 /\
    since nested_shallow s' = [EvAddDep w1 3] /\
    ~ In (EvAddDep w1 2) (since nested_shallow s').
Proof.
  eexists. split; [vm_compute; reflexivity|]. split; [|split].
  - eapply (reach_nested _ _ 1 _ 2); try reflexivity; [left; reflexivity|].
    eapply (reach_elem _ _ 2 _ 3 _ 2 (ObserverI 3 2 0));
      try reflexivity. left. reflexivity.
  - reflexivity.
  - intros [H|[]]. discriminate.
Qed.

(** C9 (amended): let a reactive property hold a child observer (it was not
    defined shallow, and [observe] returned an Observer for its value) and
    let its current value be a list.  On a well-formed store, reading the
    property while a consumer [w] is active returns the list and calls
    [w.addDep] with the property's dependency node, with the child
    observer's, and with the dependency node of the Container Observer of
    every element of the list and of every list nested in it, at any
    depth. *)
Theorem read_list_depends (E : env) (D fuel : nat) (s s1 : state)
    (obj : nat) (o : jsobj) (key : string) (c : nat) (g : option getter)
    (st : option setter) (cl : closure) (ob : nat) (x : observer)
    (w : watcher) (l : nat) (lo : jsobj) :
  Wf.wf E D s -> D <= fuel ->
  heap s !! obj = Some o ->
  Obj.lookup_prop key (o_props o) = Some (reactive_prop c g st) ->
  closures s !! c = Some cl ->
  c_childOb cl = Some ob ->
  observers s !! ob = Some x ->
  target s = Some w ->
  Observer.current_value E fuel c g s = Done (VRef l) s1 ->
  heap s !! l = Some lo -> Obj.isArray lo = true ->
  exists s',
    Observer.read_prop E fuel obj key s = Done (VRef l) s' /\
    In (EvAddDep w (c_dep cl)) (since s s') /\
    In (EvAddDep w (ob_dep x)) (since s s') /\
    forall d, reach_dep (heap s) (observers s) l d ->
              In (EvAddDep w d) (since s s').
Proof.
  intros Hwf Hle Hobj Hk Hc Hch Hx Ht Hv Hl Harr.
  pose proof (current_value_dep_only E fuel c g s _ s1 Hv) as Hd1.
  pose proof (dep_only_heap _ _ Hd1) as Hh1.
  pose proof (dep_only_observers _ _ Hd1) as Ho1.
  assert (Hc1 : closures s1 = closures s)
    by (destruct Hd1 as (? & ? & -> & _); reflexivity).
  assert (Ht1 : target s1 = Some w)
    by (rewrite (dep_only_target _ _ Hd1); exact Ht).
  pose proof (dep_only_wf _ _ _ _ Hd1 Hwf) as Hwf1.
  assert (R : returns (Observer.collect E fuel c (VRef l)) s1
    (fun _ s' => dep_only s1 s' /\
       In (EvAddDep w (c_dep cl)) (since s1 s') /\
       In (EvAddDep w (ob_dep x)) (since s1 s') /\
       forall d, reach_dep (heap s) (observers s) l d ->
                 In (EvAddDep w d) (since s1 s'))).
  { unfold Observer.collect. apply returns_bind. unfold get_state, returns.
    rewrite Ht1. apply returns_bind.
    eapply returns_done;
      [unfold Observer.get_closure; rewrite Hc1, Hc; reflexivity|].
    apply returns_bind. eapply returns_mono; [|apply depend_event; exact Ht1].
    intros [] s2 [Hd2 Hin2]. simpl. rewrite Hch.
    apply returns_bind.
    eapply returns_done;
      [unfold Observer.get_observer;
       rewrite (dep_only_observers _ _ Hd2), Ho1, Hx; reflexivity|].
    apply returns_bind. eapply returns_mono;
      [|apply depend_event; rewrite (dep_only_target _ _ Hd2); exact Ht1].
    intros [] s3 [Hd3 Hin3]. simpl.
    assert (Hd13 : dep_only s1 s3) by (etransitivity; eauto).
    apply returns_bind.
    eapply returns_get;
      [rewrite (dep_only_heap _ _ Hd13), Hh1; exact Hl|].
    rewrite Harr.
    eapply returns_mono; [|eapply (dependArray_reaches E D w D fuel l s3 lo)].
    - intros [] s4 [Hd4 Hreach]. simpl.
      split; [etransitivity; eauto|]. split; [|split].
      + eapply since_earlier; [exact Hd13|exact Hd4|].
        eapply since_earlier; [exact Hd2|exact Hd3|exact Hin2].
      + eapply since_earlier; [exact Hd13|exact Hd4|].
        eapply since_later; [exact Hd2|exact Hd3|exact Hin3].
      + intros d Hr. eapply since_later; [exact Hd13|exact Hd4|].
        apply Hreach.
        rewrite (dep_only_heap _ _ Hd13), Hh1,
                (dep_only_observers _ _ Hd13), Ho1. exact Hr.
    - eapply dep_only_wf; eauto.
    - rewrite (dep_only_heap _ _ Hd13), Hh1. exact Hl.
    - rewrite (dep_only_heap _ _ Hd13), Hh1.
      eapply wf_nest; eauto. eapply lookup_lt_Some; eauto.
    - exact Hle.
    - rewrite (dep_only_target _ _ Hd13). exact Ht1. }
  apply returns_inv in R as ([] & s' & Hcol & Hd' & Hin1 & Hin2 & Hall).
  exists s'. split; [|split; [|split]].
  - unfold Observer.read_prop. erewrite bind_done by (apply get_eq; exact Hobj).
    rewrite Hk. unfold reactive_prop. simpl.
    change (match g with
            | Some g' => Observer.call_getter E fuel g'
            | None => cl0 <- Observer.get_closure c;; ret (c_val cl0)
            end) with (Observer.current_value E fuel c g).
    erewrite bind_done by exact Hv.
    erewrite bind_done by exact Hcol. reflexivity.
  - eapply since_later; eauto.
  - eapply since_later; eauto.
  - intros d Hr. eapply since_later; eauto.
Qed.

(** a list with a list with an observed object *)
Lemma read_list_depends_witness :
  exists s',
    Observer.read_prop (plain_env false false) 3 0 "k" nested_deep
    = Done (VRef 1) s' /\
    In (EvAddDep w1 4) (since nested_deep s').
Proof.
  destruct (read_list_depends (plain_env false false) 3 3 nested_deep
              nested_deep 0
              (mk_obj KPlain [("k"%string, reactive_prop 0 None None);
                              ("__ob__"%string, PMarker 0)])
              "k" 0 None None (Closure 0 1 (VRef 1) (Some 1) false false)
              1 (ObserverI 1 2 0) w1 1
              (JsObj KArray true false [] ProtoArrayMethods false
                     [("__ob__"%string, PMarker 1)] [Some (VRef 2)])
              eq_refl (le_n 3) eq_refl eq_refl eq_refl eq_refl eq_refl eq_refl
              eq_refl eq_refl eq_refl)
    as (s' & Hr & _ & _ & Hall).
  exists s'. split; [exact Hr|]. apply Hall.
  eapply (reach_nested _ _ 1 _ 2); try reflexivity; [left; reflexivity|].
  eapply (reach_elem _ _ 2 _ 3 _ 3 (ObserverI 3 4 0)); try reflexivity.
  left. reflexivity.
Defined.

(** ** array.js: the intercepted mutators *)

Lemma put_elems_inv l es s a s' :
  ArrayMethods.put_elems l es s = Done a s' ->
  exists o, heap s !! l = Some o /\ o_extensible o = true /\
    ArrayMethods.length_ok (length es) = true /\
    s' = set_heap (<[l := Obj.with_elems es o]> (heap s)) s.
Proof.
  unfold ArrayMethods.put_elems.
  intros H. apply bind_inv in H as (o & s0 & H1 & H2).
  apply get_inv in H1 as [-> Hl].
  destruct (o_extensible o) eqn:Hx.
  - destruct (ArrayMethods.length_ok (length es)) eqn:Hlen; [|discriminate].
    apply put_inv in H2. eauto 6.
  - destruct (ArrayMethods.adds_index (o_elems o) es); discriminate.
Qed.


(** a list that is not extensible refuses a new index *)
Lemma put_elems_not_extensible l es s o :
  heap s !! l = Some o -> o_extensible o = false ->
  ArrayMethods.adds_index (o_elems o) es = true ->
  ArrayMethods.put_elems l es s = Throw TypeError.
Proof.
  intros Hl Hx Ha. unfold ArrayMethods.put_elems.
  erewrite bind_done by (apply get_eq; exact Hl).
  rewrite Hx, Ha. reflexivity.
Qed.

(** the original operation changes the elements of its array, may add a
    new array, and nothing else *)
Lemma original_frame E m l args s r s1 o :
  ArrayMethods.original E m l args s = Done r s1 ->
  heap s !! l = Some o ->
  observers s1 = observers s /\ closures s1 = closures s /\
  deps s1 = deps s /\ trace s1 = trace s /\ target s1 = target s /\
  shouldObserve s1 = shouldObserve s /\
  exists es, heap s1 !! l = Some (Obj.with_elems es o).
Proof.
  intros H Hl. unfold ArrayMethods.original in H.
  apply bind_inv in H as (o' & s0 & H1 & H). apply get_inv in H1 as [-> Hl'].
  assert (o' = o) as -> by congruence.
  assert (Hput : forall es v s', (ArrayMethods.put_elems l es ;;; ret v) s = Done r s' ->
     observers s' = observers s /\ closures s' = closures s /\
     deps s' = deps s /\ trace s' = trace s /\ target s' = target s /\
     shouldObserve s' = shouldObserve s /\
     exists es, heap s' !! l = Some (Obj.with_elems es o)).
  { intros es v s' Hp. apply bind_inv in Hp as ([] & s2 & Hp & Hr).
    inversion Hr; subst. apply put_elems_inv in Hp as (o2 & Hl2 & _ & _ & ->).
    assert (o2 = o) as -> by congruence. repeat split; auto.
    exists es. simpl. apply list_lookup_insert_eq. eapply lookup_lt_Some; eauto. }
  destruct m; try (eapply Hput; exact H).
  - destruct (ArrayMethods.splice_elems (o_elems o) args) as [[es' removed]|];
      [|discriminate].
    apply bind_inv in H as ([] & s2 & Hp & H).
    apply put_elems_inv in Hp as (o2 & Hl2 & _ & _ & ->).
    assert (o2 = o) as -> by congruence.
    apply bind_inv in H as (a & s3 & Ha & Hr). inversion Hr; subst.
    inversion Ha; subst. simpl. repeat split; auto.
    exists es'. rewrite lookup_app_l.
    + apply list_lookup_insert_eq. eapply lookup_lt_Some; eauto.
    + rewrite length_insert. eapply lookup_lt_Some; eauto.
  - destruct args as [|[| | | | | | |] ?]; try discriminate; eapply Hput; exact H.
Qed.

Lemma quiet_notifies d t : Forall is_addDep t -> notifies_of d t = 0.
Proof.
  induction 1 as [|e t He _ IH]; simpl; [reflexivity|].
  destruct e; simpl in *; try contradiction. exact IH.
Qed.


Lemma notifies_self d ws :
  notifies_of d (EvNotify d :: map EvUpdate ws) = 1.
Proof. simpl. rewrite Nat.eqb_refl, notifies_of_updates. reflexivity. Qed.

(** [mutator]: the original operation, then the inserted elements are
    observed, then one [notify] on the list's own dependency node *)
Lemma mutator_spec E D fuel m l args s o ob x r s1 :
  heap s !! l = Some o -> Obj.marker o = Some ob ->
  observers s !! ob = Some x ->
  ArrayMethods.original E m l args s = Done r s1 ->
  Wf.wf E D s1 ->
  forallb (Wf.val_ok (length (heap s1))) args = true ->
  Wf.unmarked (heap s1) + D < fuel ->
  exists s2 s3,
    Observer.observeArray E fuel
      (map Some (default [] (ArrayMethods.inserted m args))) s1 = Done tt s2 /\
    grows s1 s2 /\
    Dep.notify E (ob_dep x) s2 = Done tt s3 /\
    ArrayMethods.mutator E fuel m l args s = Done r s3 /\
    heap s3 = heap s2 /\
    notifies_of (ob_dep x) (since s s3) = 1.
Proof.
  intros Hl Hm Hx Ho Hwf Hargs Hu.
  destruct (original_frame _ _ _ _ _ _ _ _ Ho Hl)
    as (Hob1 & Hcl1 & Hdp1 & Htr1 & _ & _ & es & Hl1).
  assert (R : returns (Observer.observeArray E fuel
      (map Some (default [] (ArrayMethods.inserted m args)))) s1
      (fun _ s2 => Wf.wf E D s2 /\ grows s1 s2)).
  { apply (observeArray_returns E D fuel);
      [intros v s0; apply observe_returns|exact Hwf| |exact Hu].
    intros e Hin. apply in_map_iff in Hin as (v & <- & Hv). simpl.
    rewrite forallb_forall in Hargs. apply Hargs.
    destruct m; simpl in Hv; try contradiction; auto.
    apply list_elem_of_In in Hv. apply list_elem_of_In.
    eapply (subseteq_drop 2 args); exact Hv. }
  apply returns_inv in R as ([] & s2 & Hoa & Hwf2 & G).
  exists s2. eexists. split; [exact Hoa|]. split; [exact G|].
  split; [apply notify_eq|]. cbv zeta.
  assert (Hx2 : observers s2 !! ob = Some x).
  { destruct G as (_ & Hp & _). eapply prefix_lookup_Some; [|exact Hp].
    rewrite Hob1. exact Hx. }
  split; [|split; [reflexivity|]].
  - unfold ArrayMethods.mutator. erewrite bind_done by exact Ho.
    erewrite bind_done by (apply get_eq; exact Hl1).
    assert (Hr : Obj.read_ob (Obj.with_elems es o) = Obj.ObObserver ob).
    { apply marker_read_ob. exact Hm. }
    rewrite Hr.
    assert (Hins : (match ArrayMethods.inserted m args with
                    | Some ins => Observer.observeArray E fuel (map Some ins)
                    | None => ret tt
                    end) s1 = Done tt s2).
    { destruct (ArrayMethods.inserted m args); exact Hoa. }
    erewrite bind_done by exact Hins.
    erewrite bind_done
      by (unfold Observer.get_observer; rewrite Hx2; reflexivity).
    erewrite bind_done by apply notify_eq. reflexivity.
  - destruct G as (_ & _ & _ & _ & _ & _ & _ & t & Ht & Hq).
    erewrite since_app.
    2:{ simpl. rewrite Ht, Htr1, <- app_assoc. reflexivity. }
    rewrite notifies_of_app, (quiet_notifies _ _ Hq), notifies_self. reflexivity.
Qed.

(** what [observe] returns for an observable object is on the object
    afterwards *)
Lemma observe_marks E fuel l s r s' o :
  Observer.observe E fuel false (VRef l) s = Done r s' ->
  heap s !! l = Some o -> observable E s o = true ->
  exists o' ob, heap s' !! l = Some o' /\ Obj.marker o' = Some ob /\ r = Some ob.
Proof.
  intros H Hl Hobs. destruct fuel as [|f]; [discriminate|]. simpl in H.
  erewrite bind_done in H by (apply get_eq; exact Hl).
  unfold observable in Hobs. apply andb_prop in Hobs as [Hv Hgate].
  apply negb_true_iff in Hv. rewrite Hv in H.
  erewrite bind_done in H by reflexivity.
  apply bind_inv in H as (ob1 & s1 & H2 & H).
  unfold Wf.is_unmarked in Hgate.
  destruct (Obj.marker o) as [ob|] eqn:Hm.
  - inversion H2; subst. inversion H; subst. exists o, ob. auto.
  - simpl in Hgate. rewrite Hgate in H2.
    apply bind_inv in H2 as (ob' & s2 & H3 & H4). inversion H4; subst.
    inversion H; subst.
    eapply construct_grows in H3 as (_ & _ & o1 & Hl1 & Hm1).
    + exists o1, ob'. auto.
    + intros v. apply observe_grows.
    + intros o' Hl'. congruence.
Qed.

Lemma grows_observable E s s' l o :
  grows s s' -> heap s !! l = Some o -> observable E s o = true ->
  exists o', heap s' !! l = Some o' /\ observable E s' o' = true /\
             (forall ob, Obj.marker o = Some ob -> Obj.marker o' = Some ob).
Proof.
  intros G Hl Hobs. destruct (grows_lookup _ _ _ _ G Hl) as (o' & Hl' & Hs).
  exists o'. split; [exact Hl'|]. split.
  - destruct G as (_ & _ & _ & _ & _ & Hsh & _).
    destruct Hs as (Hk & He & Hv & _ & _ & Hm & _).
    unfold observable, Obj.isVNode, Obj.isArray, Obj.isPlainObject,
      Wf.is_unmarked in *.
    rewrite Hk, He, Hv, Hsh.
    destruct (Obj.marker o) as [ob|]; [rewrite (Hm ob eq_refl)|]; auto.
    apply andb_prop in Hobs as [H1 H2]. rewrite H1. simpl in *.
    rewrite H2. apply orb_true_r.
  - apply Hs.
Qed.

(** every observable item is marked once [observeArray] returns *)
Lemma observeArray_marks E fuel items : forall s s',
  Observer.observeArray E fuel items s = Done tt s' ->
  forall l o, In (Some (VRef l)) items -> heap s !! l = Some o ->
    observable E s o = true ->
    exists o' ob, heap s' !! l = Some o' /\ Obj.marker o' = Some ob.
Proof.
  unfold Observer.observeArray, Observer.observeArray_with.
  induction items as [|e items IH]; intros s s' H l o Hin Hl Hobs; [destruct Hin|].
  simpl in H. apply bind_inv in H as ([] & s1 & H1 & H2).
  apply bind_inv in H1 as (r & s1' & H1 & Hr). inversion Hr; subst s1'.
  pose proof (observe_grows _ _ _ _ _ _ H1) as G1.
  destruct Hin as [->|Hin].
  - simpl in H1.
    destruct (observe_marks _ _ _ _ _ _ _ H1 Hl Hobs) as (o1 & ob & Hl1 & Hm1 & _).
    assert (G2 : grows s1 s').
    { eapply (observeArray_grows (Observer.observe E fuel false)); eauto.
      intros v. apply observe_grows. }
    destruct (grows_lookup _ _ _ _ G2 Hl1) as (o2 & Hl2 & Hs2).
    exists o2, ob. split; [exact Hl2|]. apply Hs2. exact Hm1.
  - destruct (grows_observable E _ _ _ _ G1 Hl Hobs) as (o1 & Hl1 & Hobs1 & _).
    eapply IH; eauto.
Qed.

(** ** set on a list *)




(** ** Observation leaves marked objects alone *)

#[export] Instance keeps_marked_preorder L : PreOrder (keeps_marked L).
Proof.
  split.
  - intros s l o Hl _ _. exact Hl.
  - intros s1 s2 s3 H12 H23 l o Hl Hm HL.
    apply H23; auto.
Qed.

Lemma keeps_marked_weaken L L' s s' :
  (forall l, In l L -> In l L') -> keeps_marked L s s' -> keeps_marked L' s s'.
Proof. intros HL H l o Hl Hm Hn. apply H; auto. Qed.

Lemma keeps_marked_heap L s s' : heap s' = heap s -> keeps_marked L s s'.
Proof. intros Hh l o Hl _ _. rewrite Hh. exact Hl. Qed.

Lemma dep_only_keeps L s s' : dep_only s s' -> keeps_marked L s s'.
Proof. intros H. apply keeps_marked_heap. destruct H as (? & ? & -> & _). reflexivity. Qed.

Lemma put_keeps l o s : keeps_marked [l] s (set_heap (<[l := o]> (heap s)) s).
Proof.
  intros l' o' Hl' _ Hn. simpl. rewrite list_lookup_insert_ne; [exact Hl'|].
  intros ->. apply Hn. left. reflexivity.
Qed.

Lemma defineProperty_keeps l k p : respects (keeps_marked [l]) (Obj.defineProperty l k p).
Proof.
  intros s a s' H. apply defineProperty_inv in H as (o & _ & ->). apply put_keeps.
Qed.

Section ObserveKeeps.
Variable E : env.
Variable obs : value -> M (option nat).
Hypothesis obs_keeps : forall v, respects (keeps_marked []) (obs v).

Lemma obs_keeps' L v : respects (keeps_marked L) (obs v).
Proof.
  eapply respects_weaken; [|apply obs_keeps].
  intros s s'. apply keeps_marked_weaken. intros l [].
Qed.

Lemma defineReactive_keeps fuel obj key args :
  respects (keeps_marked [obj]) (Observer.defineReactive_with E obs fuel obj key args).
Proof.
  unfold Observer.defineReactive_with.
  apply respects_bind; [apply _| |].
  { intros s a s' H. apply keeps_marked_heap. inversion H; reflexivity. }
  intros dep. apply respects_bind; [apply _|respects_read|]. intros o.
  match goal with |- respects _ (if ?b then _ else _) => destruct b end;
    [respects_pure|].
  apply respects_bind; [apply _| |].
  { destruct args; [|respects_pure].
    match goal with |- respects _ (if ?b then _ else _) => destruct b end;
      [|respects_pure].
    eapply respects_weaken; [apply dep_only_keeps|apply read_prop_dep_only]. }
  intros val. apply respects_bind; [apply _| |].
  { match goal with |- respects _ (if ?b then _ else _) => destruct b end;
      [respects_pure|apply obs_keeps']. }
  intros childOb. apply respects_bind; [apply _| |].
  { intros s a s' H. apply keeps_marked_heap. inversion H; reflexivity. }
  intros c. apply defineProperty_keeps.
Qed.

Lemma construct_keeps fuel l :
  respects (keeps_marked [l]) (Observer.construct_with E obs fuel l).
Proof.
  unfold Observer.construct_with.
  apply respects_bind; [apply _| |].
  { intros s a s' H. apply keeps_marked_heap. inversion H; reflexivity. }
  intros dep. apply respects_bind; [apply _| |].
  { intros s a s' H. apply keeps_marked_heap. inversion H; reflexivity. }
  intros ob. apply respects_bind; [apply _|apply defineProperty_keeps|].
  intros _. apply respects_bind; [apply _|respects_read|].
  intros o. apply respects_bind; [apply _| |intros _; respects_pure].
  destruct (Obj.isArray o).
  - apply respects_bind; [apply _| |].
    + destruct (hasProto E).
      * apply respects_bind; [apply _|respects_read|].
        intros o'. intros s a s' H. apply put_inv in H as ->. apply put_keeps.
      * apply respects_bind; [apply _|respects_read|].
        intros o'. intros s a s' H. apply put_inv in H as ->. apply put_keeps.
    + intros _. apply respects_forEach; [apply _|].
      intros e. apply respects_bind; [apply _|apply obs_keeps'|].
      intros _. respects_pure.
  - apply respects_bind; [apply _|respects_read|].
    intros o'. apply respects_forEach; [apply _|].
    intros k. apply defineReactive_keeps.
Qed.

End ObserveKeeps.

(** [observe] changes no object that carries the marker already *)
Lemma observe_keeps E fuel v : respects (keeps_marked []) (Observer.observe E fuel false v).
Proof.
  revert v. induction fuel as [|f IH]; intros v; simpl.
  - apply respects_out_of_fuel.
  - destruct v; try (respects_pure).
    intros s a s' H. apply bind_inv in H as (o & s0 & H1 & H).
    apply get_inv in H1 as [-> Hl].
    destruct (Obj.isVNode o); [inversion H; subst; reflexivity|].
    apply bind_inv in H as (s0 & s0' & H1 & H). inversion H1; subst s0 s0'.
    apply bind_inv in H as (ob & s1 & H2 & H).
    assert (G : keeps_marked [] s s1).
    { destruct (Obj.marker o) eqn:Hm.
      - inversion H2; subst. reflexivity.
      - match type of H2 with (if ?b then _ else _) _ = _ => destruct b end;
          [|inversion H2; subst; reflexivity].
        apply bind_inv in H2 as (ob' & s2 & H3 & H4). inversion H4; subst.
        apply (construct_keeps E _ IH) in H3.
        intros l' o' Hl' Hm' _. apply H3; auto.
        intros [->|[]]. assert (o' = o) as -> by congruence.
        unfold Wf.is_unmarked in Hm'. rewrite Hm in Hm'. discriminate. }
    destruct ob; [|inversion H; subst; exact G].
    apply bind_inv in H as ([] & s2 & H3 & H4). inversion H3; subst.
    inversion H4; subst. exact G.
Qed.

(** and so does [observeArray] *)
Lemma observeArray_keeps E fuel items :
  respects (keeps_marked []) (Observer.observeArray E fuel items).
Proof.
  unfold Observer.observeArray, Observer.observeArray_with.
  apply respects_forEach; [apply _|]. intros e.
  apply respects_bind; [apply _|apply observe_keeps|].
  intros _. respects_pure.
Qed.

(** ** array.js: what an intercepted operation does *)

(** C6, as stated, fails where the original operation throws: [push] on
    an observed list that is not extensible ends with a TypeError, which
    the original [push] throws; no result is returned, and the call does
    not get to [notify], although the list's dependency node has a
    subscriber. *)
Lemma mutator_not_extensible_throws :
  Dep.subs_of list_not_extensible 0 = [w1] /\
  ArrayMethods.call_method (plain_env false false) 3 ArrayMethods.Push 0
    [VNum 1] list_not_extensible = Throw TypeError.
Proof. split; reflexivity. Qed.

(** C6 (amended): on an observed list whose mutating methods are the
    intercepted ones, the intercepted operation first runs the original
    operation.  When that returns [r], leaving a well-formed store [s1],
    then with enough fuel the intercepted operation returns [r]; from [s1]
    it runs [observeArray] on exactly the inserted arguments (all of them
    for push and unshift, those after the first two for splice, none
    otherwise), so that every observable one carries an Observer
    afterwards, and then [notify] on the list's own dependency node;
    [notify] is entered exactly once on that node and on no other; and
    the list is as the original operation left it.  When the original
    operation throws, the intercepted one ends with the same error. *)
Theorem mutator_observes_notifies_once (E : env) (D fuel : nat)
    (m : ArrayMethods.method) (l : nat) (args : list value) (s : state)
    (o : jsobj) (ob : nat) (x : observer) :
  heap s !! l = Some o ->
  Obj.isArray o = true ->
  Observer.intercepted o = true ->
  Obj.marker o = Some ob ->
  observers s !! ob = Some x ->
  (forall r s1,
     ArrayMethods.original E m l args s = Done r s1 ->
     Wf.wf E D s1 ->
     forallb (Wf.val_ok (length (heap s1))) args = true ->
     Wf.unmarked (heap s1) + D < fuel ->
     let ins := match m with
                | ArrayMethods.Push | ArrayMethods.Unshift => args
                | ArrayMethods.Splice => drop 2 args
                | _ => []
                end in
     exists s2 s3,
       Observer.observeArray E fuel (map Some ins) s1 = Done tt s2 /\
       Dep.notify E (ob_dep x) s2 = Done tt s3 /\
       ArrayMethods.call_method E fuel m l args s = Done r s3 /\
       (forall d, notifies_of d (since s s3)
                  = if Nat.eqb d (ob_dep x) then 1 else 0) /\
       (forall lv ov,
          In (VRef lv) ins ->
          heap s1 !! lv = Some ov -> observable E s1 ov = true ->
          exists ov' ob',
            heap s3 !! lv = Some ov' /\ Obj.marker ov' = Some ob') /\
       heap s3 !! l = heap s1 !! l) /\
  (forall e,
     ArrayMethods.original E m l args s = Throw e ->
     ArrayMethods.call_method E fuel m l args s = Throw e).
Proof.
  intros Hl Harr Hint Hm Hx. split.
  - intros r s1 Ho Hwf Hargs Hu ins.
    destruct (mutator_spec E D fuel m l args s o ob x r s1
                Hl Hm Hx Ho Hwf Hargs Hu)
      as (s2 & s3 & Hoa & G & Hn & Hmu & Hh & Hcount).
    assert (Hins : default [] (ArrayMethods.inserted m args) = ins)
      by (destruct m; reflexivity).
    rewrite Hins in Hoa.
    exists s2, s3. split; [exact Hoa|]. split; [exact Hn|].
    split; [|split; [|split]].
    + unfold ArrayMethods.call_method.
      erewrite bind_done by (apply get_eq; exact Hl). rewrite Hint. exact Hmu.
    + intros d.
      destruct (original_frame _ _ _ _ _ _ _ _ Ho Hl)
        as (_ & _ & _ & Htr1 & _).
      destruct G as (_ & _ & _ & _ & _ & _ & _ & t & Ht & Hq).
      rewrite notify_eq in Hn. cbv zeta in Hn. injection Hn as <-.
      erewrite since_app.
      2:{ simpl. rewrite Ht, Htr1, <- app_assoc. reflexivity. }
      rewrite notifies_of_app, (quiet_notifies _ _ Hq). simpl.
      rewrite notifies_of_updates. destruct (Nat.eqb d (ob_dep x)); reflexivity.
    + intros lv ov Hin Hlv Hobs. rewrite Hh.
      eapply observeArray_marks; eauto.
      apply in_map_iff. exists (VRef lv). auto.
    + rewrite Hh.
      destruct (original_frame _ _ _ _ _ _ _ _ Ho Hl)
        as (_ & _ & _ & _ & _ & _ & es & Hl1).
      rewrite Hl1.
      apply (observeArray_keeps _ _ _ _ _ _ Hoa); [exact Hl1| |intros []].
      unfold Wf.is_unmarked.
      replace (Obj.marker (Obj.with_elems es o)) with (Some ob); reflexivity.
  - intros e He. unfold ArrayMethods.call_method.
    erewrite bind_done by (apply get_eq; exact Hl). rewrite Hint.
    unfold ArrayMethods.mutator, bind. rewrite He. reflexivity.
Qed.

(** [list.push({}, {})] on an observed list *)
Lemma mutator_observes_notifies_once_witness :
  exists s3,
    ArrayMethods.call_method (plain_env false false) 4 ArrayMethods.Push 0
      [VRef 1; VRef 2] list_and_two = Done (VNum 2) s3 /\
    notifies_of 0 (since list_and_two s3) = 1.
Proof.
  destruct (mutator_observes_notifies_once (plain_env false false) 1 4
              ArrayMethods.Push 0 [VRef 1; VRef 2] list_and_two
              (JsObj KArray true false [] ProtoArrayMethods false
                     [("__ob__"%string, PMarker 0)] [])
              0 (ObserverI 0 0 0)
              eq_refl eq_refl eq_refl eq_refl eq_refl) as [H _].
  destruct (H (VNum 2) list_and_two_pushed eq_refl eq_refl eq_refl
              ltac:(vm_compute; lia))
    as (s2 & s3 & _ & _ & Hc & Hn & _).
  exists s3. split; [exact Hc|exact (Hn 0)].
Defined.

(** ** set on a list, beyond its length *)











(** ** set on a key the target has *)




(** ** dep.js: the target stack *)

Lemma pushTarget_eq t s :
  Dep.pushTarget t s
  = Done tt (State (heap s) (observers s) (deps s) (closures s) t
                   (targetStack s ++ [t]) (shouldObserve s) (trace s)).
Proof. reflexivity. Qed.

Lemma popTarget_eq s :
  Dep.popTarget s
  = Done tt (State (heap s) (observers s) (deps s) (closures s)
                   (default None (last (removelast (targetStack s))))
                   (removelast (targetStack s)) (shouldObserve s) (trace s)).
Proof. reflexivity. Qed.

(** X1: when [Dep.target] is the top of the stack (as it is initially and
    after every [pushTarget] and [popTarget]), [popTarget] after
    [pushTarget(t)] gives back the store exactly: the consumer that was
    active before is active again.  In between, [t] is the active
    consumer, and the relation of [Dep.target] to the stack holds
    throughout. *)
Theorem push_pop_restores (t : option watcher) (s : state) :
  stack_ok s ->
  exists s1,
    Dep.pushTarget t s = Done tt s1 /\
    target s1 = t /\ stack_ok s1 /\
    Dep.popTarget s1 = Done tt s.
Proof.
  intros Hok. eexists. split; [apply pushTarget_eq|].
  split; [reflexivity|]. split.
  - unfold stack_ok. simpl. rewrite last_snoc. reflexivity.
  - rewrite popTarget_eq. simpl. rewrite removelast_last.
    unfold stack_ok in Hok. rewrite <- Hok. destruct s; reflexivity.
Qed.

Lemma push_pop_restores_witness :
  exists s1,
    Dep.pushTarget (Some w1) two_subs = Done tt s1 /\
    target s1 = Some w1 /\
    Dep.popTarget s1 = Done tt two_subs.
Proof.
  destruct (push_pop_restores (Some w1) two_subs eq_refl)
    as (s1 & H1 & H2 & _ & H3).
  exists s1. auto.
Defined.

(** ** array.js: operations that insert nothing *)

Lemma notified_eq E d s : Dep.notify E d s = Done tt (notified E d s).
Proof. apply notify_eq. Qed.

Lemma notified_count E d s :
  notifies_of d (since s (notified E d s)) = 1 /\
  updates_of (since s (notified E d s)) = Dep.dispatch_order E (Dep.subs_of s d).
Proof.
  unfold notified. erewrite since_app by reflexivity. split.
  - apply notifies_self.
  - simpl. apply updates_of_map.
Qed.

(** without inserted elements, [mutator] is the original operation and one
    [notify]; this needs no fuel *)
Lemma mutator_no_insert E fuel m l args s o ob x r s1 :
  heap s !! l = Some o -> Obj.marker o = Some ob ->
  observers s !! ob = Some x ->
  ArrayMethods.original E m l args s = Done r s1 ->
  default [] (ArrayMethods.inserted m args) = [] ->
  ArrayMethods.mutator E fuel m l args s
  = Done r (notified E (ob_dep x) s1).
Proof.
  intros Hl Hm Hx Ho Hins.
  destruct (original_frame _ _ _ _ _ _ _ _ Ho Hl)
    as (Hob1 & _ & _ & _ & _ & _ & es & Hl1).
  unfold ArrayMethods.mutator. erewrite bind_done by exact Ho.
  erewrite bind_done by (apply get_eq; exact Hl1).
  assert (Hr : Obj.read_ob (Obj.with_elems es o) = Obj.ObObserver ob)
    by (apply marker_read_ob; exact Hm).
  rewrite Hr.
  assert (Hnone : (match ArrayMethods.inserted m args with
                   | Some ins => Observer.observeArray E fuel (map Some ins)
                   | None => ret tt
                   end) s1 = Done tt s1).
  { destruct (ArrayMethods.inserted m args) as [ins|]; [|reflexivity].
    simpl in Hins. subst ins. reflexivity. }
  erewrite bind_done by exact Hnone.
  erewrite bind_done
    by (unfold Observer.get_observer; rewrite Hob1, Hx; reflexivity).
  erewrite bind_done by apply notified_eq. reflexivity.
Qed.

(** X4: on an observed list whose mutating methods are the intercepted
    ones, an intercepted operation that inserts nothing (pop, shift, sort,
    reverse; push, unshift or splice without new elements) and whose
    original operation returns, returns what the original operation
    returns, and leaves the store as the original operation left it but
    for one [notify] on the list's dependency node, whose subscribers are
    updated in dispatch order; no Observer and no closure is created.
    This holds also when the original operation had nothing to do, as
    [pop] on an empty list. *)
Theorem mutator_without_insertion (E : env) (fuel : nat)
    (m : ArrayMethods.method) (l : nat) (args : list value) (s s1 : state)
    (o : jsobj) (ob : nat) (x : observer) (r : value) :
  heap s !! l = Some o ->
  Observer.intercepted o = true ->
  Obj.marker o = Some ob ->
  observers s !! ob = Some x ->
  ArrayMethods.original E m l args s = Done r s1 ->
  default [] (ArrayMethods.inserted m args) = [] ->
  exists s',
    ArrayMethods.call_method E fuel m l args s = Done r s' /\
    heap s' = heap s1 /\ observers s' = observers s /\
    closures s' = closures s /\
    notifies_of (ob_dep x) (since s s') = 1 /\
    updates_of (since s s') = Dep.dispatch_order E (Dep.subs_of s (ob_dep x)).
Proof.
  intros Hl Hint Hm Hx Ho Hins.
  destruct (original_frame _ _ _ _ _ _ _ _ Ho Hl)
    as (Hob1 & Hcl1 & Hdp1 & Htr1 & _ & _ & es & Hl1).
  exists (notified E (ob_dep x) s1).
  split; [|split; [reflexivity|split; [exact Hob1|split; [exact Hcl1|]]]].
  - unfold ArrayMethods.call_method.
    erewrite bind_done by (apply get_eq; exact Hl). rewrite Hint.
    eapply mutator_no_insert; eauto.
  - destruct (notified_count E (ob_dep x) s1) as [H1 H2].
    unfold since in *. rewrite <- Htr1.
    unfold Dep.subs_of in *. rewrite <- Hdp1. auto.
Qed.

(** [list.pop()] on an observed empty list *)
Lemma mutator_without_insertion_witness :
  exists s',
    ArrayMethods.call_method (plain_env false false) 0 ArrayMethods.Pop 0 []
      list_and_two = Done VUndef s' /\
    notifies_of 0 (since list_and_two s') = 1 /\
    updates_of (since list_and_two s') = [w1].
Proof.
  destruct (mutator_without_insertion (plain_env false false) 0
              ArrayMethods.Pop 0 [] list_and_two list_and_two
              (JsObj KArray true false [] ProtoArrayMethods false
                     [("__ob__"%string, PMarker 0)] [])
              0 (ObserverI 0 0 0) VUndef
              eq_refl eq_refl eq_refl eq_refl eq_refl eq_refl)
    as (s' & H1 & _ & _ & _ & H2 & H3).
  exists s'. split; [exact H1|]. split; [exact H2|exact H3].
Defined.

(** ** set and del on a list *)










(** ** del *)




(** ** del on an object *)

Lemma lookup_remove_eq k ps : Obj.lookup_prop k (Index.remove_prop k ps) = None.
Proof.
  unfold Index.remove_prop.
  induction ps as [|[k' p] ps IH]; [reflexivity|]. simpl.
  destruct (String.eqb_spec k k') as [->|Hne]; simpl; [exact IH|].
  destruct (String.eqb_spec k k'); [contradiction|exact IH].
Qed.

Lemma lookup_remove_ne k k' ps :
  k' <> k ->
  Obj.lookup_prop k' (Index.remove_prop k ps) = Obj.lookup_prop k' ps.
Proof.
  intros Hne. unfold Index.remove_prop.
  induction ps as [|[k0 p] ps IH]; [reflexivity|]. simpl.
  destruct (String.eqb_spec k k0) as [->|Hk]; simpl.
  - destruct (String.eqb_spec k' k0); [contradiction|exact IH].
  - rewrite IH. reflexivity.
Qed.

Lemma del_object_eq E fuel l o k s :
  heap s !! l = Some o ->
  Obj.isArray o && Api.isValidArrayIndex k = false ->
  o_isVue o = false ->
  Index.del E fuel (VRef l) k s
  = match Obj.read_ob o with
    | Obj.ObOther => unmodelled
    | Obj.ObObserver ob =>
        x <- Observer.get_observer ob ;;
        if negb (Nat.eqb (ob_vmCount x) 0) then
          when (negb (production E)) (Api.warn WarnDelRoot) ;;; ret tt
        else Index.del_own E l (Api.key_name k) (Some x)
    | Obj.ObFalsy => Index.del_own E l (Api.key_name k) None
    | Obj.ObPrimitive =>
        if negb (Obj.hasOwn (Api.key_name k) o) then ret tt
        else Index.delete l (Api.key_name k) ;;; throw TypeError
    end s.
Proof.
  intros Hl Hidx Hvue. unfold Index.del.
  simpl Api.undef_or_primitive. rewrite andb_false_r.
  unfold when at 1. erewrite bind_done by reflexivity.
  erewrite bind_done by (apply get_eq; exact Hl).
  rewrite Hidx, Hvue. reflexivity.
Qed.

(** X8: on a root-tracked target, [del] of a key that is no list index
    deletes nothing, whether the target owns the key or not: it returns
    with the store as it was, after one developer warning in a build that
    is not the production build, and none in the production build. *)
Theorem del_root_guard (E : env) (fuel : nat) (s : state) (l : nat)
    (o : jsobj) (k : Api.key) :
  heap s !! l = Some o ->
  Obj.isArray o && Api.isValidArrayIndex k = false ->
  root_tracked s o ->
  Index.del E fuel (VRef l) k s = Done tt (warned E WarnDelRoot s) /\
  heap (warned E WarnDelRoot s) = heap s /\
  deps (warned E WarnDelRoot s) = deps s /\
  warnings_of (since s (warned E WarnDelRoot s))
  = (if production E then [] else [WarnDelRoot]).
Proof.
  intros Hl Hidx Hroot. split; [|split; [|split]].
  - assert (Hw : forall s0,
      (when (negb (production E)) (Api.warn WarnDelRoot) ;;; ret tt) s0
      = Done tt (warned E WarnDelRoot s0)).
    { intros s0. unfold warned, when. destruct (production E); reflexivity. }
    destruct (o_isVue o) eqn:Hvue.
    + unfold Index.del. simpl Api.undef_or_primitive. rewrite andb_false_r.
      unfold when at 1. erewrite bind_done by reflexivity.
      erewrite bind_done by (apply get_eq; exact Hl).
      rewrite Hidx, Hvue. apply Hw.
    + destruct Hroot as [Hv | (ob & x & Hm & Hx & Hc)]; [congruence|].
      rewrite (del_object_eq E fuel l o k s Hl Hidx Hvue).
      rewrite (marker_read_ob _ _ Hm).
      erewrite bind_done
        by (unfold Observer.get_observer; rewrite Hx; reflexivity).
      destruct (Nat.eqb_spec (ob_vmCount x) 0) as [Hz|_]; [congruence|].
      apply Hw.
  - unfold warned. destruct (production E); reflexivity.
  - unfold warned. destruct (production E); reflexivity.
  - unfold warned. destruct (production E).
    + unfold since. rewrite drop_all. reflexivity.
    + erewrite since_app by reflexivity. reflexivity.
Qed.

(** [del(data, '__ob__')] on root data, which owns the key *)
Lemma del_root_guard_witness :
  Index.del (plain_env false false) 0 (VRef 0) (Api.KName "__ob__") root_obj
  = Done tt (warned (plain_env false false) WarnDelRoot root_obj) /\
  Obj.hasOwn "__ob__" (mk_obj KPlain [("__ob__"%string, PMarker 0)]) = true.
Proof.
  split; [|reflexivity].
  refine (proj1 (del_root_guard (plain_env false false) 0 root_obj 0
                   (mk_obj KPlain [("__ob__"%string, PMarker 0)])
                   (Api.KName "__ob__") eq_refl eq_refl _)).
  right. exists 0, (ObserverI 0 0 1).
  split; [reflexivity|]. split; [reflexivity|]. simpl. lia.
Defined.

(** X9: on an object that is no component instance and whose [__ob__],
    read along the prototype chain, is absent, a primitive value, or the
    object's own marker with an Observer whose [vmCount] is 0, [del] of a
    key that the object does not own (and that is no index of a list) does
    nothing at all: the store is as it was, so that nothing is notified; a
    key the target only inherits counts as not owned. *)
Theorem del_missing_key (E : env) (fuel : nat) (s : state) (l : nat)
    (o : jsobj) (k : Api.key) :
  heap s !! l = Some o ->
  Obj.isArray o && Api.isValidArrayIndex k = false ->
  o_isVue o = false ->
  Obj.read_ob o <> Obj.ObOther ->
  (forall ob, Obj.marker o = Some ob ->
     exists x, observers s !! ob = Some x /\ ob_vmCount x = 0) ->
  Obj.hasOwn (Api.key_name k) o = false ->
  Index.del E fuel (VRef l) k s = Done tt s.
Proof.
  intros Hl Hidx Hvue Hother Hob Hown.
  rewrite (del_object_eq E fuel l o k s Hl Hidx Hvue).
  assert (Hd : forall x, Index.del_own E l (Api.key_name k) x s = Done tt s).
  { intros x. unfold Index.del_own.
    erewrite bind_done by (apply get_eq; exact Hl). rewrite Hown. reflexivity. }
  destruct (Obj.read_ob o) as [|ob| |] eqn:Hr.
  - apply Hd.
  - destruct (Hob ob) as (x & Hx & Hc).
    { revert Hr. unfold Obj.read_ob, Obj.marker.
      destruct (Obj.lookup_prop "__ob__" (o_props o)) as [[v ? ? ?| |]|];
        try discriminate.
      - destruct v; try discriminate; destruct (Obj.truthy _); discriminate.
      - intros [= ->]. reflexivity.
      - destruct (Obj.mem _ _); discriminate. }
    erewrite bind_done
      by (unfold Observer.get_observer; rewrite Hx; reflexivity).
    rewrite Hc. apply Hd.
  - rewrite Hown. reflexivity.
  - congruence.
Qed.

(** [del(data, 'zz')] on the observed [{ a: 1 }] *)
Lemma del_missing_key_witness :
  Index.del (plain_env false false) 0 (VRef 0) (Api.KName "zz") observed_a
  = Done tt observed_a.
Proof.
  refine (del_missing_key (plain_env false false) 0 observed_a 0
            (mk_obj KPlain [("a"%string, reactive_prop 0 None None);
                            ("__ob__"%string, PMarker 0)])
            (Api.KName "zz") eq_refl eq_refl eq_refl _ _ eq_refl).
  - discriminate.
  - intros ob [= <-]. exists (ObserverI 0 0 0). split; reflexivity.
Defined.

Lemma delete_own l o name p s :
  heap s !! l = Some o ->
  Obj.lookup_prop name (o_props o) = Some p ->
  Obj.configurable p = true ->
  Index.delete l name s
  = Done tt (set_heap (<[l := Obj.with_props
                               (Index.remove_prop name (o_props o)) o]>
                         (heap s)) s).
Proof.
  intros Hl Hp Hc. unfold Index.delete.
  erewrite bind_done by (apply get_eq; exact Hl). rewrite Hp, Hc. reflexivity.
Qed.

Lemma hasOwn_lookup name o p :
  Obj.lookup_prop name (o_props o) = Some p -> Obj.hasOwn name o = true.
Proof. intros H. unfold Obj.hasOwn. rewrite H. reflexivity. Qed.

(** X10: on an observed object that is not root-tracked, [del] of an own
    configurable property removes that property and no other, and enters
    [notify] exactly once on the dependency node of the object's
    Observer, whose subscribers are updated in dispatch order; the
    property's own dependency node is not notified. *)
Theorem del_own_key (E : env) (fuel : nat) (s : state) (l : nat)
    (o : jsobj) (ob : nat) (x : observer) (k : Api.key) (p : prop) :
  heap s !! l = Some o ->
  Obj.isArray o && Api.isValidArrayIndex k = false ->
  o_isVue o = false ->
  Obj.marker o = Some ob ->
  observers s !! ob = Some x ->
  ob_vmCount x = 0 ->
  Obj.lookup_prop (Api.key_name k) (o_props o) = Some p ->
  Obj.configurable p = true ->
  exists s',
    Index.del E fuel (VRef l) k s = Done tt s' /\
    heap s' !! l
    = Some (Obj.with_props
              (Index.remove_prop (Api.key_name k) (o_props o)) o) /\
    Obj.lookup_prop (Api.key_name k)
      (Index.remove_prop (Api.key_name k) (o_props o)) = None /\
    (forall k', k' <> Api.key_name k ->
       Obj.lookup_prop k' (Index.remove_prop (Api.key_name k) (o_props o))
       = Obj.lookup_prop k' (o_props o)) /\
    observers s' = observers s /\ closures s' = closures s /\
    notifies_of (ob_dep x) (since s s') = 1 /\
    (forall d, d <> ob_dep x -> notifies_of d (since s s') = 0) /\
    updates_of (since s s') = Dep.dispatch_order E (Dep.subs_of s (ob_dep x)).
Proof.
  intros Hl Hidx Hvue Hm Hx Hc Hp Hconf.
  assert (Hlt : l < length (heap s)) by (eapply lookup_lt_Some; eauto).
  set (o' := Obj.with_props (Index.remove_prop (Api.key_name k) (o_props o)) o).
  set (s1 := set_heap (<[l := o']> (heap s)) s).
  exists (notified E (ob_dep x) s1).
  split; [|split; [|split; [|split; [|split; [reflexivity|
          split; [reflexivity|split; [|split]]]]]]].
  - rewrite (del_object_eq E fuel l o k s Hl Hidx Hvue).
    rewrite (marker_read_ob _ _ Hm).
    erewrite bind_done
      by (unfold Observer.get_observer; rewrite Hx; reflexivity).
    rewrite Hc. simpl. unfold Index.del_own.
    erewrite bind_done by (apply get_eq; exact Hl).
    rewrite (hasOwn_lookup _ _ _ Hp). simpl.
    erewrite bind_done by (eapply delete_own; eauto).
    apply notified_eq.
  - simpl. apply list_lookup_insert_eq. exact Hlt.
  - apply lookup_remove_eq.
  - intros k' Hne. apply lookup_remove_ne. exact Hne.
  - apply (notified_count E (ob_dep x) s1).
  - intros d Hd. unfold notified. erewrite since_app by reflexivity.
    simpl. destruct (Nat.eqb_spec d (ob_dep x)) as [->|_]; [congruence|].
    simpl. apply notifies_of_updates.
  - apply (notified_count E (ob_dep x) s1).
Qed.

(** [del(data, 'a')] on the observed [{ a: 1 }], whose Observer has the
    subscriber [w2] and whose property [a] has the subscriber [w1] *)
Lemma del_own_key_witness :
  exists s',
    Index.del (plain_env false false) 0 (VRef 0) (Api.KName "a") observed_a
    = Done tt s' /\
    heap s' !! 0 = Some (mk_obj KPlain [("__ob__"%string, PMarker 0)]) /\
    updates_of (since observed_a s') = [w2].
Proof.
  destruct (del_own_key (plain_env false false) 0 observed_a 0
              (mk_obj KPlain [("a"%string, reactive_prop 0 None None);
                              ("__ob__"%string, PMarker 0)])
              0 (ObserverI 0 0 0) (Api.KName "a") (reactive_prop 0 None None)
              eq_refl eq_refl eq_refl eq_refl eq_refl eq_refl eq_refl eq_refl)
    as (s' & H1 & H2 & _ & _ & _ & _ & _ & _ & H4).
  exists s'. split; [exact H1|]. split; [exact H2|exact H4].
Defined.

(** X11: on an object that is no component instance and has no [__ob__],
    own or inherited, or a falsy one, [del] of an own configurable
    property (no index of a list) is the plain [delete]: the property is
    removed and nothing is notified. *)
Theorem del_unobserved (E : env) (fuel : nat) (s : state) (l : nat)
    (o : jsobj) (k : Api.key) (p : prop) :
  heap s !! l = Some o ->
  Obj.isArray o && Api.isValidArrayIndex k = false ->
  o_isVue o = false ->
  Obj.read_ob o = Obj.ObFalsy ->
  Obj.lookup_prop (Api.key_name k) (o_props o) = Some p ->
  Obj.configurable p = true ->
  exists s',
    Index.del E fuel (VRef l) k s = Done tt s' /\
    heap s' !! l
    = Some (Obj.with_props
              (Index.remove_prop (Api.key_name k) (o_props o)) o) /\
    Obj.lookup_prop (Api.key_name k)
      (Index.remove_prop (Api.key_name k) (o_props o)) = None /\
    observers s' = observers s /\ deps s' = deps s /\
    closures s' = closures s /\ trace s' = trace s.
Proof.
  intros Hl Hidx Hvue Hr Hp Hconf.
  assert (Hlt : l < length (heap s)) by (eapply lookup_lt_Some; eauto).
  eexists. split; [|split; [|split; [apply lookup_remove_eq|]]].
  - rewrite (del_object_eq E fuel l o k s Hl Hidx Hvue). rewrite Hr.
    unfold Index.del_own.
    erewrite bind_done by (apply get_eq; exact Hl).
    rewrite (hasOwn_lookup _ _ _ Hp). simpl.
    erewrite bind_done by (eapply delete_own; eauto). reflexivity.
  - simpl. apply list_lookup_insert_eq. exact Hlt.
  - repeat split.
Qed.

(** [del(data, 'a')] on [{ a: 1, b: [] }] before it is observed *)
Lemma del_unobserved_witness :
  exists s',
    Index.del (plain_env false false) 0 (VRef 0) (Api.KName "a") fresh_data
    = Done tt s' /\
    heap s' !! 0
    = Some (mk_obj KPlain [("b"%string, PData (VRef 1) true true true)]) /\
    trace s' = [].
Proof.
  destruct (del_unobserved (plain_env false false) 0 fresh_data 0
              (mk_obj KPlain [("a"%string, PData (VNum 1) true true true);
                              ("b"%string, PData (VRef 1) true true true)])
              (Api.KName "a") (PData (VNum 1) true true true)
              eq_refl eq_refl eq_refl eq_refl eq_refl eq_refl)
    as (s' & H1 & H2 & _ & _ & _ & _ & H3).
  exists s'. split; [exact H1|]. split; [exact H2|exact H3].
Defined.

(** ** set of a new key *)

Lemma has_false k o :
  Obj.has k o = false ->
  Obj.lookup_prop k (o_props o) = None /\
  Obj.isArray o && String.eqb k "length" = false /\
  Obj.ownMutator k o = false /\
  Obj.mem k (o_inherited o) = false.
Proof.
  unfold Obj.has, Obj.hasOwn. intros H.
  apply orb_false_elim in H as [H _]. apply orb_false_elim in H as [H Hi].
  destruct (Obj.lookup_prop k (o_props o)); [discriminate|].
  apply orb_false_elim in H as [H1 H2]. auto.
Qed.





(** X13: on an extensible object that is no component instance and has
    no [__ob__], own or inherited, or a falsy one, [set] of a key that is
    not in the object (neither own nor inherited), other than [_isVue]
    and, on a list, the names of the seven mutating methods, is the plain
    assignment: it needs no fuel, returns [val], adds an
    enumerable, writable, configurable data property that holds [val],
    notifies nothing and creates neither Observer nor closure nor
    dependency node; [val] is not observed. *)
Theorem set_unobserved_new_key (E : env) (fuel : nat) (s : state) (l : nat)
    (o : jsobj) (k : Api.key) (val : value) :
  heap s !! l = Some o ->
  Obj.isArray o && Api.isValidArrayIndex k = false ->
  Obj.has (Api.key_name k) o = false ->
  Api.key_name k <> "_isVue"%string ->
  Obj.mutatorName (Api.key_name k) o = false ->
  o_isVue o = false ->
  Obj.read_ob o = Obj.ObFalsy ->
  o_extensible o = true ->
  exists s',
    Api.set E fuel (VRef l) k val s = Done val s' /\
    heap s' !! l
    = Some (Obj.with_props
              (Obj.store_prop (Api.key_name k) (PData val true true true)
                 (o_props o)) o) /\
    (forall l', l' <> l -> heap s' !! l' = heap s !! l') /\
    observers s' = observers s /\ deps s' = deps s /\
    closures s' = closures s /\ trace s' = trace s /\
    (forall f, Observer.read_prop E f l (Api.key_name k) s' = Done val s').
Proof.
  intros Hl Hidx Hhas Hvk Hmut Hvue Hr Hext.
  apply String.eqb_neq in Hvk.
  destruct (has_false _ _ Hhas) as (Hk & Hlen & _ & Hinh).
  assert (Hlt : l < length (heap s)) by (eapply lookup_lt_Some; eauto).
  assert (Hproto : String.eqb (Api.key_name k) "__proto__" = false).
  { destruct (String.eqb_spec (Api.key_name k) "__proto__") as [Heq|];
      [|reflexivity].
    unfold Obj.has in Hhas. rewrite Heq in Hhas.
    rewrite orb_true_r in Hhas. discriminate. }
  set (o' := Obj.with_props
               (Obj.store_prop (Api.key_name k) (PData val true true true)
                  (o_props o)) o).
  exists (set_heap (<[l := o']> (heap s)) s).
  assert (Hl' : heap (set_heap (<[l := o']> (heap s)) s) !! l = Some o')
    by (simpl; apply list_lookup_insert_eq; exact Hlt).
  split; [|split; [exact Hl'|split; [|repeat (split; [reflexivity|])]]].
  - unfold Api.set. simpl Api.undef_or_primitive. rewrite andb_false_r.
    unfold when at 1. erewrite bind_done by reflexivity.
    erewrite bind_done by (apply get_eq; exact Hl).
    rewrite Hidx, Hhas. cbv beta iota zeta. rewrite andb_false_l, Hvue, Hr.
    erewrite bind_done; [reflexivity|].
    unfold Api.assign. erewrite bind_done by (apply get_eq; exact Hl).
    rewrite Hk, Hlen, Hproto, Hvk, Hinh, Hmut, Hext. reflexivity.
  - intros l' Hne. simpl. apply list_lookup_insert_ne. congruence.
  - intros f. unfold Observer.read_prop.
    erewrite bind_done by (apply get_eq; exact Hl').
    assert (Hp : Obj.lookup_prop (Api.key_name k) (o_props o')
                 = Some (PData val true true true))
      by apply lookup_store_eq.
    rewrite Hp. reflexivity.
Qed.

(** [set(data, 'c', 5)] on [{ a: 1, b: [] }] before it is observed *)
Lemma set_unobserved_new_key_witness :
  exists s',
    Api.set (plain_env false false) 0 (VRef 0) (Api.KName "c") (VNum 5)
            fresh_data = Done (VNum 5) s' /\
    Observer.read_prop (plain_env false false) 0 0 "c" s' = Done (VNum 5) s' /\
    trace s' = [].
Proof.
  destruct (set_unobserved_new_key (plain_env false false) 0 fresh_data 0
              (mk_obj KPlain [("a"%string, PData (VNum 1) true true true);
                              ("b"%string, PData (VRef 1) true true true)])
              (Api.KName "c") (VNum 5)
              eq_refl eq_refl eq_refl ltac:(discriminate)
              eq_refl eq_refl eq_refl eq_refl)
    as (s' & H1 & _ & _ & _ & _ & _ & H2 & H3).
  exists s'. split; [exact H1|]. split; [exact (H3 0)|exact H2].
Defined.

(** ** observe on a value it does not take *)

Lemma not_observable E s o :
  observable E s o = false -> Obj.isVNode o = false ->
  Obj.marker o = None /\
  shouldObserve s && negb (serverRendering E)
  && (Obj.isArray o || Obj.isPlainObject o) && o_extensible o
  && negb (o_isVue o) = false.
Proof.
  unfold observable, Wf.is_unmarked. intros H Hv. rewrite Hv in H. simpl in H.
  destruct (Obj.marker o); [discriminate|]. auto.
Qed.

Lemma observe_refuses_eq E fuel asRootData s l o :
  heap s !! l = Some o ->
  observable E s o = false ->
  Observer.observe E (S fuel) asRootData (VRef l) s = Done None s.
Proof.
  intros Hl Hobs. simpl.
  erewrite bind_done by (apply get_eq; exact Hl).
  destruct (Obj.isVNode o) eqn:Hv; [reflexivity|].
  destruct (not_observable E s o Hobs Hv) as [Hm Hg].
  erewrite bind_done by reflexivity. rewrite Hm, Hg. reflexivity.
Qed.

(** X14: [observe] of an object that is not observable (a render node;
    or an object without marker when observation is switched off, on the
    server, or when the object is neither a list nor a plain object, is
    not extensible, or is a Vue instance) returns no Observer and leaves
    the store exactly as it was, whatever [asRootData] is. *)
Theorem observe_refuses (E : env) (fuel : nat) (asRootData : bool)
    (s : state) (l : nat) (o : jsobj) :
  heap s !! l = Some o ->
  observable E s o = false ->
  Observer.observe E (S fuel) asRootData (VRef l) s = Done None s.
Proof. apply observe_refuses_eq. Qed.

(** [observe] of a frozen object *)
Lemma observe_refuses_witness :
  Observer.observe (plain_env false false) 1 true (VRef 0)
    (State [JsObj KPlain false false [] ProtoArray false [] []]
           [] [] [] None [] true [])
  = Done None
      (State [JsObj KPlain false false [] ProtoArray false [] []]
             [] [] [] None [] true []).
Proof.
  exact (observe_refuses (plain_env false false) 0 true
           (State [JsObj KPlain false false [] ProtoArray false [] []]
                  [] [] [] None [] true [])
           0 (JsObj KPlain false false [] ProtoArray false [] [])
           eq_refl eq_refl).
Defined.

(** X15: after [toggleObserving(false)], [observe] gives an object that
    is no render node and has no Observer none, and changes nothing but
    the switch; an object that is no render node and has an Observer
    already still gets it back (and is counted as root data when
    asked). *)
Theorem toggle_off_blocks (E : env) (fuel : nat) (asRootData : bool)
    (s : state) (l : nat) (o : jsobj) :
  heap s !! l = Some o ->
  Obj.isVNode o = false ->
  (Index.toggleObserving false ;;;
   Observer.observe E (S fuel) asRootData (VRef l)) s
  = match Obj.marker o with
    | None => Done None (toggled false s)
    | Some ob => Done (Some ob) (after_root asRootData ob (toggled false s))
    end.
Proof.
  intros Hl Hv.
  erewrite bind_done with (a := tt) (s' := toggled false s) by reflexivity.
  destruct (Obj.marker o) as [ob|] eqn:Hm.
  - eapply observe_marked_eq; eauto.
  - apply observe_refuses_eq with (o := o); [exact Hl|].
    unfold observable, Wf.is_unmarked. rewrite Hv, Hm. reflexivity.
Qed.

(** [toggleObserving(false)], then [observe] of [{ a: 1, b: [] }] *)
Lemma toggle_off_blocks_witness :
  (Index.toggleObserving false ;;;
   Observer.observe (plain_env false false) 1 false (VRef 0)) fresh_data
  = Done None (toggled false fresh_data).
Proof.
  exact (toggle_off_blocks (plain_env false false) 0 false fresh_data 0
           (mk_obj KPlain [("a"%string, PData (VNum 1) true true true);
                           ("b"%string, PData (VRef 1) true true true)])
           eq_refl eq_refl).
Defined.

(** ** Reading a property *)

Lemma call_getter_untracked E f cs g v s :
  peek_getter E cs g = Some v -> closures s = cs -> target s = None ->
  Observer.call_getter E f g s = Done v s.
Proof.
  intros Hp <- Ht. revert v Hp.
  assert (Hcol : forall c v, Observer.collect E f c v s = Done tt s).
  { intros c v. unfold Observer.collect, get_state, bind. rewrite Ht.
    reflexivity. }
  induction g as [n|c|c g' IH] using getter_ind'; intros v Hp; simpl in *.
  - injection Hp as <-. reflexivity.
  - destruct (closures s !! c) as [cl|] eqn:Hc; [|discriminate].
    injection Hp as <-.
    erewrite bind_done.
    2:{ erewrite bind_done
          by (unfold Observer.get_closure; rewrite Hc; reflexivity).
        reflexivity. }
    erewrite bind_done by apply Hcol. reflexivity.
  - erewrite bind_done by (apply IH; exact Hp).
    erewrite bind_done by apply Hcol. reflexivity.
Qed.

(** X16: with no active consumer, reading a property changes nothing: when
    [obj[key]] has a value, [read_prop] returns it, for any fuel, and
    leaves the store exactly as it was; no dependency is recorded. *)
Theorem read_untracked_pure (E : env) (f : nat) (s : state) (l : nat)
    (k : string) (v : value) :
  peek E s l k = Some v ->
  target s = None ->
  Observer.read_prop E f l k s = Done v s.
Proof.
  unfold peek, peek_obj, Observer.read_prop. intros Hp Ht.
  destruct (heap s !! l) as [o|] eqn:Hl; [|discriminate].
  erewrite bind_done by (apply get_eq; exact Hl).
  destruct (Obj.lookup_prop k (o_props o)) as [[v0 e w c| |[g|] st e c]|].
  - injection Hp as <-. reflexivity.
  - discriminate.
  - eapply call_getter_untracked; eauto.
  - injection Hp as <-. reflexivity.
  - destruct (Obj.isArray o && String.eqb k "length");
      [injection Hp as <-; reflexivity|].
    destruct (Obj.mem k (o_inherited o) || Obj.mem k Obj.objectPrototypeKeys
              || Obj.mutatorName k o);
      [discriminate|]. injection Hp as <-. reflexivity.
Qed.

(** reading the reactive [a] of the observed [{ a: 1 }] *)
Lemma read_untracked_pure_witness :
  Observer.read_prop (plain_env false false) 0 0 "a" observed_a
  = Done (VNum 1) observed_a.
Proof.
  exact (read_untracked_pure (plain_env false false) 0 observed_a 0 "a"
           (VNum 1) eq_refl eq_refl).
Defined.

Lemma call_getter_peek E f g s v s' :
  Observer.call_getter E f g s = Done v s' ->
  peek_getter E (closures s) g = Some v.
Proof.
  revert s v s'.
  induction g as [n|c|c g' IH] using getter_ind'; intros s v s' H;
    simpl in *.
  - inversion H; subst. reflexivity.
  - apply bind_inv in H as (v0 & s0 & H1 & H).
    apply bind_inv in H1 as (cl & s1 & H1 & H2).
    unfold Observer.get_closure in H1.
    destruct (closures s !! c) as [cl0|] eqn:Hc; [|discriminate].
    inversion H1; subst cl0 s1. inversion H2; subst v0 s0.
    apply bind_inv in H as ([] & s2 & _ & H). inversion H; subst.
    reflexivity.
  - apply bind_inv in H as (v0 & s0 & H1 & H).
    apply bind_inv in H as ([] & s2 & _ & H). inversion H; subst.
    eapply IH; eauto.
Qed.

(** X17: whoever the active consumer is, a read that returns gives the
    value [obj[key]] has, and changes only subscriptions and the record
    of dependencies: heap, Observers, closures and the active consumer are
    as before, and nothing is notified or updated. *)
Theorem read_returns_peek (E : env) (f : nat) (s s' : state) (l : nat)
    (k : string) (v : value) :
  Observer.read_prop E f l k s = Done v s' ->
  peek E s l k = Some v /\
  heap s' = heap s /\ observers s' = observers s /\
  closures s' = closures s /\ target s' = target s /\
  (forall d, notifies_of d (since s s') = 0) /\
  updates_of (since s s') = [].
Proof.
  intros H. split.
  - unfold peek, peek_obj, Observer.read_prop in *.
    apply bind_inv in H as (o & s0 & H1 & H).
    apply get_inv in H1 as [-> Hl]. rewrite Hl.
    destruct (Obj.lookup_prop k (o_props o)) as [[v0 e w c| |[g|] st e c]|].
    + inversion H; subst. reflexivity.
    + discriminate.
    + eapply call_getter_peek; eauto.
    + inversion H; subst. reflexivity.
    + destruct (Obj.isArray o && String.eqb k "length");
        [inversion H; subst; reflexivity|].
      destruct (Obj.mem k (o_inherited o)
                || Obj.mem k Obj.objectPrototypeKeys || Obj.mutatorName k o); [discriminate|].
      inversion H; subst. reflexivity.
  - pose proof (read_prop_dep_only E f l k s v s' H) as Hd.
    split; [eapply dep_only_heap; eauto|].
    split; [eapply dep_only_observers; eauto|].
    split; [destruct Hd as (? & ? & -> & _); reflexivity|].
    split; [eapply dep_only_target; eauto|].
    split; [intros d; eapply dep_only_notifies; eauto
           |eapply dep_only_updates; eauto].
Qed.

(** reading [data.k], a list of lists, by the consumer [w1] *)
Lemma read_returns_peek_witness :
  exists s',
    Observer.read_prop (plain_env false false) 3 0 "k" nested_deep
    = Done (VRef 1) s' /\
    peek (plain_env false false) nested_deep 0 "k" = Some (VRef 1) /\
    heap s' = heap nested_deep.
Proof.
  assert (H : exists s',
             Observer.read_prop (plain_env false false) 3 0 "k" nested_deep
             = Done (VRef 1) s')
    by (eexists; vm_compute; reflexivity).
  destruct H as [s' H]. exists s'. split; [exact H|].
  destruct (read_returns_peek (plain_env false false) 3 nested_deep s'
              0 "k" (VRef 1) H) as (H1 & H2 & _).
  split; [exact H1|exact H2].
Defined.

(** ** Observation does not change what properties read as *)

#[export] Instance transparent_preorder E : PreOrder (transparent E).
Proof.
  split.
  - intros s. split; [reflexivity|auto].
  - intros s1 s2 s3 [P1 H1] [P2 H2]. split; [etransitivity; eauto|].
    intros l k v Hk H. apply H2; auto.
Qed.

Lemma peek_getter_prefix E cs cs' g v :
  cs `prefix_of` cs' ->
  peek_getter E cs g = Some v -> peek_getter E cs' g = Some v.
Proof.
  intros P. induction g as [n|c|c g' IH] using getter_ind'; simpl; auto.
  destruct (cs !! c) as [cl|] eqn:Hc; [|discriminate].
  rewrite (prefix_lookup_Some _ _ _ _ Hc P). auto.
Qed.

Lemma peek_obj_prefix E cs cs' o k v :
  cs `prefix_of` cs' ->
  peek_obj E cs o k = Some v -> peek_obj E cs' o k = Some v.
Proof.
  intros P. unfold peek_obj.
  destruct (Obj.lookup_prop k (o_props o)) as [[| |[g|]]|]; auto.
  apply peek_getter_prefix. exact P.
Qed.

Lemma transparent_heap E s s' :
  heap s' = heap s -> closures s `prefix_of` closures s' -> transparent E s s'.
Proof.
  intros Hh P. split; [exact P|]. intros l k v _. unfold peek. rewrite Hh.
  destruct (heap s !! l); [|auto]. apply peek_obj_prefix. exact P.
Qed.

Lemma dep_only_transparent E s s' : dep_only s s' -> transparent E s s'.
Proof.
  intros (D & t & -> & _). apply transparent_heap; reflexivity.
Qed.

Lemma put_transparent E l o o' s :
  heap s !! l = Some o ->
  (forall k v, k <> "__ob__"%string ->
     peek_obj E (closures s) o k = Some v ->
     peek_obj E (closures s) o' k = Some v) ->
  transparent E s (set_heap (<[l := o']> (heap s)) s).
Proof.
  intros Hl H. split; [reflexivity|]. intros l' k v Hk. unfold peek. simpl.
  destruct (decide (l' = l)) as [->|Hne].
  - rewrite list_lookup_insert_eq by (eapply lookup_lt_Some; eauto).
    rewrite Hl. apply H. exact Hk.
  - rewrite list_lookup_insert_ne by congruence. auto.
Qed.

Lemma peek_obj_store E cs o k p k' :
  k' <> k ->
  peek_obj E cs (Obj.with_props (Obj.store_prop k p (o_props o)) o) k'
  = peek_obj E cs o k'.
Proof.
  intros Hne. unfold peek_obj. simpl. rewrite lookup_store_ne by exact Hne.
  reflexivity.
Qed.

Lemma marker_store_ne o k p :
  k <> "__ob__"%string ->
  Obj.marker (Obj.with_props (Obj.store_prop k p (o_props o)) o)
  = Obj.marker o.
Proof.
  intros Hne. unfold Obj.marker. simpl.
  rewrite lookup_store_ne by congruence. reflexivity.
Qed.

Lemma read_prop_peek E f l k s v s' :
  Observer.read_prop E f l k s = Done v s' -> peek E s l k = Some v.
Proof.
  unfold peek, peek_obj, Observer.read_prop. intros H.
  apply bind_inv in H as (o & s0 & H1 & H).
  apply get_inv in H1 as [-> Hl]. rewrite Hl.
  destruct (Obj.lookup_prop k (o_props o)) as [[v0 e w c| |[g|] st e c]|].
  - inversion H; subst. reflexivity.
  - discriminate.
  - eapply call_getter_peek; eauto.
  - inversion H; subst. reflexivity.
  - destruct (Obj.isArray o && String.eqb k "length");
      [inversion H; subst; reflexivity|].
    destruct (Obj.mem k (o_inherited o)
              || Obj.mem k Obj.objectPrototypeKeys || Obj.mutatorName k o); [discriminate|].
    inversion H; subst. reflexivity.
Qed.

Section ObserveTransparent.
Variable E : env.
Variable obs : value -> M (option nat).
Hypothesis obs_transparent : forall v, respects (transparent E) (obs v).
Hypothesis obs_keeps : forall v, respects (keeps_marked []) (obs v).

(** [defineReactive(obj, key)] on an object that carries the marker: the
    accessor it installs reads as the property did *)
Lemma defineReactive_transparent fuel obj key s a s' o ob :
  key <> "__ob__"%string -> heap s !! obj = Some o ->
  Obj.marker o = Some ob ->
  Observer.defineReactive_with E obs fuel obj key Observer.Args2 s
  = Done a s' ->
  transparent E s s' /\
  exists o', heap s' !! obj = Some o' /\ Obj.marker o' = Some ob.
Proof.
  intros Hk Hl Hm H. unfold Observer.defineReactive_with in H.
  apply bind_inv in H as (dep & s1 & H1 & H).
  assert (T1 : transparent E s s1)
    by (inversion H1; apply transparent_heap; reflexivity).
  assert (Hl1 : heap s1 !! obj = Some o) by (inversion H1; exact Hl).
  clear H1.
  apply bind_inv in H as (o1 & s1' & H1 & H).
  apply get_inv in H1 as [-> Hl1']. rewrite Hl1 in Hl1'.
  injection Hl1' as <-.
  match type of H with (if ?b then _ else _) _ = _ => destruct b eqn:Hnc end.
  { inversion H; subst. split; [exact T1|]. exists o. auto. }
  apply bind_inv in H as (val & s2 & H2 & H).
  cbv beta iota zeta in H.
  apply bind_inv in H as (childOb & s3 & H3 & H).
  apply bind_inv in H as (c & s4 & H4 & H).
  apply defineProperty_inv in H as (o4 & Hl4 & ->).
  set (getter := match Obj.getOwnPropertyDescriptor key o with
                 | Some p => Obj.prop_get p | None => None end) in *.
  assert (Hval : getter = None -> peek_obj E (closures s1) o key = Some val).
  { intros Hg. rewrite Hg in H2. simpl in H2.
    apply read_prop_peek in H2. unfold peek in H2. rewrite Hl1 in H2.
    exact H2. }
  assert (D2 : dep_only s1 s2).
  { match type of H2 with (if ?b then _ else _) _ = _ => destruct b end.
    - eapply read_prop_dep_only; eauto.
    - inversion H2; subst. reflexivity. }
  assert (Hl2 : heap s2 !! obj = Some o)
    by (rewrite (dep_only_heap _ _ D2); exact Hl1).
  assert (Hl3 : heap s3 !! obj = Some o).
  { pose proof (obs_keeps val _ _ _ H3) as K3.
    apply K3; [exact Hl2| |intros []].
    unfold Wf.is_unmarked. rewrite Hm. reflexivity. }
  assert (Hs4 : s4 = set_closures
                  (closures s3
                   ++ [Closure obj dep val childOb false false]) s3
                /\ c = length (closures s3)).
  { inversion H4; subst. auto. }
  destruct Hs4 as [-> ->]. simpl in Hl4. rewrite Hl3 in Hl4.
  injection Hl4 as <-.
  split.
  - etransitivity; [exact T1|].
    etransitivity; [apply dep_only_transparent; exact D2|].
    etransitivity; [eapply obs_transparent; exact H3|].
    etransitivity.
    { apply (transparent_heap E s3
               (set_closures
                  (closures s3 ++ [Closure obj dep val childOb false false])
                  s3)); [reflexivity|].
      apply prefix_app_r. reflexivity. }
    apply put_transparent with (o := o); [exact Hl3|].
    intros k v Hkm Hp. destruct (String.eqb_spec k key) as [->|Hne];
      [|rewrite peek_obj_store by exact Hne; exact Hp].
    simpl closures in *.
    unfold peek_obj at 1. simpl o_props. rewrite lookup_store_eq.
    simpl peek_getter.
    destruct getter as [g|] eqn:Hg.
    + unfold getter in Hg. unfold Obj.getOwnPropertyDescriptor in Hg.
      unfold peek_obj in Hp.
      destruct (Obj.lookup_prop key (o_props o)) as [[| |[g0|]]|];
        simpl in Hg; try discriminate.
      * injection Hg as ->. exact Hp.
      * destruct (Obj.isArray o && String.eqb key "length"); discriminate.
    + rewrite list_lookup_middle by reflexivity. simpl.
      specialize (Hval eq_refl).
      assert (Hsame : peek_obj E (closures s3
                        ++ [Closure obj dep val childOb false false]) o key
                      = peek_obj E (closures s1) o key).
      { unfold getter in Hg. unfold Obj.getOwnPropertyDescriptor in Hg.
        unfold peek_obj.
        destruct (Obj.lookup_prop key (o_props o)) as [[| |[g0|]]|];
          simpl in Hg; try discriminate; reflexivity. }
      congruence.
  - eexists. split.
    + simpl. apply list_lookup_insert_eq. eapply lookup_lt_Some; eauto.
    + rewrite marker_store_ne by exact Hk. exact Hm.
Qed.

Lemma walk_keys_transparent fuel obj ks : forall s a s' o ob,
  ~ In "__ob__"%string ks -> heap s !! obj = Some o ->
  Obj.marker o = Some ob ->
  forEach (fun k => Observer.defineReactive_with E obs fuel obj k
                      Observer.Args2) ks s = Done a s' ->
  transparent E s s'.
Proof.
  induction ks as [|k ks IH]; intros s a s' o ob Hin Hl Hm H; simpl in H.
  - inversion H; subst. reflexivity.
  - apply bind_inv in H as ([] & s1 & H1 & H).
    destruct (defineReactive_transparent fuel obj k s tt s1 o ob)
      as (T1 & o1 & Hl1 & Hm1); auto.
    { intros ->. apply Hin. left. reflexivity. }
    etransitivity; [exact T1|].
    eapply (IH s1 a s' o1 ob); eauto.
    intros Hi. apply Hin. right. exact Hi.
Qed.

Lemma observeArray_transparent items :
  respects (transparent E) (Observer.observeArray_with obs items).
Proof.
  unfold Observer.observeArray_with. apply respects_forEach; [apply _|].
  intros e. apply respects_bind; [apply _|apply obs_transparent|].
  intros _. respects_pure.
Qed.

End ObserveTransparent.

Lemma augment_transparent E (hp : bool) l o s a s' :
  heap s !! l = Some o -> Obj.isArray o = true ->
  (if hp then Observer.protoAugment l else Observer.copyAugment l) s
  = Done a s' ->
  transparent E s s'.
Proof.
  intros Hl0 Harr H.
  destruct hp; apply bind_inv in H as (o' & s0 & H1 & H2);
    apply get_inv in H1 as [-> Hl]; apply put_inv in H2 as ->;
    assert (o' = o) as -> by congruence;
    (eapply put_transparent; [exact Hl|]); intros k v _ Hp;
    [exact Hp|].
  revert Hp. unfold peek_obj, Obj.mutatorName, Obj.isArray. simpl.
  unfold Obj.isArray in Harr. rewrite Harr. simpl. auto.
Qed.

(** [new Observer(value)] *)
Lemma construct_transparent E obs fuel l s ob s' :
  (forall v, respects (transparent E) (obs v)) ->
  (forall v, respects (keeps_marked []) (obs v)) ->
  Observer.construct_with E obs fuel l s = Done ob s' ->
  transparent E s s'.
Proof.
  intros HT HK H. unfold Observer.construct_with in H.
  apply bind_inv in H as (dep & s1 & H1 & H).
  assert (T1 : transparent E s s1)
    by (inversion H1; apply transparent_heap; reflexivity).
  apply bind_inv in H as (ob' & s2 & H2 & H).
  assert (T2 : transparent E s1 s2)
    by (inversion H2; apply transparent_heap; reflexivity).
  apply bind_inv in H as ([] & s3 & H3 & H).
  unfold Obj.def_marker in H3.
  apply defineProperty_inv in H3 as (o & Hl & Hs3).
  assert (T3 : transparent E s2 s3).
  { subst s3. eapply put_transparent; [exact Hl|].
    intros k v Hk Hp. rewrite peek_obj_store by exact Hk. exact Hp. }
  apply bind_inv in H as (o3 & s3' & H4 & H).
  apply get_inv in H4 as [-> Hl3].
  assert (Hm3 : Obj.marker o3 = Some ob').
  { subst s3. simpl in Hl3.
    rewrite list_lookup_insert_eq in Hl3 by (eapply lookup_lt_Some; eauto).
    injection Hl3 as <-. unfold Obj.marker. simpl.
    rewrite lookup_store_eq. reflexivity. }
  apply bind_inv in H as ([] & s4 & H5 & H).
  inversion H; subst ob s'; clear H.
  etransitivity; [exact T1|]. etransitivity; [exact T2|].
  etransitivity; [exact T3|].
  destruct (Obj.isArray o3) eqn:Harr3.
  - apply bind_inv in H5 as ([] & s3a & Ha & Hb).
    etransitivity;
      [eapply augment_transparent; [exact Hl3|exact Harr3|exact Ha]|].
    eapply observeArray_transparent; eauto.
  - unfold Observer.walk_with in H5.
    apply bind_inv in H5 as (o3' & s3a & Ha & Hb).
    apply get_inv in Ha as [-> Hl3'].
    assert (o3' = o3) as -> by congruence.
    eapply walk_keys_transparent; eauto. eapply marker_not_key; eauto.
Qed.

Lemma observe_transparent_all E fuel : forall r v,
  respects (transparent E) (Observer.observe E fuel r v).
Proof.
  induction fuel as [|f IH]; intros r v; simpl.
  - apply respects_out_of_fuel.
  - destruct v; try (respects_pure).
    intros s a s' H. apply bind_inv in H as (o & s0 & H1 & H).
    apply get_inv in H1 as [-> Hl].
    destruct (Obj.isVNode o); [inversion H; subst; reflexivity|].
    apply bind_inv in H as (s0 & s0' & H1 & H). inversion H1; subst s0 s0'.
    apply bind_inv in H as (ob & s1 & H2 & H).
    assert (G : transparent E s s1).
    { destruct (Obj.marker o) eqn:Hm.
      - inversion H2; subst. reflexivity.
      - match type of H2 with (if ?b then _ else _) _ = _ => destruct b end;
          [|inversion H2; subst; reflexivity].
        apply bind_inv in H2 as (ob' & s2 & H3 & H4). inversion H4; subst.
        eapply construct_transparent; [| |exact H3].
        + intros v. apply IH.
        + intros v. apply observe_keeps. }
    destruct ob; [|inversion H; subst; exact G].
    apply bind_inv in H as ([] & s2 & H3 & H4). inversion H4; subst.
    etransitivity; [exact G|].
    destruct r; inversion H3; subst; [|reflexivity].
    apply transparent_heap; reflexivity.
Qed.

(** X18: observation does not change what the data reads as.  On a
    well-formed store and with enough fuel, [observe(value)] returns, and
    afterwards every property of every object, the marker aside, that had
    a value has the same value, although the property may have become an
    accessor; and every list has the elements it had. *)
Theorem observe_transparent (E : env) (D fuel : nat) (v : value)
    (s : state) :
  Wf.wf E D s ->
  Wf.val_ok (length (heap s)) v = true ->
  Wf.unmarked (heap s) + D < fuel ->
  exists r s',
    Observer.observe E fuel false v s = Done r s' /\
    (forall l k x, k <> "__ob__"%string ->
       peek E s l k = Some x -> peek E s' l k = Some x) /\
    (forall l o, heap s !! l = Some o ->
       exists o', heap s' !! l = Some o' /\ o_elems o' = o_elems o).
Proof.
  intros Hwf Hv Hu.
  destruct (returns_inv _ _ _ (observe_returns E D fuel v s Hwf Hv Hu))
    as (r & s' & Hobs & _ & G & _).
  exists r, s'. split; [exact Hobs|]. split.
  - apply (observe_transparent_all E fuel false v s r s' Hobs).
  - intros l o Hl. destruct (grows_lookup _ _ _ _ G Hl) as (o' & Hl' & Hs).
    exists o'. split; [exact Hl'|]. apply Hs.
Qed.

(** [observe({ a: 1, b: [] })]: [a] and [b] become accessors and read as
    before *)
Lemma observe_transparent_witness :
  exists r s',
    Observer.observe (plain_env false false) 4 false (VRef 0) fresh_data
    = Done r s' /\
    peek (plain_env false false) s' 0 "a" = Some (VNum 1) /\
    peek (plain_env false false) s' 0 "b" = Some (VRef 1).
Proof.
  destruct (observe_transparent (plain_env false false) 1 4 (VRef 0)
              fresh_data eq_refl eq_refl ltac:(vm_compute; lia))
    as (r & s' & H1 & H2 & _).
  exists r, s'. split; [exact H1|]. split.
  - apply H2; [discriminate|reflexivity].
  - apply H2; [discriminate|reflexivity].
Defined.

(** ** Writing a reactive property *)




(** ** Root data *)

#[export] Instance counts_kept_preorder : PreOrder counts_kept.
Proof.
  split.
  - intros s. split; [reflexivity|]. intros i x Hi Hx.
    apply lookup_lt_Some in Hx. lia.
  - intros s1 s2 s3 [P1 H1] [P2 H2]. split; [etransitivity; eauto|].
    intros i x Hi Hx.
    destruct (Nat.lt_ge_cases i (length (observers s2))) as [Hlt|Hge].
    + apply lookup_lt_is_Some_2 in Hlt as [y Hy].
      pose proof (prefix_lookup_Some _ _ _ _ Hy P2) as Hy'.
      assert (y = x) as -> by congruence. eapply H1; eauto.
    + eapply H2; eauto.
Qed.






Section ObserveCounts.
Variable E : env.
Variable obs : value -> M (option nat).
Hypothesis obs_counts : forall v, respects counts_kept (obs v).



End ObserveCounts.









(** ** The constructor of Observer *)






(** ** walk *)



Section WalkEffect.
Variable E : env.
Variable obs : value -> M (option nat).
Hypothesis obs_keeps : forall v, respects (keeps_marked []) (obs v).



End WalkEffect.




(** ** Writing a property that has a getter or a setter of its own *)

Lemma dep_only_closures s s' : dep_only s s' -> closures s' = closures s.
Proof. intros (D & t & -> & _). reflexivity. Qed.

Lemma since_dep_only_app s s1 s2 t :
  dep_only s s1 -> trace s2 = trace s1 ++ t ->
  since s s2 = since s s1 ++ t.
Proof.
  intros H1 H2. apply since_app.
  rewrite H2, (dep_only_since _ _ H1), app_assoc. reflexivity.
Qed.

(** X24: a reactive property that had a getter and no setter cannot be
    written: an assignment of a value that differs from the one the getter
    returns changes neither heap nor closures nor Observers, notifies
    nothing and updates no consumer; at most dependencies of the getter
    are recorded; the property reads as before. *)
Theorem write_getter_only_ignored (E : env) (fuel : nat) (s s1 : state)
    (l : nat) (o : jsobj) (k : string) (c : nat) (g : getter)
    (cl : closure) (newVal value : value) :
  heap s !! l = Some o ->
  Obj.lookup_prop k (o_props o) = Some (reactive_prop c (Some g) None) ->
  closures s !! c = Some cl ->
  Observer.call_getter E fuel g s = Done value s1 ->
  strict_eq newVal value = false ->
  self_unequal newVal && self_unequal value = false ->
  exists s',
    Api.assign E fuel l k newVal s = Done tt s' /\
    heap s' = heap s /\ closures s' = closures s /\
    observers s' = observers s /\
    (forall d, notifies_of d (since s s') = 0) /\
    updates_of (since s s') = [] /\
    peek E s' l k = Some value.
Proof.
  intros Hl Hp Hc Hg Hne1 Hne2.
  pose proof (call_getter_dep_only E fuel g s value s1 Hg) as D1.
  pose proof (call_getter_peek E fuel g s value s1 Hg) as Hpk.
  set (pre := if negb (production E) && c_custom cl
              then [EvCustomSetter] else []).
  set (s2 := set_trace (trace s1 ++ pre) s1).
  exists s2.
  split; [|split; [|split; [|split; [|split; [|split]]]]].
  - unfold Api.assign. erewrite bind_done by (apply get_eq; exact Hl).
    rewrite Hp. unfold reactive_prop. simpl.
    erewrite bind_done by exact Hg. rewrite Hne1, Hne2. simpl.
    erewrite bind_done.
    2:{ unfold Observer.get_closure.
        rewrite (dep_only_closures _ _ D1), Hc. reflexivity. }
    erewrite bind_done with (a := tt) (s' := s2).
    2:{ unfold s2, pre, when, emit, modify, ret.
        destruct (negb (production E) && c_custom cl); [reflexivity|].
        rewrite app_nil_r. destruct s1; reflexivity. }
    reflexivity.
  - simpl. eapply dep_only_heap; eauto.
  - simpl. eapply dep_only_closures; eauto.
  - simpl. eapply dep_only_observers; eauto.
  - intros d. rewrite (since_dep_only_app s s1 s2 pre D1 eq_refl).
    rewrite notifies_of_app, (dep_only_notifies _ _ d D1).
    unfold pre. destruct (negb (production E) && c_custom cl); reflexivity.
  - rewrite (since_dep_only_app s s1 s2 pre D1 eq_refl).
    rewrite updates_of_app, (dep_only_updates _ _ D1).
    unfold pre. destruct (negb (production E) && c_custom cl); reflexivity.
  - unfold peek. simpl heap. rewrite (dep_only_heap _ _ D1), Hl.
    unfold peek_obj. rewrite Hp. simpl.
    rewrite (dep_only_closures _ _ D1). exact Hpk.
Qed.

(** a property defined with a native getter only, made reactive, is
    assigned to *)
Lemma write_getter_only_ignored_witness :
  exists s',
    Api.assign (plain_env false false) 0 0 "x" (VNum 7)
      (State [mk_obj KPlain
                [("x"%string, reactive_prop 0 (Some (GNative 0)) None)]]
             [] [[w1]] [Closure 0 0 VUndef None false false]
             None [] true [])
    = Done tt s' /\
    (forall d, notifies_of d
       (since (State [mk_obj KPlain
                        [("x"%string,
                          reactive_prop 0 (Some (GNative 0)) None)]]
                     [] [[w1]] [Closure 0 0 VUndef None false false]
                     None [] true []) s') = 0).
Proof.
  destruct (write_getter_only_ignored (plain_env false false) 0
              (State [mk_obj KPlain
                        [("x"%string,
                          reactive_prop 0 (Some (GNative 0)) None)]]
                     [] [[w1]] [Closure 0 0 VUndef None false false]
                     None [] true [])
              _ 0
              (mk_obj KPlain
                 [("x"%string, reactive_prop 0 (Some (GNative 0)) None)])
              "x" 0 (GNative 0) (Closure 0 0 VUndef None false false)
              (VNum 7) VUndef
              eq_refl eq_refl eq_refl eq_refl eq_refl eq_refl)
    as (s' & H1 & _ & _ & _ & H2 & _).
  exists s'. split; [exact H1|exact H2].
Defined.



(** ** From a read to an update *)

#[export] Instance subs_kept_preorder : PreOrder subs_kept.
Proof.
  split.
  - intros s d w H. exact H.
  - intros s1 s2 s3 H1 H2 d w H. apply H2, H1, H.
Qed.

Lemma subs_kept_same s s' : deps s' = deps s -> subs_kept s s'.
Proof. intros H d w. unfold Dep.subs_of. rewrite H. auto. Qed.

Lemma same_deps_subs {A} (m : M A) :
  (forall s a s', m s = Done a s' -> deps s' = deps s) ->
  respects subs_kept m.
Proof. intros H s a s' Hm. apply subs_kept_same. eauto. Qed.

Lemma create_subs : respects subs_kept Dep.create.
Proof.
  intros s a s' H. inversion H; subst; clear H. intros d w.
  unfold Dep.subs_of. simpl.
  destruct (deps s !! d) as [ws|] eqn:Hd; [|intros []].
  rewrite lookup_app_l by (eapply lookup_lt_Some; eauto). rewrite Hd. auto.
Qed.

Lemma apply_action_add_kept d w ds d' x :
  In x (default [] (ds !! d')) ->
  In x (default [] (apply_action (SubAdd d w) ds !! d')).
Proof.
  simpl. destruct (decide (d' = d)) as [->|Hne].
  - rewrite list_lookup_alter_eq. destruct (ds !! d); simpl; [|intros []].
    intros H. apply in_or_app. auto.
  - rewrite list_lookup_alter_ne by congruence. auto.
Qed.

Lemma apply_actions_kept l : forall ds d' x,
  only_adds l = true ->
  In x (default [] (ds !! d')) ->
  In x (default [] (apply_actions l ds !! d')).
Proof.
  unfold apply_actions.
  induction l as [|a l IH]; intros ds d' x Hl Hx; simpl; [exact Hx|].
  simpl in Hl. apply andb_prop in Hl as [Ha Hl].
  destruct a as [d w|]; [|discriminate].
  apply IH; [exact Hl|]. apply apply_action_add_kept. exact Hx.
Qed.

Lemma apply_actions_adds l : forall ds d w,
  only_adds l = true -> In (SubAdd d w) l -> d < length ds ->
  In w (default [] (apply_actions l ds !! d)).
Proof.
  induction l as [|a l IH]; intros ds d w Hl Hin Hd; [destruct Hin|].
  simpl in Hl. apply andb_prop in Hl as [Ha Hl].
  change (apply_actions (a :: l) ds)
    with (apply_actions l (apply_action a ds)).
  destruct Hin as [->|Hin].
  - apply apply_actions_kept; [exact Hl|]. simpl.
    rewrite list_lookup_alter_eq.
    apply lookup_lt_is_Some_2 in Hd as [ws ->]. simpl.
    apply in_or_app. right. left. reflexivity.
  - apply IH; [exact Hl|exact Hin|].
    destruct a; simpl; rewrite length_alter; exact Hd.
Qed.

Section SubsKept.
Variable E : env.
Hypothesis Hadd : forall w d, only_adds (on_addDep E w d) = true.

Lemma depend_subs d : respects subs_kept (Dep.depend E d).
Proof.
  intros s a s' H. rewrite depend_eq in H. inversion H; subst; clear H.
  destruct (target s) as [w|]; [|reflexivity].
  intros d' x Hx. unfold Dep.subs_of in *. simpl.
  apply apply_actions_kept; [apply Hadd|exact Hx].
Qed.

Lemma depend_on_ob_subs o : respects subs_kept (Observer.depend_on_ob E o).
Proof.
  unfold Observer.depend_on_ob. destruct (Obj.read_ob o).
  - respects_pure.
  - apply respects_bind; [apply _|respects_read|].
    intros x. apply depend_subs.
  - apply respects_throw.
  - apply respects_unmodelled.
Qed.

Lemma dependArray_subs fuel l :
  respects subs_kept (Observer.dependArray E fuel l).
Proof.
  revert l. induction fuel as [|f IH]; intros l; simpl.
  - apply respects_out_of_fuel.
  - apply respects_bind; [apply _|respects_read|].
    intros o. apply respects_forEach; [apply _|].
    intros [[| | | | | | |l']|]; try (respects_pure).
    apply respects_bind; [apply _|respects_read|].
    intros o'. apply respects_bind; [apply _|apply depend_on_ob_subs|].
    intros _. destruct (Obj.isArray o'); [apply IH|respects_pure].
Qed.

Lemma collect_subs fuel c v : respects subs_kept (Observer.collect E fuel c v).
Proof.
  unfold Observer.collect.
  apply respects_bind; [apply _|respects_read|].
  intros s0. destruct (target s0); [|respects_pure].
  apply respects_bind; [apply _|respects_read|].
  intros cl. apply respects_bind; [apply _|apply depend_subs|].
  intros _. destruct (c_childOb cl); [|respects_pure].
  apply respects_bind; [apply _|respects_read|].
  intros x. apply respects_bind; [apply _|apply depend_subs|].
  intros _. destruct v; try (respects_pure).
  apply respects_bind; [apply _|respects_read|].
  intros o. destruct (Obj.isArray o);
    [apply dependArray_subs|respects_pure].
Qed.

Lemma call_getter_subs fuel g :
  respects subs_kept (Observer.call_getter E fuel g).
Proof.
  induction g as [f|c|c g IH] using getter_ind'; simpl.
  - respects_pure.
  - apply respects_bind; [apply _| |].
    + apply respects_bind; [apply _|respects_read|].
      intros cl. respects_pure.
    + intros v. apply respects_bind; [apply _|apply collect_subs|].
      intros _. respects_pure.
  - apply respects_bind; [apply _|exact IH|].
    intros v. apply respects_bind; [apply _|apply collect_subs|].
    intros _. respects_pure.
Qed.

Lemma read_prop_subs fuel l k :
  respects subs_kept (Observer.read_prop E fuel l k).
Proof.
  unfold Observer.read_prop.
  apply respects_bind; [apply _|respects_read|].
  intros o.
  destruct (Obj.lookup_prop k (o_props o)) as [[v ? ? ?|ob|[g|] st ? ?]|].
  - respects_pure.
  - apply respects_unmodelled.
  - apply call_getter_subs.
  - respects_pure.
  - destruct (Obj.isArray o && String.eqb k "length");
      [respects_pure|].
    destruct (Obj.mem k (o_inherited o) || Obj.mem k Obj.objectPrototypeKeys
              || Obj.mutatorName k o);
      [apply respects_unmodelled|respects_pure].
Qed.

Section WithObs.
Variable obs : value -> M (option nat).
Hypothesis obs_subs : forall v, respects subs_kept (obs v).

Lemma defineReactive_subs fuel obj key args :
  respects subs_kept (Observer.defineReactive_with E obs fuel obj key args).
Proof.
  unfold Observer.defineReactive_with.
  apply respects_bind; [apply _|apply create_subs|].
  intros dep. apply respects_bind; [apply _|respects_read|]. intros o.
  match goal with |- respects _ (if ?b then _ else _) => destruct b end;
    [respects_pure|].
  apply respects_bind; [apply _| |].
  { destruct args; [|respects_pure].
    match goal with |- respects _ (if ?b then _ else _) => destruct b end;
      [|respects_pure].
    apply read_prop_subs. }
  intros val. apply respects_bind; [apply _| |].
  { match goal with |- respects _ (if ?b then _ else _) => destruct b end;
      [respects_pure|apply obs_subs]. }
  intros childOb. apply respects_bind; [apply _| |].
  { apply same_deps_subs. intros s a s' H. inversion H; reflexivity. }
  intros c. apply same_deps_subs. intros s a s' H.
  apply defineProperty_inv in H as (o' & _ & ->). reflexivity.
Qed.

Lemma construct_subs fuel l :
  respects subs_kept (Observer.construct_with E obs fuel l).
Proof.
  unfold Observer.construct_with.
  apply respects_bind; [apply _|apply create_subs|].
  intros dep. apply respects_bind; [apply _| |].
  { apply same_deps_subs. intros s a s' H. inversion H; reflexivity. }
  intros ob. apply respects_bind; [apply _| |].
  { apply same_deps_subs. intros s a s' H.
    apply defineProperty_inv in H as (o' & _ & ->). reflexivity. }
  intros _. apply respects_bind; [apply _|respects_read|]. intros o.
  apply respects_bind; [apply _| |intros _; respects_pure].
  destruct (Obj.isArray o).
  - apply respects_bind; [apply _| |].
    + apply same_deps_subs. intros s a s' H.
      destruct (hasProto E); apply bind_inv in H as (o' & s0 & H1 & H2);
        apply get_inv in H1 as [-> _]; apply put_inv in H2 as ->; reflexivity.
    + intros _. unfold Observer.observeArray_with.
      apply respects_forEach; [apply _|]. intros e.
      apply respects_bind; [apply _|apply obs_subs|]. intros _.
      respects_pure.
  - unfold Observer.walk_with.
    apply respects_bind; [apply _|respects_read|]. intros o'.
    apply respects_forEach; [apply _|]. intros k.
    apply defineReactive_subs.
Qed.

End WithObs.

Lemma observe_subs fuel v :
  respects subs_kept (Observer.observe E fuel false v).
Proof.
  revert v. induction fuel as [|f IH]; intros v; simpl.
  - apply respects_out_of_fuel.
  - destruct v; try (respects_pure).
    apply respects_bind; [apply _|respects_read|]. intros o.
    destruct (Obj.isVNode o); [respects_pure|].
    apply respects_bind; [apply _|respects_read|]. intros s0.
    apply respects_bind; [apply _| |].
    + destruct (Obj.marker o); [respects_pure|].
      match goal with |- respects _ (if ?b then _ else _) => destruct b end;
        [|respects_pure].
      apply respects_bind; [apply _|apply construct_subs; exact IH|].
      intros ob. respects_pure.
    + intros [i|]; [|respects_pure].
      apply respects_bind; [apply _|respects_pure|]. intros _. respects_pure.
Qed.

End SubsKept.

Lemma dispatch_order_In E ws w : In w ws -> In w (Dep.dispatch_order E ws).
Proof.
  unfold Dep.dispatch_order.
  destruct (negb (production E) && negb (async E)); [|auto].
  intros H. eapply Permutation_in; [|exact H].
  symmetry. apply sort_by_id_perm.
Qed.

(** the active consumer is subscribed to the property's dependency node
    when the getter has collected *)
Lemma collect_subscribes E fuel c v s s1 cl w :
  (forall w' d, only_adds (on_addDep E w' d) = true) ->
  In (SubAdd (c_dep cl) w) (on_addDep E w (c_dep cl)) ->
  target s = Some w -> closures s !! c = Some cl ->
  c_dep cl < length (deps s) ->
  Observer.collect E fuel c v s = Done tt s1 ->
  In w (Dep.subs_of s1 (c_dep cl)).
Proof.
  intros Hadd Hin Ht Hc Hd H. unfold Observer.collect in H.
  apply bind_inv in H as (s0 & s0' & H0 & H). inversion H0; subst s0 s0'.
  rewrite Ht in H.
  apply bind_inv in H as (cl' & s0 & H1 & H).
  unfold Observer.get_closure in H1. rewrite Hc in H1.
  inversion H1; subst cl' s0. clear H1.
  apply bind_inv in H as ([] & sA & H1 & H).
  rewrite depend_eq, Ht in H1. inversion H1; subst sA; clear H1.
  set (sA := set_deps (apply_actions (on_addDep E w (c_dep cl)) (deps s))
               (set_trace (trace s ++ [EvAddDep w (c_dep cl)]) s)) in *.
  assert (HA : In w (Dep.subs_of sA (c_dep cl))).
  { unfold Dep.subs_of. simpl. apply apply_actions_adds; auto. }
  assert (R : respects subs_kept
                (match c_childOb cl with
                 | Some ob =>
                     x <- Observer.get_observer ob ;;
                     Dep.depend E (ob_dep x) ;;;
                     match v with
                     | VRef l0 =>
                         o0 <- Obj.get l0 ;;
                         (if Obj.isArray o0
                          then Observer.dependArray E fuel l0 else ret tt)
                     | _ => ret tt
                     end
                 | None => ret tt
                 end)).
  { destruct (c_childOb cl); [|respects_pure].
    apply respects_bind; [apply _|respects_read|].
    intros x. apply respects_bind; [apply _|apply depend_subs; exact Hadd|].
    intros _. destruct v; try (respects_pure).
    apply respects_bind; [apply _|respects_read|].
    intros o. destruct (Obj.isArray o);
      [apply dependArray_subs; exact Hadd|respects_pure]. }
  apply (R _ _ _ H). exact HA.
Qed.




(** ** From reading a list to an update by a mutation *)

Lemma observeArray_subs E fuel items :
  (forall w d, only_adds (on_addDep E w d) = true) ->
  respects subs_kept (Observer.observeArray E fuel items).
Proof.
  intros Hadd. unfold Observer.observeArray, Observer.observeArray_with.
  apply respects_forEach; [apply _|]. intros e.
  apply respects_bind; [apply _|apply observe_subs; exact Hadd|].
  intros _. respects_pure.
Qed.

(** X27: an intercepted list operation whose original operation returns
    updates every consumer that is subscribed to the dependency node of
    the list's Observer, when the consumers' [addDep] only subscribes: on
    an observed list whose mutating methods are the intercepted ones,
    once the original operation has returned and left a well-formed store
    in which the arguments refer to nothing outside the store, and with
    enough fuel, the intercepted method returns the original's result and
    each of those subscribers is updated. *)
Theorem mutator_updates_subscribers (E : env) (D fuel : nat)
    (m : ArrayMethods.method) (l : nat) (args : list value) (s s1 : state)
    (o : jsobj) (ob : nat) (x : observer) (r : value) :
  (forall w d, only_adds (on_addDep E w d) = true) ->
  heap s !! l = Some o ->
  Observer.intercepted o = true ->
  Obj.marker o = Some ob ->
  observers s !! ob = Some x ->
  ArrayMethods.original E m l args s = Done r s1 ->
  Wf.wf E D s1 ->
  forallb (Wf.val_ok (length (heap s1))) args = true ->
  Wf.unmarked (heap s1) + D < fuel ->
  exists s3,
    ArrayMethods.call_method E fuel m l args s = Done r s3 /\
    forall w, In w (Dep.subs_of s (ob_dep x)) ->
              In w (updates_of (since s s3)).
Proof.
  intros Hadd Hl Hint Hm Hx Ho Hwf Hargs Hu.
  destruct (mutator_spec E D fuel m l args s o ob x r s1
              Hl Hm Hx Ho Hwf Hargs Hu)
    as (s2 & s3 & Hoa & G & Hn & Hmu & _ & _).
  destruct (original_frame _ _ _ _ _ _ _ _ Ho Hl)
    as (_ & _ & Hdp1 & Htr1 & _).
  exists s3. split.
  - unfold ArrayMethods.call_method.
    erewrite bind_done by (apply get_eq; exact Hl). rewrite Hint. exact Hmu.
  - intros w Hw.
    pose proof (observeArray_subs E fuel _ Hadd _ _ _ Hoa) as K.
    rewrite notify_eq in Hn. cbv zeta in Hn. inversion Hn; subst s3; clear Hn.
    destruct G as (_ & _ & _ & _ & _ & _ & _ & t & Ht & _).
    erewrite since_app.
    2:{ simpl. rewrite Ht, Htr1, <- app_assoc. reflexivity. }
    rewrite updates_of_app. apply in_or_app. right. simpl.
    rewrite updates_of_map. apply dispatch_order_In.
    apply (K (ob_dep x) w). unfold Dep.subs_of in *. rewrite Hdp1. exact Hw.
Qed.

(** [list.push({}, {})] on an observed list to which [w1] is subscribed *)
Lemma mutator_updates_subscribers_witness :
  exists s3,
    ArrayMethods.call_method (plain_env false false) 4 ArrayMethods.Push 0
      [VRef 1; VRef 2] list_and_two = Done (VNum 2) s3 /\
    In w1 (updates_of (since list_and_two s3)).
Proof.
  destruct (mutator_updates_subscribers (plain_env false false) 1 4
              ArrayMethods.Push 0 [VRef 1; VRef 2] list_and_two
              list_and_two_pushed
              (JsObj KArray true false [] ProtoArrayMethods false
                     [("__ob__"%string, PMarker 0)] [])
              0 (ObserverI 0 0 0) (VNum 2)
              (fun _ _ => eq_refl)
              eq_refl eq_refl eq_refl eq_refl eq_refl eq_refl eq_refl
              ltac:(vm_compute; lia))
    as (s3 & H1 & H2).
  exists s3. split; [exact H1|]. apply H2. left. reflexivity.
Defined.

(** X28: reading, as the active consumer [w], a reactive property without
    a getter of its own that recorded a child Observer ([childOb]) for its
    value subscribes [w] both to the property's dependency node and to
    the dependency node of that Observer, when the consumers' [addDep]
    only subscribes and subscribes [w] itself, the store is well formed,
    both dependency nodes exist, and the fuel covers the nesting of
    lists; the read returns the value held and changes neither objects
    nor closures. *)
Theorem read_subscribes_child (E : env) (D fuel : nat) (s : state)
    (l : nat) (o : jsobj) (k : string) (c : nat) (cl : closure)
    (ob : nat) (x : observer) (w : watcher) :
  Wf.wf E D s ->
  (forall w' d, only_adds (on_addDep E w' d) = true) ->
  (forall d, In (SubAdd d w) (on_addDep E w d)) ->
  heap s !! l = Some o ->
  Obj.lookup_prop k (o_props o) = Some (reactive_prop c None None) ->
  closures s !! c = Some cl ->
  c_childOb cl = Some ob ->
  observers s !! ob = Some x ->
  c_dep cl < length (deps s) ->
  ob_dep x < length (deps s) ->
  target s = Some w ->
  D <= fuel ->
  exists s1,
    Observer.read_prop E fuel l k s = Done (c_val cl) s1 /\
    In w (Dep.subs_of s1 (c_dep cl)) /\
    In w (Dep.subs_of s1 (ob_dep x)) /\
    heap s1 = heap s /\ closures s1 = closures s.
Proof.
  intros Hwf Hadd Hself Hl Hp Hc Hch Hx Hd Hdx Ht Hle.
  assert (Hclt : c < length (closures s)) by (eapply lookup_lt_Some; eauto).
  assert (Hcv : Wf.val_ok (length (heap s)) (c_val cl) = true).
  { pose proof (wf_closure _ _ _ _ _ Hwf Hc) as Hok.
    unfold Wf.closure_ok in Hok. apply andb_prop in Hok as [Hok _].
    exact Hok. }
  destruct (returns_inv _ _ _
              (collect_returns E D fuel c (c_val cl) s Hwf Hclt Hcv Hle))
    as ([] & s1 & Hcol & D1).
  exists s1. split; [|split; [|split; [|split]]].
  - unfold Observer.read_prop.
    erewrite bind_done by (apply get_eq; exact Hl).
    rewrite Hp. unfold reactive_prop. simpl.
    erewrite bind_done.
    2:{ erewrite bind_done
          by (unfold Observer.get_closure; rewrite Hc; reflexivity).
        reflexivity. }
    erewrite bind_done by exact Hcol. reflexivity.
  - eapply collect_subscribes; eauto.
  - unfold Observer.collect in Hcol.
    apply bind_inv in Hcol as (s0 & s0' & H0 & H). inversion H0; subst s0 s0'.
    rewrite Ht in H.
    apply bind_inv in H as (cl' & s0 & H1 & H).
    unfold Observer.get_closure in H1. rewrite Hc in H1.
    inversion H1; subst cl' s0. clear H1.
    apply bind_inv in H as ([] & sA & H1 & H).
    rewrite depend_eq, Ht in H1. inversion H1; subst sA; clear H1.
    rewrite Hch in H.
    apply bind_inv in H as (x' & s0 & H1 & H).
    unfold Observer.get_observer in H1. simpl in H1. rewrite Hx in H1.
    inversion H1; subst x' s0. clear H1.
    apply bind_inv in H as ([] & sB & H1 & H).
    rewrite depend_eq in H1. simpl in H1. rewrite Ht in H1.
    inversion H1; subst sB; clear H1.
    match type of H with _ ?sB = _ =>
      assert (HB : In w (Dep.subs_of sB (ob_dep x)))
    end.
    { unfold Dep.subs_of. simpl. apply apply_actions_adds; auto.
      rewrite apply_actions_length. exact Hdx. }
    assert (R : respects subs_kept
                  (match c_val cl with
                   | VRef l0 =>
                       o0 <- Obj.get l0 ;;
                       (if Obj.isArray o0
                        then Observer.dependArray E fuel l0 else ret tt)
                   | _ => ret tt
                   end)).
    { destruct (c_val cl); try (respects_pure).
      apply respects_bind; [apply _|respects_read|].
      intros o0. destruct (Obj.isArray o0);
        [apply dependArray_subs; exact Hadd|respects_pure]. }
    apply (R _ _ _ H). exact HB.
  - eapply dep_only_heap; eauto.
  - eapply dep_only_closures; eauto.
Qed.

(** the consumer [w1] reads [data.k], a list of lists *)
Lemma read_subscribes_child_witness :
  exists s1,
    Observer.read_prop (plain_env false false) 3 0 "k" nested_deep
    = Done (VRef 1) s1 /\
    In w1 (Dep.subs_of s1 1) /\ In w1 (Dep.subs_of s1 2).
Proof.
  destruct (read_subscribes_child (plain_env false false) 3 3 nested_deep
              0 (mk_obj KPlain [("k"%string, reactive_prop 0 None None);
                                ("__ob__"%string, PMarker 0)])
              "k" 0 (Closure 0 1 (VRef 1) (Some 1) false false)
              1 (ObserverI 1 2 0) w1
              eq_refl (fun _ _ => eq_refl) (fun d => or_introl eq_refl)
              eq_refl eq_refl eq_refl eq_refl eq_refl
              ltac:(simpl; lia) ltac:(simpl; lia) eq_refl ltac:(lia))
    as (s1 & H1 & H2 & H3 & _).
  exists s1. split; [exact H1|]. split; [exact H2|exact H3].
Defined.


